(** * ddb-cache-test: the counter indexes of [src/index.ts]

    Two counter indexes, "tags" and "people", are kept as two items of one
    DynamoDB table.  [putItem] adds signed deltas to the counters of an
    index; [getItem] reads both indexes back, removes the counters that are
    not positive and writes the cleaned indexes to the table.

    The development embeds the functions of [src/index.ts] over
    - a heap of JavaScript map objects, so that the sharing of the two maps
      of the module-level [defaultIndex] is visible,
    - an interface [DocumentClient] for the DynamoDB client, with a log of
      the requests sent to it, and
    - a model of the DynamoDB [UpdateItem] operation that reads the update
      expression the handlers build. *)

From Stdlib Require Import ZArith Ascii DecimalString DecimalNat.
From stdpp Require Import gmap strings list fin_maps.

(** ** Constants of the module *)

Definition TAGS_ID : string := "tags".
Definition PEOPLE_ID : string := "people".
Definition INDEX_KEYS_PROP : string := "indexKeys".

(** ** JavaScript values the handlers see *)

(** A thrown value or a rejected promise's reason: an [Error] (no [code]) or
    an [AWSError] (with a [code]). *)
Record JsError := {
  err_name : string;
  err_code : option string;
  err_message : string;
}.

(** Objects used as maps live in a heap and are named by their location; two
    names for one location are one object.  A count is a JavaScript number;
    the counts are integers, and a double that is an integer is written as
    that integer ([convertNumber], [isDouble]). *)
Definition loc := positive.
Abbreviation CounterMap := (gmap string Z).
Abbreviation heap := (gmap loc (gmap string Z)).

(** Modelled from the spec: [./types] is not among the sources.  [IIndex] is
    the pair of the two counter maps (the spec's IndexSet), held by
    reference; [IIndexDictionary] is a map from key to count whose values
    can be [undefined] ([None]), as the filter of
    [getDynamoDbUpdateItemParams] expects; it is listed in the order of
    [Object.keys].  [IIndexUpdate] and [IPutIndexRequest] are what
    [JSON.parse] hands to [putItem]: no field is checked, so each can be
    missing ([None] is [undefined]). *)
Record IIndex := { people : loc; tags : loc }.

Definition IIndexDictionary := list (string * option Z).

Record IIndexUpdate := {
  update_tags : option IIndexDictionary;
  update_people : option IIndexDictionary;
}.

Record IPutIndexRequest := { indexUpdate : option IIndexUpdate }.

(** ** Requests and answers of the DynamoDB document client *)

Inductive AttributeValue :=
  | AttrUndefined
  | AttrNumber (n : Z)
  | AttrMap (m : gmap string Z).

(** An item of the index table as it travels in requests and answers. *)
Record Item := {
  item_id : string;
  item_indexKeys : option (gmap string Z);
  item_updatedAt : option Z;
}.

(** An item as [batchGet] hands it to the handlers: a JavaScript object whose
    [indexKeys], when present, is a map object of the heap. *)
Record ItemObject := {
  obj_id : string;
  obj_indexKeys : option loc;
}.

Record DdbKey := { key_id : string }.

Record UpdateItemInput := {
  ConditionExpression : option string;
  ExpressionAttributeNames : gmap string string;
  ExpressionAttributeValues : gmap string AttributeValue;
  Key : DdbKey;
  ReturnValues : option string;
  TableName : string;
  UpdateExpression : string;
}.

Record UpdateItemOutput := { Attributes : option Item }.

Inductive WriteRequest := PutRequest (it : Item).

Record BatchWriteItemInput := {
  bw_RequestItems : list (string * list WriteRequest);
}.

Record BatchWriteItemOutput := {
  UnprocessedItems : list (string * list WriteRequest);
}.

Record BatchGetItemInput := {
  bg_RequestItems : list (string * list DdbKey);
}.

(** What [batchGet] answers, before the client turns it into objects. *)
Record BatchGetItemData := {
  data_Responses : option (list (string * list Item));
}.

Record BatchGetItemOutput := {
  Responses : option (list (string * list ItemObject));
}.

(** The requests the handlers send, in the order they are sent. *)
Inductive Call :=
  | CallUpdate (p : UpdateItemInput)
  | CallBatchWrite (p : BatchWriteItemInput)
  | CallBatchGet (p : BatchGetItemInput).

(** The client [dynamodb]: each operation answers with an error or an output
    and moves the table, and whatever else stands behind the client, to a
    new state.  Other clients of the table are part of that state. *)
Class DocumentClient (S : Type) := {
  ddb_update : UpdateItemInput → S → (JsError + UpdateItemOutput) * S;
  ddb_batchWrite :
    BatchWriteItemInput → S → (JsError + BatchWriteItemOutput) * S;
  ddb_batchGet : BatchGetItemInput → S → (JsError + BatchGetItemData) * S;
}.

(** ** The process *)

(** [DYNAMODB_TABLE_INDEXES] is the environment variable, [clock] what
    [new Date().getTime()] reads (one reading for the run of a handler),
    [objects] the heap, [table] the state behind the client and [calls] the
    requests sent so far. *)
Record World (S : Type) := mkWorld {
  DYNAMODB_TABLE_INDEXES : option string;
  clock : Z;
  objects : heap;
  table : S;
  calls : list Call;
}.
Arguments mkWorld {S}.
Arguments DYNAMODB_TABLE_INDEXES {S}.
Arguments clock {S}.
Arguments objects {S}.
Arguments table {S}.
Arguments calls {S}.

(** The world after the heap became [h], and after request [c] was sent and
    left the state [s] behind the client. *)
Definition withObjects {S} (h : heap) (w : World S) : World S :=
  mkWorld (DYNAMODB_TABLE_INDEXES w) (clock w) h (table w) (calls w).

Definition afterCall {S} (c : Call) (s : S) (w : World S) : World S :=
  mkWorld (DYNAMODB_TABLE_INDEXES w) (clock w) (objects w) s (calls w ++ [c]).

(** The module-level [defaultIndex]: its two maps are the objects at
    [loc_defaultPeople] and [loc_defaultTags], empty when the module is
    loaded. *)
Definition loc_defaultPeople : loc := 1%positive.
Definition loc_defaultTags : loc := 2%positive.

Definition defaultIndex : IIndex :=
  {| people := loc_defaultPeople; tags := loc_defaultTags |}.

Definition heap_at_load : heap :=
  <[loc_defaultPeople := ∅]> (<[loc_defaultTags := ∅]> ∅).

(** ** Promises and exceptions

    A computation of the handlers runs in a world and either resolves with a
    value or rejects with an error; a [throw] and a rejected promise are the
    same to a caller that awaits inside [try]. *)
Inductive Outcome (A : Type) :=
  | Resolved (a : A)
  | Rejected (e : JsError).
Arguments Resolved {A}.
Arguments Rejected {A}.

Definition M (S A : Type) : Type := World S → Outcome A * World S.

Definition resolve {S A} (a : A) : M S A := λ w, (Resolved a, w).
Definition throw {S A} (e : JsError) : M S A := λ w, (Rejected e, w).

Definition andThen {S A B} (m : M S A) (k : A → M S B) : M S B :=
  λ w, match m w with
       | (Resolved a, w') => k a w'
       | (Rejected e, w') => (Rejected e, w')
       end.

Definition catch {S A} (m : M S A) (handler : JsError → M S A) : M S A :=
  λ w, match m w with
       | (Resolved a, w') => (Resolved a, w')
       | (Rejected e, w') => handler e w'
       end.

#[global] Instance M_ret {S} : MRet (M S) := λ A, resolve.
#[global] Instance M_bind {S} : MBind (M S) := λ A B k m, andThen m k.

(** ** Reading and writing map objects *)

(** The object at a location; a location never written holds no entries. *)
Definition getMap (h : heap) (l : loc) : gmap string Z := h !!! l.

(** The maps are ordinary objects, made by [{}], by a spread or by the
    client, so their prototype is [Object.prototype], whose only setter is
    the one of ["__proto__"].  An assignment [o[k] = v] stores the entry
    unless it reaches that setter, which leaves the object as it is when [v]
    is a number: it stores under every key but ["__proto__"], and under
    ["__proto__"] only when the object has an entry of its own there. *)
Definition assignable (o : gmap string Z) (k : string) : Prop :=
  k ≠ "__proto__" ∨ is_Some (o !! k).

#[global] Instance assignable_dec o k : Decision (assignable o k) :=
  ltac:(unfold assignable; apply _).

(** [o[k] = v], for a number [v]. *)
Definition setProp (l : loc) (k : string) (v : Z) (h : heap) : heap :=
  if decide (assignable (getMap h l) k) then <[l := <[k := v]> (getMap h l)]> h
  else h.

(** [Object.keys(o)], in some order; the loops that use it do the same
    whatever the order ([cleanLoop_spec]). *)
Definition Object_keys (o : gmap string Z) : list string :=
  (map_to_list o).*1.

(** A location no object of [h] has; the two maps of [defaultIndex] keep
    theirs. *)
Definition freshLoc (h : heap) : loc :=
  fresh ({[loc_defaultPeople; loc_defaultTags]} ∪ dom h).

(** ** The pruning pass of [cleanZeroIndexes] *)

(** One round of a [forEach] callback: [source] is [indexObject.people] (or
    [.tags]), [cleaned] is [cleanedIndex.people] (or [.tags]), [st.1] is
    [updateNeeded].  The count is read from the source as it is when the
    round runs.  A key that [Object.keys] listed is still in the source then
    ([cleanLoop_key_present]), so the last case, where JavaScript would read
    [undefined], is never taken. *)
Definition cleanStep (source cleaned : loc) (st : bool * heap) (p : string)
  : bool * heap :=
  match getMap st.2 source !! p with
  | Some v =>
      if (v <=? 0)%Z then (true, st.2)
      else (st.1, setProp cleaned p v st.2)
  | None => st
  end.

Definition cleanLoop (source cleaned : loc) (st : bool * heap) : bool * heap :=
  foldl (cleanStep source cleaned) st (Object_keys (getMap st.2 source)).

(** The two loops of [cleanZeroIndexes]: [cleanedIndex] is a shallow copy of
    [defaultIndex], so its [people] and [tags] are the locations of
    [defaultIndex]'s maps. *)
Definition pruneLoops (indexObject : IIndex) (h : heap)
  : IIndex * bool * heap :=
  let cleanedIndex :=
    {| people := people defaultIndex; tags := tags defaultIndex |} in
  let st := (false, h) in
  let st := cleanLoop (people indexObject) (people cleanedIndex) st in
  let st := cleanLoop (tags indexObject) (tags cleanedIndex) st in
  (cleanedIndex, st.1, st.2).

(** ** Helpers standing for JavaScript built-ins *)

(** [`${idx}`]: the decimal digits of an array index. *)
Definition decimal (idx : nat) : string :=
  NilEmpty.string_of_uint (Nat.to_uint idx).

(** [indexData[k]] on a dictionary listed in key order. *)
Fixpoint getProp (indexData : IIndexDictionary) (k : string) : option Z :=
  match indexData with
  | [] => None
  | (k', v) :: rest => if decide (k' = k) then v else getProp rest k
  end.

(** [array.reduce((accum, x, idx) => f(accum, x, idx), init)]. *)
Fixpoint reduceFrom {A B} (f : B → A → nat → B) (idx : nat) (l : list A)
  (accum : B) : B :=
  match l with
  | [] => accum
  | x :: rest => reduceFrom f (S idx) rest (f accum x idx)
  end.

Definition reduce {A B} (f : B → A → nat → B) (l : list A) (init : B) : B :=
  reduceFrom f 0 l init.

Definition toAttribute (v : option Z) : AttributeValue :=
  match v with
  | Some n => AttrNumber n
  | None => AttrUndefined
  end.

Definition noTableError : JsError :=
  {| err_name := "Error"; err_code := None;
     err_message := "No DYNAMODB_TABLE_INDEXES env variable set" |}.

(** What [Object.keys(undefined)] and [undefined.find] throw. *)
Definition typeError (message : string) : JsError :=
  {| err_name := "TypeError"; err_code := None; err_message := message |}.

Definition MISSING_PATH_MESSAGE : string :=
  "The document path provided in the update expression is invalid for update".

(** The test in the [catch] of [updateAndHandleEmptyMap]. *)
Definition isMissingPath (e : JsError) : bool :=
  bool_decide (err_code e = Some "ValidationException")
  && bool_decide (err_message e = MISSING_PATH_MESSAGE).

(** Modelled from the spec: [./common/responses] is not among the sources;
    it gives the two result shapes, success with a result payload and
    failure with an error payload. *)
Inductive Response (A : Type) :=
  | success (payload : A)
  | failure (err : JsError).
Arguments success {A}.
Arguments failure {A}.

Record GetPayload := {
  get_ddbParams : BatchGetItemInput;
  get_ddbResponse : BatchGetItemOutput;
  get_indexesObject : IIndex;
  get_cleanZeroIndexesObject : IIndex;
}.

(** [None] in an update response is [undefined]: the update was skipped. *)
Record PutPayload := {
  put_eventBody : string;
  put_requestBody : IPutIndexRequest;
  tagsUpdateResponse : option UpdateItemOutput;
  peopleUpdateResponse : option UpdateItemOutput;
}.

(** The event of [putItem]: its body, and what [JSON.parse] makes of it (a
    thrown error or the parsed request). *)
Record APIGatewayProxyEvent := {
  body : string;
  body_json : JsError + IPutIndexRequest;
}.

(** The update expression of one key: the text of the [map] callback in
    [getDynamoDbUpdateItemParams]. *)
Definition updateKeyValue (idx : nat) : string :=
  "#indexKeysProp.#" +:+ decimal idx
  +:+ " = if_not_exists(#indexKeysProp.#" +:+ decimal idx
  +:+ ",:zero) + :" +:+ decimal idx.

(** The two [reduce] calls of [getDynamoDbUpdateItemParams]: the callback
    that builds [ExpressionAttributeNames] from [{}], and the one that builds
    [ExpressionAttributeValues] from [{":updatedAt": timestamp, ":zero": 0}]. *)
Definition namesStep (accum : gmap string string) (key : string) (idx : nat)
  : gmap string string :=
  <["#indexKeysProp" := INDEX_KEYS_PROP]> (<["#" +:+ decimal idx := key]> accum).

Definition attributeNames (validKeys : list string) : gmap string string :=
  reduce namesStep validKeys ∅.

Definition valuesStep (indexData : IIndexDictionary)
  (accum : gmap string AttributeValue) (key : string) (idx : nat)
  : gmap string AttributeValue :=
  <[":" +:+ decimal idx := toAttribute (getProp indexData key)]> accum.

Definition attributeValues (indexData : IIndexDictionary) (timestamp : Z)
  (validKeys : list string) : gmap string AttributeValue :=
  reduce (valuesStep indexData) validKeys
    (<[":zero" := AttrNumber 0]> (<[":updatedAt" := AttrNumber timestamp]> ∅)).

(** The request of the bootstrap write in [updateAndHandleEmptyMap]. *)
Definition setMapParams (ddbParams : UpdateItemInput) : UpdateItemInput :=
  {| ConditionExpression := Some "attribute_not_exists(#indexKeysProp)";
     ExpressionAttributeNames := {[ "#indexKeysProp" := INDEX_KEYS_PROP ]};
     ExpressionAttributeValues := {[ ":emptyMap" := AttrMap ∅ ]};
     Key := Key ddbParams;
     ReturnValues := None;
     TableName := TableName ddbParams;
     UpdateExpression := "SET #indexKeysProp = :emptyMap" |}.

(** The client was made without [wrapNumbers], so it hands a stored number
    to the handlers as [Number(text)]: the double nearest to it, a tie going
    to the double whose last bit is zero.  A double that is an integer is
    written as that integer; [e] is the number of low bits that 53 bits of
    precision leave out.  DynamoDB holds numbers below 10^126 in magnitude,
    far from the largest double. *)
Definition convertNumber (n : Z) : Z :=
  let a := Z.abs n in
  let e := (Z.log2 a - 52)%Z in
  if (e <=? 0)%Z then n
  else
    let q := (a / 2 ^ e)%Z in
    let r := (a mod 2 ^ e)%Z in
    let half := (2 ^ (e - 1))%Z in
    let q' := if (half <? r)%Z || ((r =? half)%Z && Z.odd q)
              then (q + 1)%Z else q in
    (Z.sgn n * (q' * 2 ^ e))%Z.

(** The client turns a stored map into an object by [map = {}] and one
    assignment [map[key] = Number(text)] for each entry: an entry under
    ["__proto__"] is not stored. *)
Definition convertOutputMap (m : gmap string Z) : gmap string Z :=
  convertNumber <$> delete "__proto__" m.

(** An item of an update answer, as the client hands it to the handlers. *)
Definition convertOutputItem (it : Item) : Item :=
  {| item_id := item_id it;
     item_indexKeys := convertOutputMap <$> item_indexKeys it;
     item_updatedAt := convertNumber <$> item_updatedAt it |}.

Definition translateOutput (output : UpdateItemOutput) : UpdateItemOutput :=
  {| Attributes := convertOutputItem <$> Attributes output |}.

(** The client turns the items of an answer into objects; each map becomes a
    new object of the heap. *)
Definition unmarshallItem (st : list ItemObject * heap) (it : Item)
  : list ItemObject * heap :=
  match item_indexKeys it with
  | Some m =>
      let l := freshLoc st.2 in
      (st.1 ++ [{| obj_id := item_id it; obj_indexKeys := Some l |}],
       <[l := convertOutputMap m]> st.2)
  | None =>
      (st.1 ++ [{| obj_id := item_id it; obj_indexKeys := None |}], st.2)
  end.

Definition unmarshallTable
  (st : list (string * list ItemObject) * heap) (entry : string * list Item)
  : list (string * list ItemObject) * heap :=
  let r := foldl unmarshallItem ([], st.2) entry.2 in
  (st.1 ++ [(entry.1, r.1)], r.2).

Definition unmarshall (data : BatchGetItemData) (h : heap)
  : BatchGetItemOutput * heap :=
  match data_Responses data with
  | Some tables =>
      let r := foldl unmarshallTable ([], h) tables in
      ({| Responses := Some r.1 |}, r.2)
  | None => ({| Responses := None |}, h)
  end.

(** [responses[name]] on the object [Responses]. *)
Fixpoint tableItems {A} (responses : list (string * A)) (name : string)
  : option A :=
  match responses with
  | [] => None
  | (n, items) :: rest =>
      if decide (n = name) then Some items else tableItems rest name
  end.

(** ** The functions of [src/index.ts] *)

(** The [ddbParams] of [updateCleanIndexes], for the table [name]: the spread
    [{...indexObject.tags}] copies the entries the map has in the heap [h]
    when the request is built. *)
Definition cleanIndexesParams (name : string) (h : heap) (indexObject : IIndex)
  : BatchWriteItemInput :=
  {| bw_RequestItems :=
       [(name,
         [PutRequest {| item_id := TAGS_ID;
                        item_indexKeys := Some (getMap h (tags indexObject));
                        item_updatedAt := None |};
          PutRequest {| item_id := PEOPLE_ID;
                        item_indexKeys := Some (getMap h (people indexObject));
                        item_updatedAt := None |}])] |}.

Section Handlers.
Context {S : Type} `{!DocumentClient S}.

(** [new Date().getTime()]. *)
Definition Date_now : M S Z := λ w, (Resolved (clock w), w).

Definition getHeap : M S heap := λ w, (Resolved (objects w), w).

(** Run a step that only reads and writes the heap. *)
Definition onHeap {A} (f : heap → A * heap) : M S A := λ w,
  let r := f (objects w) in
  (Resolved r.1, withObjects r.2 w).

(** Send a request to the client: the request is logged, the state behind
    the client moves, the promise resolves or rejects. *)
Definition send {A} (c : Call) (op : S → (JsError + A) * S) : M S A := λ w,
  let r := op (table w) in
  let w' := afterCall c r.2 w in
  match r.1 with
  | inl e => (Rejected e, w')
  | inr a => (Resolved a, w')
  end.

Definition dynamodb_update (p : UpdateItemInput) : M S UpdateItemOutput :=
  send (CallUpdate p) (ddb_update p).

Definition dynamodb_batchWrite (p : BatchWriteItemInput)
  : M S BatchWriteItemOutput :=
  send (CallBatchWrite p) (ddb_batchWrite p).

Definition dynamodb_batchGet (p : BatchGetItemInput) : M S BatchGetItemOutput :=
  data ← send (CallBatchGet p) (ddb_batchGet p);
  onHeap (unmarshall data).

(** An empty string is falsy, as an unset variable is. *)
Definition getIndexTableName : M S string := λ w,
  match DYNAMODB_TABLE_INDEXES w with
  | Some name =>
      if decide (name = "") then throw noTableError w else resolve name w
  | None => throw noTableError w
  end.

Definition getDynamoDbBatchGetItemParams : M S BatchGetItemInput :=
  name ← getIndexTableName;
  mret {| bg_RequestItems :=
            [(name, [{| key_id := TAGS_ID |}; {| key_id := PEOPLE_ID |}])] |}.

Definition getIndexRecords (ddbParams : BatchGetItemInput)
  : M S BatchGetItemOutput :=
  dynamodb_batchGet ddbParams.

(** [Responses[getIndexTableName()].find(...)]: the table name is looked up
    first; a [Responses] without that table makes [.find] throw. *)
Definition findRecord (responses : list (string * list ItemObject))
  (slot : string) : M S (option ItemObject) :=
  name ← getIndexTableName;
  match tableItems responses name with
  | Some items =>
      mret (find (λ response, bool_decide (obj_id response = slot)) items)
  | None => throw (typeError "Cannot read property 'find' of undefined")
  end.

(** [record && record[INDEX_KEYS_PROP] ? record[INDEX_KEYS_PROP] : current];
    a map object is truthy also when it has no entries. *)
Definition indexKeysOr (record : option ItemObject) (current : loc) : loc :=
  match record with
  | Some r =>
      match obj_indexKeys r with
      | Some l => l
      | None => current
      end
  | None => current
  end.

Definition parseIndexesObject (ddbResponse : BatchGetItemOutput) : M S IIndex :=
  let indexes :=
    {| people := people defaultIndex; tags := tags defaultIndex |} in
  match Responses ddbResponse with
  | Some responses =>
      tagsRecord ← findRecord responses TAGS_ID;
      let indexes :=
        {| people := people indexes;
           tags := indexKeysOr tagsRecord (tags indexes) |} in
      peopleRecord ← findRecord responses PEOPLE_ID;
      let indexes :=
        {| people := indexKeysOr peopleRecord (people indexes);
           tags := tags indexes |} in
      mret indexes
  | None => mret indexes
  end.

Definition updateCleanIndexes (indexObject : IIndex)
  : M S BatchWriteItemOutput :=
  name ← getIndexTableName;
  h ← getHeap;
  dynamodb_batchWrite (cleanIndexesParams name h indexObject).

Definition cleanZeroIndexes (indexObject : IIndex) : M S IIndex :=
  '(cleanedIndex, updateNeeded) ← onHeap (pruneLoops indexObject);
  if updateNeeded : bool then
    _ ← updateCleanIndexes cleanedIndex;
    mret cleanedIndex
  else mret cleanedIndex.

(** The handler answers through its callback, with a success or a failure. *)
Definition getItem : World S → Response GetPayload * World S := λ w,
  let run :=
    ddbParams ← getDynamoDbBatchGetItemParams;
    ddbResponse ← getIndexRecords ddbParams;
    indexesObject ← parseIndexesObject ddbResponse;
    cleanZeroIndexesObject ← cleanZeroIndexes indexesObject;
    mret {| get_ddbParams := ddbParams;
            get_ddbResponse := ddbResponse;
            get_indexesObject := indexesObject;
            get_cleanZeroIndexesObject := cleanZeroIndexesObject |} in
  match run w with
  | (Resolved payload, w') => (success payload, w')
  | (Rejected err, w') => (failure err, w')
  end.

(** [Object.keys(indexData).filter((k) => indexData[k] !== undefined)]. *)
Definition validKeysOf (indexData : IIndexDictionary) : list string :=
  filter (λ k, is_Some (getProp indexData k)) indexData.*1.

(** [indexData] is [None] when the caller passes [undefined], as [putItem]
    does for a slot the request leaves out; [Object.keys] then throws. *)
Definition getDynamoDbUpdateItemParams (indexId : string)
  (indexData : option IIndexDictionary) : M S (option UpdateItemInput) :=
  timestamp ← Date_now;
  match indexData with
  | None => throw (typeError "Cannot convert undefined or null to object")
  | Some indexData =>
      let validKeys := validKeysOf indexData in
      if bool_decide (0 < length validKeys) then
        let names := attributeNames validKeys in
        let values := attributeValues indexData timestamp validKeys in
        let updateKeyValues :=
          String.concat ", " (imap (λ idx key, updateKeyValue idx) validKeys) in
        name ← getIndexTableName;
        mret (Some
          {| ConditionExpression := None;
             ExpressionAttributeNames := names;
             ExpressionAttributeValues := values;
             Key := {| key_id := indexId |};
             ReturnValues := Some "ALL_NEW";
             TableName := name;
             UpdateExpression :=
               "SET " +:+ updateKeyValues +:+ ", updatedAt = :updatedAt" |})
      else mret None
  end.

Definition updateAndHandleEmptyMap (ddbParams : UpdateItemInput)
  : M S UpdateItemOutput :=
  catch (dynamodb_update ddbParams) (λ e,
    if isMissingPath e then
      _ ← dynamodb_update (setMapParams ddbParams);
      dynamodb_update ddbParams
    else throw e).

Definition updateIndexRecord (indexId : string)
  (indexData : option IIndexDictionary) : M S (option UpdateItemOutput) :=
  ddbParams ← getDynamoDbUpdateItemParams indexId indexData;
  match ddbParams with
  | Some ddbParams =>
      response ← updateAndHandleEmptyMap ddbParams;
      mret (Some response)
  | None => mret None
  end.

(** [requestBody.indexUpdate.tags]: reading a field of [undefined] throws. *)
Definition readIndexUpdate (requestBody : IPutIndexRequest)
  (field : IIndexUpdate → option IIndexDictionary)
  (fieldName : string) : M S (option IIndexDictionary) :=
  match indexUpdate requestBody with
  | Some u => mret (field u)
  | None =>
      throw (typeError
               ("Cannot read property '" +:+ fieldName +:+ "' of undefined"))
  end.

Definition putItem (event : APIGatewayProxyEvent)
  : World S → Response PutPayload * World S := λ w,
  let run :=
    requestBody ←
      match body_json event with
      | inl e => throw e
      | inr r => mret r
      end;
    tagsData ← readIndexUpdate requestBody update_tags "tags";
    tagsUpdateResponse ← updateIndexRecord TAGS_ID tagsData;
    peopleData ← readIndexUpdate requestBody update_people "people";
    peopleUpdateResponse ← updateIndexRecord PEOPLE_ID peopleData;
    mret {| put_eventBody := body event;
            put_requestBody := requestBody;
            tagsUpdateResponse := tagsUpdateResponse;
            peopleUpdateResponse := peopleUpdateResponse |} in
  match run w with
  | (Resolved payload, w') => (success payload, w')
  | (Rejected err, w') => (failure err, w')
  end.

End Handlers.

(** ** A model of the table behind the client

    The handlers hand DynamoDB an update expression as text, with
    placeholders for attribute names and values.  [DynamoDb] reads such a
    text the way the service does, for the part of the expression language
    the handlers use: [SET] actions on [updatedAt], on [indexKeys] and on one
    counter inside [indexKeys], with the operand forms [:value],
    [if_not_exists(path, :value)] and the sum of two operands, and the
    condition [attribute_not_exists(path)].  Every operand is read from the
    item as it is before the update. *)
Module DynamoDb.

Inductive token :=
  | TWord (s : string)
  | TDot
  | TComma
  | TEq
  | TPlus
  | TOpen
  | TClose
  | TUnknown (c : ascii).

Definition between (lo hi n : N) : bool := ((lo <=? n) && (n <=? hi))%N.

(** Letters, digits and [_] make up a word; so do [#] and [:], which start a
    placeholder. *)
Definition isWordChar (c : ascii) : bool :=
  let n := N_of_ascii c in
  between 48 57 n || between 65 90 n || between 97 122 n
  || (n =? 95)%N || (n =? 35)%N || (n =? 58)%N.

Definition isSpace (c : ascii) : bool := (N_of_ascii c =? 32)%N.

Definition punctuation (c : ascii) : token :=
  let n := N_of_ascii c in
  if (n =? 46)%N then TDot
  else if (n =? 44)%N then TComma
  else if (n =? 61)%N then TEq
  else if (n =? 43)%N then TPlus
  else if (n =? 40)%N then TOpen
  else if (n =? 41)%N then TClose
  else TUnknown c.

Definition flush (word : string) (ts : list token) : list token :=
  match word with
  | EmptyString => ts
  | _ => TWord word :: ts
  end.

(** [word] is the word read so far. *)
Fixpoint lexFrom (word : string) (s : string) : list token :=
  match s with
  | EmptyString => flush word []
  | String c rest =>
      if isWordChar c then lexFrom (word +:+ String c EmptyString) rest
      else if isSpace c then flush word (lexFrom EmptyString rest)
      else flush word (punctuation c :: lexFrom EmptyString rest)
  end.

Definition lex (s : string) : list token := lexFrom EmptyString s.

(** A document path of one or two names, each literal or a [#placeholder]. *)
Definition path := list string.

Inductive Operand :=
  | ValueRef (placeholder : string)
  | IfNotExists (p : path) (placeholder : string).

Inductive SetValue :=
  | Single (a : Operand)
  | Plus (a b : Operand).

Record SetAction := { target : path; assigned : SetValue }.

Definition parsePath (ts : list token) : option (path * list token) :=
  match ts with
  | TWord a :: TDot :: TWord b :: rest => Some ([a; b], rest)
  | TWord a :: rest => Some ([a], rest)
  | _ => None
  end.

Definition parseOperand (ts : list token) : option (Operand * list token) :=
  match ts with
  | TWord f :: TOpen :: rest =>
      if String.eqb f "if_not_exists" then
        match parsePath rest with
        | Some (p, TComma :: TWord v :: TClose :: rest') =>
            Some (IfNotExists p v, rest')
        | _ => None
        end
      else None
  | TWord v :: rest => Some (ValueRef v, rest)
  | _ => None
  end.

Definition parseValue (ts : list token) : option (SetValue * list token) :=
  match parseOperand ts with
  | Some (a, TPlus :: rest) =>
      match parseOperand rest with
      | Some (b, rest') => Some (Plus a b, rest')
      | None => None
      end
  | Some (a, rest) => Some (Single a, rest)
  | None => None
  end.

Definition parseAction (ts : list token) : option (SetAction * list token) :=
  match parsePath ts with
  | Some (p, TEq :: rest) =>
      match parseValue rest with
      | Some (v, rest') => Some ({| target := p; assigned := v |}, rest')
      | None => None
      end
  | _ => None
  end.

(** Actions separated by commas; [fuel] bounds their number. *)
Fixpoint parseActions (fuel : nat) (ts : list token) : option (list SetAction) :=
  match fuel with
  | O => None
  | Datatypes.S fuel' =>
      match parseAction ts with
      | Some (a, []) => Some [a]
      | Some (a, TComma :: rest) =>
          match parseActions fuel' rest with
          | Some l => Some (a :: l)
          | None => None
          end
      | _ => None
      end
  end.

Definition parseUpdateExpression (s : string) : option (list SetAction) :=
  match lex s with
  | TWord kw :: rest =>
      if String.eqb kw "SET" then parseActions (length rest) rest else None
  | _ => None
  end.

Definition parseCondition (s : string) : option path :=
  match lex s with
  | TWord f :: TOpen :: rest =>
      if String.eqb f "attribute_not_exists" then
        match parsePath rest with
        | Some (p, [TClose]) => Some p
        | _ => None
        end
      else None
  | _ => None
  end.

(** The attributes an item of the index table can have, besides its key. *)
Inductive AttrPath :=
  | PathUpdatedAt
  | PathIndexKeys
  | PathCounter (k : string).

Definition isPlaceholder (name : string) : bool :=
  match name with
  | String c _ => (N_of_ascii c =? 35)%N
  | EmptyString => false
  end.

Definition resolveName (names : gmap string string) (name : string)
  : option string :=
  if isPlaceholder name then names !! name else Some name.

Definition resolvePath (names : gmap string string) (p : path)
  : option (list string) :=
  mapM (resolveName names) p.

Definition classify (p : list string) : option AttrPath :=
  match p with
  | [a] =>
      if String.eqb a "updatedAt" then Some PathUpdatedAt
      else if String.eqb a INDEX_KEYS_PROP then Some PathIndexKeys
      else None
  | [a; k] =>
      if String.eqb a INDEX_KEYS_PROP then Some (PathCounter k) else None
  | _ => None
  end.

Definition readPath (it : Item) (p : AttrPath) : option AttributeValue :=
  match p with
  | PathUpdatedAt => AttrNumber <$> item_updatedAt it
  | PathIndexKeys => AttrMap <$> item_indexKeys it
  | PathCounter k => AttrNumber <$> (item_indexKeys it ≫= (.!! k))
  end.

Definition awsError (code message : string) : JsError :=
  {| err_name := code; err_code := Some code; err_message := message |}.

Definition validation (message : string) : JsError :=
  awsError "ValidationException" message.

Definition conditionalCheckFailed : JsError :=
  awsError "ConditionalCheckFailedException" "The conditional request failed".

Definition resourceNotFound : JsError :=
  awsError "ResourceNotFoundException" "Requested resource not found".

Definition nameNotDefined : JsError :=
  validation
    "An expression attribute name used in the document path is not defined".

Definition valueNotDefined : JsError :=
  validation
    "An expression attribute value used in expression is not defined".

Definition wrongOperand : JsError :=
  validation "Incorrect operand type for operator or function".

Definition pathsOverlap : JsError :=
  validation
    "Invalid UpdateExpression: Two document paths overlap with each other".

Definition orError {A} (o : option A) (e : JsError) : JsError + A :=
  match o with
  | Some a => inr a
  | None => inl e
  end.

Definition bindR {A B} (r : JsError + A) (k : A → JsError + B) : JsError + B :=
  match r with
  | inl e => inl e
  | inr a => k a
  end.

Notation "'let*' x := r 'in' k" := (bindR r (λ x, k))
  (at level 10, x pattern, r at level 100, k at level 200, only parsing).

Definition evalOperand (names : gmap string string)
  (values : gmap string AttributeValue) (old : Item) (o : Operand)
  : JsError + AttributeValue :=
  match o with
  | ValueRef v =>
      orError (values !! v) valueNotDefined
  | IfNotExists p v =>
      let* names_p := orError (resolvePath names p) nameNotDefined in
      match classify names_p ≫= readPath old with
      | Some a => inr a
      | None => orError (values !! v) valueNotDefined
      end
  end.

Definition evalValue (names : gmap string string)
  (values : gmap string AttributeValue) (old : Item) (v : SetValue)
  : JsError + AttributeValue :=
  match v with
  | Single a => evalOperand names values old a
  | Plus a b =>
      let* x := evalOperand names values old a in
      let* y := evalOperand names values old b in
      match x, y with
      | AttrNumber n, AttrNumber m => inr (AttrNumber (n + m))
      | _, _ => inl wrongOperand
      end
  end.

(** Write one attribute of the new item.  A counter can only be set inside an
    [indexKeys] map the item already has. *)
Definition writePath (old new : Item) (p : AttrPath) (v : AttributeValue)
  : JsError + Item :=
  match p, v with
  | PathUpdatedAt, AttrNumber n =>
      inr {| item_id := item_id new; item_indexKeys := item_indexKeys new;
             item_updatedAt := Some n |}
  | PathIndexKeys, AttrMap m =>
      inr {| item_id := item_id new; item_indexKeys := Some m;
             item_updatedAt := item_updatedAt new |}
  | PathCounter k, AttrNumber n =>
      match item_indexKeys old, item_indexKeys new with
      | Some _, Some m =>
          inr {| item_id := item_id new; item_indexKeys := Some (<[k := n]> m);
                 item_updatedAt := item_updatedAt new |}
      | _, _ => inl (validation MISSING_PATH_MESSAGE)
      end
  | _, _ => inl (validation "Unsupported attribute value")
  end.

Definition resolveTarget (names : gmap string string) (a : SetAction)
  : JsError + AttrPath :=
  let* names_p := orError (resolvePath names (target a)) nameNotDefined in
  orError (classify names_p) (validation "Unsupported document path").

Definition overlap (p q : AttrPath) : bool :=
  match p, q with
  | PathUpdatedAt, PathUpdatedAt => true
  | PathUpdatedAt, _ | _, PathUpdatedAt => false
  | PathCounter k, PathCounter k' => String.eqb k k'
  | _, _ => true
  end.

Fixpoint overlapping (ps : list AttrPath) : bool :=
  match ps with
  | [] => false
  | p :: rest => existsb (overlap p) rest || overlapping rest
  end.

Fixpoint mapR {A B} (f : A → JsError + B) (l : list A) : JsError + list B :=
  match l with
  | [] => inr []
  | x :: rest =>
      let* y := f x in
      let* ys := mapR f rest in
      inr (y :: ys)
  end.

Fixpoint applyActions (names : gmap string string)
  (values : gmap string AttributeValue) (old : Item)
  (acts : list (AttrPath * SetValue)) (new : Item) : JsError + Item :=
  match acts with
  | [] => inr new
  | (p, v) :: rest =>
      let* x := evalValue names values old v in
      let* new' := writePath old new p x in
      applyActions names values old rest new'
  end.

(** One table, by name, with its items by [id]. *)
Record Db := {
  db_name : string;
  db_items : gmap string Item;
}.

Definition emptyItem (id : string) : Item :=
  {| item_id := id; item_indexKeys := None; item_updatedAt := None |}.

Definition checkCondition (p : UpdateItemInput) (old : Item) : JsError + unit :=
  match ConditionExpression p with
  | None => inr ()
  | Some c =>
      let* cp := orError (parseCondition c)
        (validation "Invalid ConditionExpression: Syntax error") in
      let* names_p :=
        orError (resolvePath (ExpressionAttributeNames p) cp) nameNotDefined in
      match classify names_p ≫= readPath old with
      | Some _ => inl conditionalCheckFailed
      | None => inr ()
      end
  end.

(** [UpdateItem]: the item is created when the table has none under the key;
    a failed update leaves the table as it is. *)
Definition updateItem (p : UpdateItemInput) (db : Db)
  : JsError + (UpdateItemOutput * Db) :=
  if negb (String.eqb (TableName p) (db_name db)) then inl resourceNotFound
  else
    let names := ExpressionAttributeNames p in
    let values := ExpressionAttributeValues p in
    let* actions := orError (parseUpdateExpression (UpdateExpression p))
      (validation "Invalid UpdateExpression: Syntax error") in
    let* targets := mapR (resolveTarget names) actions in
    if overlapping targets then inl pathsOverlap
    else
      let id := key_id (Key p) in
      let old := default (emptyItem id) (db_items db !! id) in
      let* _ := checkCondition p old in
      let* new := applyActions names values old
                    (zip targets (assigned <$> actions)) old in
      inr ({| Attributes :=
                if bool_decide (ReturnValues p = Some "ALL_NEW") then Some new
                else None |},
           {| db_name := db_name db;
              db_items := <[id := new]> (db_items db) |}).

Definition putAll (items : gmap string Item) (rs : list WriteRequest)
  : gmap string Item :=
  foldl (λ acc r, match r with PutRequest it => <[item_id it := it]> acc end)
    items rs.

Definition batchWriteItem (p : BatchWriteItemInput) (db : Db)
  : JsError + (BatchWriteItemOutput * Db) :=
  if forallb (λ entry, String.eqb entry.1 (db_name db)) (bw_RequestItems p) then
    inr ({| UnprocessedItems := [] |},
         {| db_name := db_name db;
            db_items := foldl (λ acc entry, putAll acc entry.2) (db_items db)
                          (bw_RequestItems p) |})
  else inl resourceNotFound.

Definition batchGetItem (p : BatchGetItemInput) (db : Db)
  : JsError + (BatchGetItemData * Db) :=
  if forallb (λ entry, String.eqb entry.1 (db_name db)) (bg_RequestItems p) then
    inr ({| data_Responses :=
              Some (map (λ entry : string * list DdbKey,
                           (entry.1,
                            omap (λ k, db_items db !! key_id k) entry.2))
                      (bg_RequestItems p)) |},
         db)
  else inl resourceNotFound.

Definition answer {A} (db : Db) (r : JsError + (A * Db)) : (JsError + A) * Db :=
  match r with
  | inl e => (inl e, db)
  | inr (a, db') => (inr a, db')
  end.

(** The answer to an update, its attributes as the client reads them. *)
Definition answerUpdate (db : Db) (r : JsError + (UpdateItemOutput * Db))
  : (JsError + UpdateItemOutput) * Db :=
  match r with
  | inl e => (inl e, db)
  | inr (a, db') => (inr (translateOutput a), db')
  end.

#[global] Instance client : DocumentClient Db := {|
  ddb_update p db := answerUpdate db (updateItem p db);
  ddb_batchWrite p db := answer db (batchWriteItem p db);
  ddb_batchGet p db := answer db (batchGetItem p db);
|}.

(** The table shared with other clients: after each request of this process,
    the next waiting request of another client is served. *)
Record Shared := {
  shared_db : Db;
  waiting : list UpdateItemInput;
}.

Definition serveOther (s : Shared) : Shared :=
  match waiting s with
  | [] => s
  | p :: rest =>
      {| shared_db := (answer (shared_db s) (updateItem p (shared_db s))).2;
         waiting := rest |}
  end.

Definition served {A} (s : Shared) (r : (JsError + A) * Db)
  : (JsError + A) * Shared :=
  (r.1, serveOther {| shared_db := r.2; waiting := waiting s |}).

#[global] Instance sharedClient : DocumentClient Shared := {|
  ddb_update p s :=
    served s (answerUpdate (shared_db s) (updateItem p (shared_db s)));
  ddb_batchWrite p s :=
    served s (answer (shared_db s) (batchWriteItem p (shared_db s)));
  ddb_batchGet p s :=
    served s (answer (shared_db s) (batchGetItem p (shared_db s)));
|}.

End DynamoDb.

(** A client that answers from a script, whatever the request. *)
Module Scripted.

Definition Script := list (JsError + UpdateItemOutput).

Definition next (s : Script) : (JsError + UpdateItemOutput) * Script :=
  match s with
  | [] => (inr {| Attributes := None |}, [])
  | r :: rest => (r, rest)
  end.

#[global] Instance scriptedClient : DocumentClient Script := {|
  ddb_update _ s := next s;
  ddb_batchWrite _ s := (inr {| UnprocessedItems := [] |}, s);
  ddb_batchGet _ s := (inr {| data_Responses := None |}, s);
|}.

End Scripted.

(** ** What the specification says of pruning

    The specification's [prune] keeps, in each slot, the entries whose count
    is positive, and reports a change when an entry was dropped. *)
Definition positiveEntries (m : gmap string Z) : gmap string Z :=
  filter (λ kv, (0 < kv.2)%Z) m.

Definition hasDropped (m : gmap string Z) : bool :=
  bool_decide (map_Exists (λ _ v, (v ≤ 0)%Z) m).

(** What a loop of [cleanZeroIndexes] copies from the map [m] into a map that
    holds [old]: the positive entries that the assignment stores. *)
Definition keptEntries (old m : gmap string Z) : gmap string Z :=
  filter (λ kv, (0 < kv.2)%Z ∧ assignable old kv.1) m.

(** ** Worlds used in the examples *)

(** The table name is set and not empty. *)
Definition configured {S} (w : World S) (name : string) : Prop :=
  DYNAMODB_TABLE_INDEXES w = Some name ∧ name ≠ "".

Definition emptyDb : DynamoDb.Db :=
  {| DynamoDb.db_name := "indexes"; DynamoDb.db_items := ∅ |}.

(** A process that has just loaded the module, with the objects [extra] on
    its heap and [s] behind the client. *)
Definition freshWorld {S} (extra : list (loc * gmap string Z)) (s : S)
  : World S :=
  mkWorld (Some "indexes") 1000
    (foldr (λ kv h, <[kv.1 := kv.2]> h) heap_at_load extra) s [].

(** The index of the test of [cleanZeroIndexes], as objects 3 and 4. *)
Definition testIndex : IIndex := {| people := 3%positive; tags := 4%positive |}.

Definition testObjects : list (loc * gmap string Z) :=
  [(3%positive, {[ "bob" := 1%Z; "cynthia" := 0%Z ]});
   (4%positive, {[ "yellow" := (-1)%Z; "red" := 0%Z ]})].

(** A first read sees bob counted once; by the second read bob's count has
    gone down to zero. *)
Definition firstRead : IIndex := {| people := 3%positive; tags := 4%positive |}.
Definition secondRead : IIndex :=
  {| people := 5%positive; tags := 6%positive |}.

Definition twoReads : heap :=
  <[3%positive := {[ "bob" := 1%Z ]}]>
    (<[4%positive := {[ "red" := 2%Z ]}]>
       (<[5%positive := {[ "bob" := 0%Z ]}]>
          (<[6%positive := ∅]> heap_at_load))).

(** The process after its first read, with nothing sent yet. *)
Definition afterFirstRead : World DynamoDb.Db :=
  mkWorld (Some "indexes") 1000 (pruneLoops firstRead twoReads).2 emptyDb [].

(** A batch-read answer that lists the table and found no record in it. *)
Definition noRecords : BatchGetItemOutput :=
  {| Responses := Some [("indexes", [])] |}.

(** The decode scenario of the specification: no record for "people", and a
    record for "tags" whose [indexKeys] is object 3, [{red: 2}]. *)
Definition tagsOnly : BatchGetItemOutput :=
  {| Responses :=
       Some [("indexes",
              [{| obj_id := "tags"; obj_indexKeys := Some 3%positive |}])] |}.

Definition tagsOnlyObjects : list (loc * gmap string Z) :=
  [(3%positive, {[ "red" := 2%Z ]})].

(** A failure of the service that has nothing to do with the document
    path. *)
Definition throttled : JsError :=
  DynamoDb.awsError "ProvisionedThroughputExceededException"
    "The level of configured provisioned throughput for the table was exceeded".

(** The request [getDynamoDbUpdateItemParams] builds for the one delta
    [{red: 1}] on "tags" ([incrementRed_built]). *)
Definition incrementRed : UpdateItemInput :=
  {| ConditionExpression := None;
     ExpressionAttributeNames :=
       {[ "#0" := "red"; "#indexKeysProp" := "indexKeys" ]};
     ExpressionAttributeValues :=
       {[ ":0" := AttrNumber 1; ":updatedAt" := AttrNumber 1000;
          ":zero" := AttrNumber 0 ]};
     Key := {| key_id := "tags" |};
     ReturnValues := Some "ALL_NEW";
     TableName := "indexes";
     UpdateExpression :=
       "SET #indexKeysProp.#0 = if_not_exists(#indexKeysProp.#0,:zero) + :0, updatedAt = :updatedAt" |}.

(** Two processes make the first write to "tags" at once: the other one's
    bootstrap write is served between the two requests of this one. *)
Definition racing : World DynamoDb.Shared :=
  freshWorld []
    {| DynamoDb.shared_db := emptyDb;
       DynamoDb.waiting := [setMapParams incrementRed] |}.

(** A double quote, to write request bodies. *)
Definition dq : string := String (ascii_of_nat 34) EmptyString.

(** The body [{"indexUpdate":{"people":{}}}]: no deltas for "tags" at all. *)
Definition tagsOmitted : APIGatewayProxyEvent :=
  {| body := "{" +:+ dq +:+ "indexUpdate" +:+ dq +:+ ":{" +:+ dq +:+ "people"
             +:+ dq +:+ ":{}}}";
     body_json :=
       inr {| indexUpdate :=
                Some {| update_tags := None; update_people := Some [] |} |} |}.

(** The body [{"indexUpdate":{"tags":{},"people":{}}}]. *)
Definition bothEmpty : APIGatewayProxyEvent :=
  {| body := "{" +:+ dq +:+ "indexUpdate" +:+ dq +:+ ":{" +:+ dq +:+ "tags"
             +:+ dq +:+ ":{}," +:+ dq +:+ "people" +:+ dq +:+ ":{}}}";
     body_json :=
       inr {| indexUpdate :=
                Some {| update_tags := Some []; update_people := Some [] |} |} |}.

(** ** The update expression of an increment, as DynamoDB reads it *)

(** What the text of [updateKeyValue idx] stands for. *)
Definition keyAction (idx : nat) : DynamoDb.SetAction :=
  {| DynamoDb.target := ["#indexKeysProp"; "#" +:+ decimal idx];
     DynamoDb.assigned :=
       DynamoDb.Plus
         (DynamoDb.IfNotExists ["#indexKeysProp"; "#" +:+ decimal idx] ":zero")
         (DynamoDb.ValueRef (":" +:+ decimal idx)) |}.

Definition updatedAtAction : DynamoDb.SetAction :=
  {| DynamoDb.target := ["updatedAt"];
     DynamoDb.assigned := DynamoDb.Single (DynamoDb.ValueRef ":updatedAt") |}.

Definition keyTokens (idx : nat) : list DynamoDb.token :=
  [DynamoDb.TWord "#indexKeysProp"; DynamoDb.TDot;
   DynamoDb.TWord ("#" +:+ decimal idx); DynamoDb.TEq;
   DynamoDb.TWord "if_not_exists"; DynamoDb.TOpen;
   DynamoDb.TWord "#indexKeysProp"; DynamoDb.TDot;
   DynamoDb.TWord ("#" +:+ decimal idx); DynamoDb.TComma;
   DynamoDb.TWord ":zero"; DynamoDb.TClose; DynamoDb.TPlus;
   DynamoDb.TWord (":" +:+ decimal idx)].

Definition updatedAtTokens : list DynamoDb.token :=
  [DynamoDb.TWord "updatedAt"; DynamoDb.TEq; DynamoDb.TWord ":updatedAt"].

(** Every character of [s] belongs to a word. *)
Fixpoint allWord (s : string) : bool :=
  match s with
  | EmptyString => true
  | String c rest => DynamoDb.isWordChar c && allWord rest
  end.

Fixpoint allDigits (s : string) : bool :=
  match s with
  | EmptyString => true
  | String c rest => DynamoDb.between 48 57 (N_of_ascii c) && allDigits rest
  end.

(** [s] does not go on with the word before it. *)
Definition breaksWord (s : string) : bool :=
  match s with
  | EmptyString => true
  | String c _ => negb (DynamoDb.isWordChar c)
  end.

(** The map an increment leaves in [indexKeys]: each key with a delta holds
    its prior count, or 0, plus the delta. *)
Definition incremented (indexData : IIndexDictionary) (prior : gmap string Z)
  (ks : list string) : gmap string Z :=
  foldl (λ m k, <[k := (default 0 (prior !! k)
                        + default 0 (getProp indexData k))%Z]> m) prior ks.

(** Reading a part of a text: the tokens it completes, and the word it has
    begun when it ends. *)
Fixpoint scan (word : string) (s : string) : list DynamoDb.token * string :=
  match s with
  | EmptyString => ([], word)
  | String c rest =>
      if DynamoDb.isWordChar c then scan (word +:+ String c EmptyString) rest
      else
        let r := scan EmptyString rest in
        if DynamoDb.isSpace c then (DynamoDb.flush word r.1, r.2)
        else (DynamoDb.flush word (DynamoDb.punctuation c :: r.1), r.2)
  end.

(** The tokens of the keys [idxs], one comma between two keys. *)
Fixpoint clauseTokens (idxs : list nat) : list DynamoDb.token :=
  match idxs with
  | [] => []
  | [idx] => keyTokens idx
  | idx :: rest => keyTokens idx ++ DynamoDb.TComma :: clauseTokens rest
  end.

(** The example of the specification: the deltas [{a: 3, b: -1}] against a
    "tags" record that counts [a] 5 times and has no [b]. *)
Definition exampleDeltas : IIndexDictionary :=
  [("a", Some 3%Z); ("b", Some (-1)%Z)].

Definition exampleRecord : Item :=
  {| item_id := "tags"; item_indexKeys := Some {[ "a" := 5%Z ]};
     item_updatedAt := None |}.

Definition exampleDb : DynamoDb.Db :=
  {| DynamoDb.db_name := "indexes";
     DynamoDb.db_items := {[ "tags" := exampleRecord ]} |}.

Definition exampleResult : Item :=
  {| item_id := "tags";
     item_indexKeys := Some {[ "a" := 8%Z; "b" := (-1)%Z ]};
     item_updatedAt := Some 1000%Z |}.

(** The body [{"indexUpdate":{"tags":{"red":0},"people":{}}}]: a delta of
    zero for a tag never counted. *)
Definition zeroDelta : APIGatewayProxyEvent :=
  {| body := "{" +:+ dq +:+ "indexUpdate" +:+ dq +:+ ":{" +:+ dq +:+ "tags"
             +:+ dq +:+ ":{" +:+ dq +:+ "red" +:+ dq +:+ ":0},"
             +:+ dq +:+ "people" +:+ dq +:+ ":{}}}";
     body_json :=
       inr {| indexUpdate :=
                Some {| update_tags := Some [("red", Some 0%Z)];
                        update_people := Some [] |} |} |}.

(** The record of "tags" in the table behind the client, if any. *)
Definition storedTags (w : World DynamoDb.Db) : option (gmap string Z) :=
  DynamoDb.db_items (table w) !! "tags" ≫= item_indexKeys.

(** A table where bob is counted once and red twice. *)
Definition countedDb : DynamoDb.Db :=
  {| DynamoDb.db_name := "indexes";
     DynamoDb.db_items :=
       {[ "people" := {| item_id := "people";
                         item_indexKeys := Some {[ "bob" := 1%Z ]};
                         item_updatedAt := None |};
          "tags" := {| item_id := "tags";
                       item_indexKeys := Some {[ "red" := 2%Z ]};
                       item_updatedAt := None |} ]} |}.

(** The body [{"indexUpdate":{"tags":{},"people":{"bob":-1}}}]. *)
Definition decrementBob : APIGatewayProxyEvent :=
  {| body := "{" +:+ dq +:+ "indexUpdate" +:+ dq +:+ ":{" +:+ dq +:+ "tags"
             +:+ dq +:+ ":{}," +:+ dq +:+ "people" +:+ dq +:+ ":{" +:+ dq
             +:+ "bob" +:+ dq +:+ ":-1}}}";
     body_json :=
       inr {| indexUpdate :=
                Some {| update_tags := Some [];
                        update_people := Some [("bob", Some (-1)%Z)] |} |} |}.

Definition storedPeople (w : World DynamoDb.Db) : option (gmap string Z) :=
  DynamoDb.db_items (table w) !! "people" ≫= item_indexKeys.

(** The two items are deleted from the table by hand, as the README does to
    reset the indexes; the process goes on. *)
Definition resetTable (w : World DynamoDb.Db) : World DynamoDb.Db :=
  mkWorld (DYNAMODB_TABLE_INDEXES w) (clock w) (objects w) emptyDb (calls w).

(** ** Counters that are all positive *)

(** Every count of [m] is positive: the state of a counter map after
    pruning. *)
Definition allPositive (m : gmap string Z) : Prop :=
  ∀ k v, m !! k = Some v → (0 < v)%Z.

(** The two maps of [defaultIndex] hold positive counts only; so it is when
    the module is loaded, both being empty. *)
Definition defaultsPositive (h : heap) : Prop :=
  allPositive (getMap h (people defaultIndex))
  ∧ allPositive (getMap h (tags defaultIndex)).

(** ** Requests and tables used in the further properties *)

(** The request [getDynamoDbUpdateItemParams] resolves with, for the slot
    [indexId], the deltas [indexData], the timestamp read and the table
    [name] ([getDynamoDbUpdateItemParams_built]). *)
Definition incrementParams (indexId : string) (indexData : IIndexDictionary)
  (timestamp : Z) (name : string) : UpdateItemInput :=
  {| ConditionExpression := None;
     ExpressionAttributeNames := attributeNames (validKeysOf indexData);
     ExpressionAttributeValues :=
       attributeValues indexData timestamp (validKeysOf indexData);
     Key := {| key_id := indexId |};
     ReturnValues := Some "ALL_NEW";
     TableName := name;
     UpdateExpression :=
       "SET "
       +:+ String.concat ", "
             (imap (λ idx key, updateKeyValue idx) (validKeysOf indexData))
       +:+ ", updatedAt = :updatedAt" |}.

(** The record of a slot as an update finds it: the stored one, or the
    empty one it would create. *)
Definition recordOf (db : DynamoDb.Db) (indexId : string) : Item :=
  default (DynamoDb.emptyItem indexId) (DynamoDb.db_items db !! indexId).

(** Every item of the table is stored under its own [id]. *)
Definition keyedById (db : DynamoDb.Db) : Prop :=
  ∀ k it, DynamoDb.db_items db !! k = Some it → item_id it = k.

(** A process whose environment has no table name. *)
Definition unconfigured : World DynamoDb.Db :=
  mkWorld None 1000 heap_at_load emptyDb [].

(** The counters a slot holds in the table, if it has a record with an
    [indexKeys] map. *)
Definition storedCounters (db : DynamoDb.Db) (slot : string)
  : option (gmap string Z) :=
  DynamoDb.db_items db !! slot ≫= item_indexKeys.

(** The counters of a slot, a slot without a counter map counting as one
    without counters. *)
Definition countersOf (db : DynamoDb.Db) (slot : string) : gmap string Z :=
  default ∅ (storedCounters db slot).


(** The same process at a later reading of the clock. *)
Definition atTime {S} (t : Z) (w : World S) : World S :=
  mkWorld (DYNAMODB_TABLE_INDEXES w) t (objects w) (table w) (calls w).



(** Deltas whose keys are texts DynamoDB would not take as names in an
    expression: one with a space, one that reads as a placeholder. *)
Definition awkwardDeltas : IIndexDictionary :=
  [("new york", Some 1%Z); ("#0", Some 2%Z)].

(** ** Counts as JavaScript numbers *)

(** A count the handlers can hold: a number that reading changes nothing
    of, that is, a double ([isDouble_spec]). *)
Definition isDouble (n : Z) : Prop := convertNumber n = n.

Definition holdsDoubles (m : gmap string Z) : Prop :=
  ∀ k v, m !! k = Some v → isDouble v.

(** The counters of a slot as a read hands them to the handlers. *)
Definition countersRead (db : DynamoDb.Db) (slot : string) : gmap string Z :=
  convertOutputMap (countersOf db slot).

(** A table whose tags hold a count of zero, a count one above 2^53 and a
    count under ["__proto__"]; "people" has no record. *)
Definition oddDb : DynamoDb.Db :=
  {| DynamoDb.db_name := "indexes";
     DynamoDb.db_items :=
       {[ "tags" := {| item_id := "tags";
                       item_indexKeys :=
                         Some {[ "red" := 0%Z; "big" := 9007199254740993%Z;
                                 "__proto__" := 5%Z ]};
                       item_updatedAt := Some 900%Z |} ]} |}.

(** An index whose people map has an entry of its own under ["__proto__"],
    as [JSON.parse] makes them, as objects 3 and 4. *)
Definition protoObjects : list (loc * gmap string Z) :=
  [(3%positive, {[ "__proto__" := 5%Z; "bob" := 1%Z ]}); (4%positive, ∅)].

(** * Properties *)

(** Open the sequencing of two steps of a handler. *)
Ltac open_bind := unfold mbind, M_bind, andThen.

(** ** Map objects *)

Lemma getMap_setProp l l' k v h :
  getMap (setProp l k v h) l'
  = if decide (l = l' ∧ assignable (getMap h l) k)
    then <[k := v]> (getMap h l) else getMap h l'.
Proof.
  unfold setProp. destruct (decide (assignable (getMap h l) k)) as [Hk|Hk].
  - unfold getMap. destruct (decide (l = l')) as [<-|Hl].
    + rewrite decide_True by done. by rewrite lookup_total_insert_eq.
    + rewrite decide_False by tauto. by rewrite lookup_total_insert_ne.
  - by rewrite decide_False by tauto.
Qed.

Lemma elem_of_Object_keys (o : gmap string Z) k :
  k ∈ Object_keys o ↔ is_Some (o !! k).
Proof.
  unfold Object_keys. rewrite list_elem_of_fmap. split.
  - intros [[k' v] [-> Hin]]. apply elem_of_map_to_list in Hin. by exists v.
  - intros [v Hv]. exists (k, v). split; [done|]. by apply elem_of_map_to_list.
Qed.

Lemma lookup_positiveEntries m k :
  positiveEntries m !! k
  = match m !! k with
    | Some v => if decide (0 < v)%Z then Some v else None
    | None => None
    end.
Proof.
  unfold positiveEntries. destruct (m !! k) as [v|] eqn:Hk.
  - case_decide as Hv.
    + by apply map_lookup_filter_Some.
    + apply map_lookup_filter_None. right. intros v' Hv'. simpl. congruence.
  - apply map_lookup_filter_None. left. done.
Qed.

Lemma hasDropped_true m :
  hasDropped m = true ↔ ∃ k v, m !! k = Some v ∧ (v ≤ 0)%Z.
Proof.
  unfold hasDropped. rewrite bool_decide_eq_true. unfold map_Exists. done.
Qed.

Lemma hasDropped_false m :
  hasDropped m = false ↔ ∀ k v, m !! k = Some v → (0 < v)%Z.
Proof.
  rewrite <- not_true_iff_false, hasDropped_true. split.
  - intros Hno k v Hk. destruct (decide (0 < v)%Z); [done|].
    exfalso. apply Hno. exists k, v. split; [done|lia].
  - intros Hall (k & v & Hk & Hv). specialize (Hall k v Hk). lia.
Qed.

Lemma positiveEntries_id m : hasDropped m = false → positiveEntries m = m.
Proof.
  rewrite hasDropped_false. intros Hall. apply map_eq. intros k.
  rewrite lookup_positiveEntries. destruct (m !! k) as [v|] eqn:Hk; [|done].
  rewrite decide_True; [done|]. by eapply Hall.
Qed.

(** ** The loops of [cleanZeroIndexes] *)

(** A round never changes the map it reads: when that map is also the map it
    writes, it stores the value it has just read. *)
Lemma cleanStep_source source cleaned st p :
  getMap (cleanStep source cleaned st p).2 source = getMap st.2 source.
Proof.
  unfold cleanStep. destruct (getMap st.2 source !! p) as [v|] eqn:Hp; [|done].
  destruct (v <=? 0)%Z; [done|]. simpl. rewrite getMap_setProp.
  case_decide as Hl; [|done]. destruct Hl as [<- _]. by apply insert_id.
Qed.

Lemma cleanStep_other source cleaned st p l :
  l ≠ cleaned → getMap (cleanStep source cleaned st p).2 l = getMap st.2 l.
Proof.
  intros Hl. unfold cleanStep.
  destruct (getMap st.2 source !! p) as [v|]; [|done].
  destruct (v <=? 0)%Z; [done|]. simpl. rewrite getMap_setProp.
  rewrite decide_False; [done|]. intros [Heq _]. by apply Hl.
Qed.

(** A round leaves the cleaned map with the keys it can be assigned. *)
Lemma cleanStep_assignable source cleaned st p k :
  assignable (getMap (cleanStep source cleaned st p).2 cleaned) k
  ↔ assignable (getMap st.2 cleaned) k.
Proof.
  unfold cleanStep. destruct (getMap st.2 source !! p) as [v|]; [|done].
  destruct (v <=? 0)%Z; [done|]. simpl. rewrite getMap_setProp.
  case_decide as Hl; [|done]. destruct Hl as [_ Hp]. unfold assignable in *.
  destruct (decide (p = k)) as [->|Hpk].
  - rewrite lookup_insert_eq. split; [done|]. intros _.
    destruct Hp as [Hp|Hp]; [by left|]. right. by eexists.
  - by rewrite lookup_insert_ne.
Qed.

(** The rounds over a list of keys: the flag is raised by the listed keys
    whose count is not positive, the others are copied where the assignment
    stores them. *)
Lemma cleanRounds_spec source cleaned ks st :
  let r := foldl (cleanStep source cleaned) st ks in
  getMap r.2 source = getMap st.2 source
  ∧ (∀ l, l ≠ cleaned → getMap r.2 l = getMap st.2 l)
  ∧ (r.1 = true ↔
       st.1 = true
       ∨ ∃ k v, k ∈ ks ∧ getMap st.2 source !! k = Some v ∧ (v ≤ 0)%Z)
  ∧ (∀ k, getMap r.2 cleaned !! k
          = match getMap st.2 source !! k with
            | Some v =>
                if decide (k ∈ ks ∧ (0 < v)%Z
                           ∧ assignable (getMap st.2 cleaned) k)
                then Some v
                else getMap st.2 cleaned !! k
            | None => getMap st.2 cleaned !! k
            end).
Proof.
  revert st. induction ks as [|p ks IH]; intros st; cbn [foldl].
  - split; [done|]. split; [done|]. split.
    + split; [by left|]. intros [?|(k & v & Hk & _)]; [done|].
      by apply elem_of_nil in Hk.
    + intros k. destruct (getMap st.2 source !! k); [|done].
      rewrite decide_False; [done|]. intros [Hk _]. by apply elem_of_nil in Hk.
  - specialize (IH (cleanStep source cleaned st p)).
    cbv zeta in IH. destruct IH as (IHs & IHo & IHf & IHc).
    pose proof (cleanStep_source source cleaned st p) as Hsrc.
    split; [by rewrite IHs|]. split.
    { intros l Hl. rewrite IHo by done. by apply cleanStep_other. }
    split.
    + rewrite IHf, Hsrc. clear IHs IHo IHf IHc. unfold cleanStep.
      destruct (getMap st.2 source !! p) as [v|] eqn:Hp.
      * destruct (Z.leb_spec v 0) as [Hv|Hv]; simpl.
        -- split; [|by left]. intros _. right. exists p, v.
           split; [apply elem_of_cons; by left|done].
        -- split.
           ++ intros [?|(k & v' & Hk & Hk' & Hv')]; [by left|].
              right. exists k, v'. split; [apply elem_of_cons; by right|done].
           ++ intros [?|(k & v' & Hk & Hk' & Hv')]; [by left|].
              apply elem_of_cons in Hk as [->|Hk].
              ** rewrite Hp in Hk'. simplify_eq. lia.
              ** right. by exists k, v'.
      * split.
        -- intros [?|(k & v' & Hk & Hk' & Hv')]; [by left|].
           right. exists k, v'. split; [apply elem_of_cons; by right|done].
        -- intros [?|(k & v' & Hk & Hk' & Hv')]; [by left|].
           apply elem_of_cons in Hk as [->|Hk]; [congruence|].
           right. by exists k, v'.
    + intros k. rewrite IHc, Hsrc.
      pose proof (cleanStep_assignable source cleaned st p k) as Hassign.
      clear IHs IHo IHf IHc.
      destruct (getMap st.2 source !! k) as [v|] eqn:Hk.
      * destruct (decide (k ∈ ks ∧ (0 < v)%Z
                          ∧ assignable
                              (getMap (cleanStep source cleaned st p).2 cleaned)
                              k)) as [(Hin & Hv & Ha)|Hno].
        { rewrite decide_True; [done|]. split; [|by rewrite <- Hassign].
          apply elem_of_cons. by right. }
        rewrite Hassign in Hno. clear Hassign. unfold cleanStep.
        destruct (getMap st.2 source !! p) as [vp|] eqn:Hp.
        -- destruct (Z.leb_spec vp 0) as [Hvp|Hvp]; simpl.
           ++ rewrite decide_False; [done|]. intros (Hin & Hv & Ha).
              apply elem_of_cons in Hin as [->|Hin]; [|tauto].
              rewrite Hp in Hk. simplify_eq. lia.
           ++ rewrite getMap_setProp.
              destruct (decide (p = k)) as [->|Hpk].
              ** rewrite Hp in Hk. simplify_eq.
                 destruct (decide (assignable (getMap st.2 cleaned) k))
                   as [Ha|Ha].
                 --- rewrite decide_True by done. rewrite lookup_insert_eq.
                     rewrite decide_True; [done|]. split; [|done].
                     apply elem_of_cons. by left.
                 --- rewrite decide_False by tauto.
                     rewrite decide_False; [done|]. tauto.
              ** assert ((if decide (cleaned = cleaned
                                     ∧ assignable (getMap st.2 cleaned) p)
                          then <[p := vp]> (getMap st.2 cleaned)
                          else getMap st.2 cleaned) !! k
                         = getMap st.2 cleaned !! k) as ->.
                 { case_decide; [|done]. by rewrite lookup_insert_ne. }
                 rewrite decide_False; [done|]. intros (Hin & Hv & Ha).
                 apply elem_of_cons in Hin as [->|Hin]; [done|tauto].
        -- rewrite decide_False; [done|]. intros (Hin & Hv & Ha).
           apply elem_of_cons in Hin as [->|Hin]; [congruence|tauto].
      * clear Hassign. unfold cleanStep.
        destruct (getMap st.2 source !! p) as [vp|] eqn:Hp; [|done].
        destruct (Z.leb_spec vp 0) as [Hvp|Hvp]; simpl; [done|].
        rewrite getMap_setProp. case_decide; [|done].
        rewrite lookup_insert_ne; [done|]. intros ->. congruence.
Qed.

Lemma lookup_keptEntries old m k :
  keptEntries old m !! k
  = match m !! k with
    | Some v => if decide ((0 < v)%Z ∧ assignable old k) then Some v else None
    | None => None
    end.
Proof.
  unfold keptEntries. destruct (m !! k) as [v|] eqn:Hk.
  - case_decide as Hv.
    + by apply map_lookup_filter_Some.
    + apply map_lookup_filter_None. right. intros v' Hv'. simpl. congruence.
  - apply map_lookup_filter_None. left. done.
Qed.

(** A whole loop: the positive entries of the source that the assignment
    stores are written over the cleaned map, whatever that map held before
    stays otherwise. *)
Lemma cleanLoop_spec source cleaned st :
  let r := cleanLoop source cleaned st in
  getMap r.2 source = getMap st.2 source
  ∧ (∀ l, l ≠ cleaned → getMap r.2 l = getMap st.2 l)
  ∧ r.1 = st.1 || hasDropped (getMap st.2 source)
  ∧ getMap r.2 cleaned
    = keptEntries (getMap st.2 cleaned) (getMap st.2 source)
      ∪ getMap st.2 cleaned.
Proof.
  unfold cleanLoop.
  destruct (cleanRounds_spec source cleaned
              (Object_keys (getMap st.2 source)) st) as (Hs & Ho & Hf & Hc).
  split; [done|]. split; [done|]. split.
  - apply eq_true_iff_eq. rewrite Hf, orb_true_iff, hasDropped_true.
    split.
    + intros [?|(k & v & _ & Hk & Hv)]; [by left|]. right. by exists k, v.
    + intros [?|(k & v & Hk & Hv)]; [by left|]. right. exists k, v.
      split; [|done]. apply elem_of_Object_keys. by exists v.
  - apply map_eq. intros k. rewrite Hc, lookup_union, lookup_keptEntries.
    destruct (getMap st.2 source !! k) as [v|] eqn:Hk.
    + destruct (decide ((0 < v)%Z ∧ assignable (getMap st.2 cleaned) k))
        as [[Hv Ha]|Hv].
      * rewrite decide_True.
        -- by destruct (getMap st.2 cleaned !! k).
        -- split; [|done]. apply elem_of_Object_keys. by exists v.
      * rewrite decide_False by tauto.
        by destruct (getMap st.2 cleaned !! k).
    + by destruct (getMap st.2 cleaned !! k).
Qed.

(** Every key of the loop is found by the round that handles it. *)
Lemma cleanLoop_key_present source cleaned st before p after :
  Object_keys (getMap st.2 source) = before ++ p :: after →
  is_Some (getMap (foldl (cleanStep source cleaned) st before).2 source !! p).
Proof.
  intros Hkeys.
  destruct (cleanRounds_spec source cleaned before st) as (Hsource & _).
  cbv zeta in Hsource. rewrite Hsource. apply elem_of_Object_keys.
  rewrite Hkeys. apply elem_of_app. right. apply elem_of_cons. by left.
Qed.

(** Both loops.  The tags loop reads [indexObject.tags] after the people loop
    has written [defaultIndex.people]; the two are different objects unless a
    caller passes that very map as its tags. *)
Lemma pruneLoops_spec indexObject h :
  let r := pruneLoops indexObject h in
  r.1.1 = defaultIndex
  ∧ getMap r.2 loc_defaultPeople
    = keptEntries (getMap h loc_defaultPeople) (getMap h (people indexObject))
      ∪ getMap h loc_defaultPeople
  ∧ (∀ l, l ≠ loc_defaultPeople → l ≠ loc_defaultTags →
       getMap r.2 l = getMap h l)
  ∧ (tags indexObject ≠ loc_defaultPeople →
       getMap r.2 loc_defaultTags
       = keptEntries (getMap h loc_defaultTags) (getMap h (tags indexObject))
         ∪ getMap h loc_defaultTags
       ∧ r.1.2 = hasDropped (getMap h (people indexObject))
                 || hasDropped (getMap h (tags indexObject))).
Proof.
  unfold pruneLoops. cbn [fst snd people tags defaultIndex].
  set (st0 := (false, h)).
  destruct (cleanLoop_spec (people indexObject) loc_defaultPeople st0)
    as (_ & Ho1 & Hf1 & Hc1).
  set (st1 := cleanLoop (people indexObject) loc_defaultPeople st0) in *.
  destruct (cleanLoop_spec (tags indexObject) loc_defaultTags st1)
    as (_ & Ho2 & Hf2 & Hc2).
  set (st2 := cleanLoop (tags indexObject) loc_defaultTags st1) in *.
  cbn [fst snd] in *.
  split; [done|]. split; [by rewrite Ho2|]. split.
  { intros l Hp Ht. by rewrite Ho2, Ho1. }
  intros Hcross. rewrite Hc2, Hf2, Hf1, !Ho1 by done. done.
Qed.

(** The entries a loop keeps are positive entries of its input: all of them
    when the input has no entry under ["__proto__"]; into a map that has no
    entries, all of them but that one. *)
Lemma keptEntries_positive old m :
  m !! "__proto__" = None → keptEntries old m = positiveEntries m.
Proof.
  intros Hm. apply map_eq. intros k.
  rewrite lookup_keptEntries, lookup_positiveEntries.
  destruct (m !! k) as [v|] eqn:Hk; [|done].
  destruct (decide (0 < v)%Z) as [Hv|Hv].
  - rewrite decide_True; [done|]. split; [done|]. left. intros ->. congruence.
  - rewrite decide_False; [done|]. tauto.
Qed.

Lemma keptEntries_empty m :
  keptEntries ∅ m = positiveEntries (delete "__proto__" m).
Proof.
  apply map_eq. intros k.
  rewrite lookup_keptEntries, lookup_positiveEntries.
  destruct (decide (k = "__proto__")) as [->|Hk].
  - rewrite lookup_delete_eq. destruct (m !! "__proto__") as [v|]; [|done].
    rewrite decide_False; [done|]. intros [_ [Hne|[x Hx]]]; [done|].
    by rewrite lookup_empty in Hx.
  - rewrite lookup_delete_ne by done. destruct (m !! k) as [v|]; [|done].
    destruct (decide (0 < v)%Z) as [Hv|Hv].
    + rewrite decide_True; [done|]. split; [done|]. by left.
    + rewrite decide_False; [done|]. tauto.
Qed.

(** In a process that has retained nothing yet, the loops compute what the
    specification asks of [prune], but for an entry under ["__proto__"],
    which they raise the flag for when it is not positive and otherwise
    lose. *)
Lemma pruneLoops_first_call indexObject h :
  getMap h loc_defaultPeople = ∅ →
  getMap h loc_defaultTags = ∅ →
  tags indexObject ≠ loc_defaultPeople →
  let r := pruneLoops indexObject h in
  getMap r.2 (people r.1.1)
  = positiveEntries (delete "__proto__" (getMap h (people indexObject)))
  ∧ getMap r.2 (tags r.1.1)
    = positiveEntries (delete "__proto__" (getMap h (tags indexObject)))
  ∧ r.1.2 = hasDropped (getMap h (people indexObject))
            || hasDropped (getMap h (tags indexObject)).
Proof.
  intros Hp Ht Hcross.
  destruct (pruneLoops_spec indexObject h) as (Hc & Hpeople & _ & Htags).
  destruct (Htags Hcross) as [Htags' Hflag]. cbv zeta. rewrite Hc.
  cbn [people tags defaultIndex].
  rewrite Hpeople, Htags', Hp, Ht, !keptEntries_empty, !(right_id_L ∅ (∪)).
  done.
Qed.

(** The test of [cleanZeroIndexes], run in a process that has just loaded the
    module: bob stays, cynthia and both tags go. *)
Example pruneLoops_test :
  let r := pruneLoops testIndex (objects (freshWorld testObjects emptyDb)) in
  getMap r.2 (people r.1.1) = {[ "bob" := 1%Z ]}
  ∧ getMap r.2 (tags r.1.1) = ∅
  ∧ r.1.2 = true.
Proof. vm_compute. done. Qed.

(** In a process that has just loaded the module, a positive count under
    ["__proto__"] is neither kept nor reported: the assignment to the cleaned
    map stores nothing and the flag stays down. *)
Example pruneLoops_proto :
  let r := pruneLoops testIndex (objects (freshWorld protoObjects emptyDb)) in
  getMap r.2 (people r.1.1) = {[ "bob" := 1%Z ]}
  ∧ getMap r.2 (tags r.1.1) = ∅
  ∧ r.1.2 = false.
Proof. vm_compute. done. Qed.

(** C2 (the code departs from the claim): prune is to retain, in each slot,
    exactly the entries whose value is positive.  In a process that has
    already pruned an index where bob counted 1 and red counted 2, pruning an
    index where bob counts 0 and no tag is left reports a change but returns
    bob with his old count and red with its old count: the cleaned index is
    built in the maps of [defaultIndex], which still hold them. *)
Theorem prune_returns_stale_entries :
  let first := pruneLoops firstRead twoReads in
  let second := pruneLoops secondRead first.2 in
  getMap first.2 (people secondRead) = {[ "bob" := 0%Z ]}
  ∧ getMap first.2 (tags secondRead) = ∅
  ∧ second.1.2 = true
  ∧ getMap second.2 (people second.1.1) = {[ "bob" := 1%Z ]}
  ∧ getMap second.2 (tags second.1.1) = {[ "red" := 2%Z ]}
  ∧ positiveEntries (getMap first.2 (people secondRead)) = ∅
  ∧ positiveEntries (getMap first.2 (tags secondRead)) = ∅.
Proof. vm_compute. done. Qed.

(** ** The handlers, for any client *)

Section HandlerProperties.
Context {S : Type} `{!DocumentClient S}.
Implicit Types (w : World S) (indexObject : IIndex).

Lemma getIndexTableName_configured w name :
  configured w name → getIndexTableName w = (Resolved name, w).
Proof.
  intros [Henv Hname]. unfold getIndexTableName. rewrite Henv.
  by rewrite decide_False.
Qed.

Lemma getIndexTableName_unset w :
  DYNAMODB_TABLE_INDEXES w = None → getIndexTableName w = (Rejected noTableError, w).
Proof. intros Henv. unfold getIndexTableName. by rewrite Henv. Qed.

Lemma send_unfold {A} (c : Call) (op : S → (JsError + A) * S) w :
  send c op w
  = (match (op (table w)).1 with
     | inl e => Rejected e
     | inr a => Resolved a
     end, afterCall c (op (table w)).2 w).
Proof. unfold send. by destruct (op (table w)).1. Qed.

Lemma updateCleanIndexes_configured w name indexObject :
  configured w name →
  updateCleanIndexes indexObject w
  = dynamodb_batchWrite (cleanIndexesParams name (objects w) indexObject) w.
Proof.
  intros Hname. unfold updateCleanIndexes; open_bind.
  by rewrite (getIndexTableName_configured w name).
Qed.

(** [cleanZeroIndexes] is its two loops, then the write when the flag is
    raised. *)
Lemma cleanZeroIndexes_unfold indexObject w :
  let r := pruneLoops indexObject (objects w) in
  cleanZeroIndexes indexObject w
  = if r.1.2 then
      andThen (updateCleanIndexes r.1.1) (λ _, resolve r.1.1)
        (withObjects r.2 w)
    else (Resolved r.1.1, withObjects r.2 w).
Proof.
  unfold cleanZeroIndexes, mbind, M_bind, andThen, onHeap. cbv zeta.
  destruct (pruneLoops indexObject (objects w)) as [[c u] h']. simpl.
  by destruct u.
Qed.

(** Whatever becomes of the write, the heap after [cleanZeroIndexes] is the
    heap the loops leave. *)
Lemma cleanZeroIndexes_objects indexObject w :
  objects (cleanZeroIndexes indexObject w).2
  = (pruneLoops indexObject (objects w)).2.
Proof.
  rewrite cleanZeroIndexes_unfold. cbv zeta.
  destruct (pruneLoops indexObject (objects w)) as [[c u] h']. simpl.
  destruct u; [|done].
  unfold andThen, updateCleanIndexes, mbind, M_bind, andThen, getIndexTableName.
  simpl. destruct (DYNAMODB_TABLE_INDEXES w) as [name|]; [|done].
  case_decide; [done|]. unfold resolve, getHeap, dynamodb_batchWrite.
  rewrite send_unfold. simpl.
  by destruct (ddb_batchWrite _ (table w)).1.
Qed.

Lemma cleanZeroIndexes_result indexObject w cleaned :
  (cleanZeroIndexes indexObject w).1 = Resolved cleaned → cleaned = defaultIndex.
Proof.
  rewrite cleanZeroIndexes_unfold. cbv zeta.
  destruct (pruneLoops_spec indexObject (objects w)) as (Hc & _).
  destruct (pruneLoops indexObject (objects w)) as [[c u] h']. simpl in *.
  subst c. destruct u; [|by intros [= <-]].
  unfold andThen.
  destruct (updateCleanIndexes defaultIndex (withObjects h' w)) as [[a|e] w'];
    simpl; [by intros [= <-]|done].
Qed.

(** When [cleanZeroIndexes] writes, for every index it is given, with the
    table name set: when the loops dropped no entry, the cleaned index is
    returned and no request is sent; when they dropped one, exactly one batch
    write is sent, with one PutRequest per slot holding the whole map the
    loops left for that slot, and the cleaned index is returned once that
    write has succeeded.  What those maps hold is the matter of
    [pruneLoops_spec]. *)
Theorem reconcile_writes_iff_dropped indexObject w name :
  configured w name →
  tags indexObject ≠ people defaultIndex →
  let pruned := pruneLoops indexObject (objects w) in
  let cleaned := pruned.1.1 in
  let changed := pruned.1.2 in
  let w1 := withObjects pruned.2 w in
  let request :=
    {| bw_RequestItems :=
         [(name,
           [PutRequest {| item_id := "tags";
                          item_indexKeys := Some (getMap pruned.2 (tags cleaned));
                          item_updatedAt := None |};
            PutRequest {| item_id := "people";
                          item_indexKeys :=
                            Some (getMap pruned.2 (people cleaned));
                          item_updatedAt := None |}])] |} in
  let answer := ddb_batchWrite request (table w) in
  changed = hasDropped (getMap (objects w) (people indexObject))
            || hasDropped (getMap (objects w) (tags indexObject))
  ∧ (changed = false →
       cleanZeroIndexes indexObject w = (Resolved cleaned, w1)
       ∧ calls w1 = calls w ∧ table w1 = table w)
  ∧ (changed = true →
       cleanZeroIndexes indexObject w
       = (match answer.1 with
          | inl e => Rejected e
          | inr _ => Resolved cleaned
          end,
          afterCall (CallBatchWrite request) answer.2 w1)).
Proof.
  intros Hname Hcross. cbv zeta.
  destruct (pruneLoops_spec indexObject (objects w)) as (_ & _ & _ & Hflag).
  destruct (Hflag Hcross) as [_ Hchanged]. split; [done|].
  rewrite cleanZeroIndexes_unfold. cbv zeta.
  destruct (pruneLoops indexObject (objects w)) as [[c u] h']. simpl.
  split; intros ->; [done|].
  unfold andThen.
  rewrite (updateCleanIndexes_configured _ name) by done.
  unfold dynamodb_batchWrite. rewrite send_unfold. simpl.
  unfold cleanIndexesParams, TAGS_ID, PEOPLE_ID.
  by destruct (ddb_batchWrite _ (table w)).1.
Qed.

(** Without a table name the write is not sent and [cleanZeroIndexes] fails,
    after the loops have run. *)
Lemma cleanZeroIndexes_unset indexObject w :
  DYNAMODB_TABLE_INDEXES w = None →
  (pruneLoops indexObject (objects w)).1.2 = true →
  cleanZeroIndexes indexObject w
  = (Rejected noTableError,
     withObjects (pruneLoops indexObject (objects w)).2 w).
Proof.
  intros Henv Hchanged. rewrite cleanZeroIndexes_unfold. cbv zeta.
  rewrite Hchanged. unfold andThen, updateCleanIndexes; open_bind.
  by rewrite getIndexTableName_unset.
Qed.

End HandlerProperties.

Lemma reconcile_writes_iff_dropped_witness :
  let w := freshWorld testObjects emptyDb in
  let pruned := pruneLoops testIndex (objects w) in
  configured w "indexes"
  ∧ tags testIndex ≠ people defaultIndex
  ∧ pruned.1.2 = true
  ∧ (cleanZeroIndexes testIndex w).1 = Resolved defaultIndex
  ∧ calls (cleanZeroIndexes testIndex w).2
    = [CallBatchWrite
         {| bw_RequestItems :=
              [("indexes",
                [PutRequest {| item_id := "tags"; item_indexKeys := Some ∅;
                               item_updatedAt := None |};
                 PutRequest {| item_id := "people";
                               item_indexKeys := Some {[ "bob" := 1%Z ]};
                               item_updatedAt := None |}])] |}].
Proof.
  assert (configured (freshWorld testObjects emptyDb) "indexes") as Hname.
  { split; [reflexivity|discriminate]. }
  assert (tags testIndex ≠ people defaultIndex) as Hcross by discriminate.
  destruct (reconcile_writes_iff_dropped (S := DynamoDb.Db) testIndex
              (freshWorld testObjects emptyDb) "indexes" Hname Hcross)
    as (_ & _ & Hwrite).
  cbv zeta. split; [exact Hname|]. split; [exact Hcross|].
  split; [vm_compute; reflexivity|].
  rewrite Hwrite by (vm_compute; reflexivity).
  split; vm_compute; reflexivity.
Defined.

(** C3 (the code departs from the claim): reconcile is to persist the
    pruned snapshot of its input, one PutRequest per slot with that slot's
    pruned map.  In a process that has already pruned an index where bob
    counted 1 and red counted 2, [cleanZeroIndexes] of an index where bob
    counts 0 and no tag is left does send one batch write and resolves, but
    the PutRequests carry bob with his old count and red with its old count,
    and the table then holds them; the pruned input has no entry in either
    slot. *)
Theorem reconcile_persists_stale_entries :
  let r := cleanZeroIndexes secondRead afterFirstRead in
  getMap (objects afterFirstRead) (people secondRead) = {[ "bob" := 0%Z ]}
  ∧ getMap (objects afterFirstRead) (tags secondRead) = ∅
  ∧ positiveEntries (getMap (objects afterFirstRead) (people secondRead)) = ∅
  ∧ positiveEntries (getMap (objects afterFirstRead) (tags secondRead)) = ∅
  ∧ r.1 = Resolved defaultIndex
  ∧ calls r.2
    = [CallBatchWrite
         {| bw_RequestItems :=
              [("indexes",
                [PutRequest {| item_id := "tags";
                               item_indexKeys := Some {[ "red" := 2%Z ]};
                               item_updatedAt := None |};
                 PutRequest {| item_id := "people";
                               item_indexKeys := Some {[ "bob" := 1%Z ]};
                               item_updatedAt := None |}])] |}]
  ∧ DynamoDb.db_items (table r.2) !! "people" ≫= item_indexKeys
    = Some {[ "bob" := 1%Z ]}
  ∧ DynamoDb.db_items (table r.2) !! "tags" ≫= item_indexKeys
    = Some {[ "red" := 2%Z ]}.
Proof. vm_compute. done. Qed.

(** ** The shared maps of [defaultIndex] *)

Lemma getMap_freshLoc h : getMap h (freshLoc h) = ∅.
Proof.
  unfold getMap, freshLoc.
  set (X := {[loc_defaultPeople; loc_defaultTags]} ∪ dom h).
  pose proof (is_fresh X) as Hfresh.
  assert (h !! fresh X = None) as Hnone.
  { apply not_elem_of_dom. intros Hin. apply Hfresh. subst X. set_solver. }
  by rewrite lookup_total_alt, Hnone.
Qed.

Lemma freshLoc_not_default h :
  freshLoc h ≠ loc_defaultPeople ∧ freshLoc h ≠ loc_defaultTags.
Proof.
  unfold freshLoc.
  set (X := {[loc_defaultPeople; loc_defaultTags]} ∪ dom h).
  pose proof (is_fresh X) as Hfresh.
  split; intros Heq; apply Hfresh; rewrite Heq; subst X; set_solver.
Qed.

Lemma positiveEntries_empty : positiveEntries ∅ = ∅.
Proof. unfold positiveEntries. apply map_filter_empty. Qed.

Section SharedMaps.
Context {S : Type} `{!DocumentClient S}.
Implicit Types (w : World S) (indexObject : IIndex).

Lemma cleanZeroIndexes_environment indexObject w :
  DYNAMODB_TABLE_INDEXES (cleanZeroIndexes indexObject w).2
  = DYNAMODB_TABLE_INDEXES w.
Proof.
  rewrite cleanZeroIndexes_unfold. cbv zeta.
  destruct (pruneLoops indexObject (objects w)) as [[c u] h']. simpl.
  destruct u; [|done].
  unfold andThen, updateCleanIndexes, mbind, M_bind, andThen, getIndexTableName.
  simpl. destruct (DYNAMODB_TABLE_INDEXES w) as [name|] eqn:Henv; [|done].
  case_decide; [done|]. unfold resolve, getHeap, dynamodb_batchWrite.
  rewrite send_unfold. simpl.
  by destruct (ddb_batchWrite _ (table w)).1.
Qed.

(** A batch-read answer without [Responses] decodes to [defaultIndex]
    itself. *)
Lemma parseIndexesObject_no_responses w :
  parseIndexesObject {| Responses := None |} w = (Resolved defaultIndex, w).
Proof. done. Qed.

Lemma findRecord_configured w name responses items slot :
  configured w name →
  tableItems responses name = Some items →
  findRecord responses slot w
  = (Resolved (find (λ response, bool_decide (obj_id response = slot)) items), w).
Proof.
  intros Hname Hitems. unfold findRecord; open_bind.
  rewrite (getIndexTableName_configured w name) by done. by rewrite Hitems.
Qed.

(** With the table name set and the table listed in the answer, each slot is
    the [indexKeys] object of the first record of that slot, or the map of
    [defaultIndex] when there is no such record or it has no [indexKeys]. *)
Lemma parseIndexesObject_configured w name responses items :
  configured w name →
  tableItems responses name = Some items →
  parseIndexesObject {| Responses := Some responses |} w
  = (Resolved
       {| people :=
            indexKeysOr
              (find (λ response, bool_decide (obj_id response = PEOPLE_ID)) items)
              (people defaultIndex);
          tags :=
            indexKeysOr
              (find (λ response, bool_decide (obj_id response = TAGS_ID)) items)
              (tags defaultIndex) |}, w).
Proof.
  intros Hname Hitems. unfold parseIndexesObject; open_bind.
  cbn [Responses].
  rewrite (findRecord_configured w name responses items TAGS_ID) by done.
  by rewrite (findRecord_configured w name responses items PEOPLE_ID).
Qed.

(** An entry a loop keeps is a positive entry of its input. *)
Lemma keptEntries_None old m k :
  positiveEntries m !! k = None → keptEntries old m !! k = None.
Proof.
  rewrite lookup_positiveEntries, lookup_keptEntries.
  destruct (m !! k) as [v|]; [|done].
  destruct (decide (0 < v)%Z) as [Hv|Hv]; [done|]. intros _.
  rewrite decide_False; [done|]. tauto.
Qed.

(** C9: the cleaned index of [cleanZeroIndexes] is made of the two map
    objects of the module-level [defaultIndex].  Every call writes the
    entries it keeps into those maps, on top of what they hold: the positive
    entries of its input, but for one under ["__proto__"], which the
    assignment does not store.  A later [cleanZeroIndexes] returns such an
    entry unless its own input overwrites it, and a later
    [parseIndexesObject] that finds no records returns [defaultIndex] with
    the entries in it.  The result is the positive entries of the input, for
    every input without an entry under ["__proto__"], exactly when both maps
    of [defaultIndex] are still empty. *)
Theorem cleaned_index_is_defaultIndex indexObject w :
  let r := cleanZeroIndexes indexObject w in
  let h := objects w in
  let h' := objects r.2 in
  (∀ cleaned, r.1 = Resolved cleaned →
     people cleaned = people defaultIndex ∧ tags cleaned = tags defaultIndex)
  ∧ getMap h' (people defaultIndex)
    = keptEntries (getMap h (people defaultIndex))
        (getMap h (people indexObject))
      ∪ getMap h (people defaultIndex)
  ∧ (tags indexObject ≠ people defaultIndex →
       getMap h' (tags defaultIndex)
       = keptEntries (getMap h (tags defaultIndex))
           (getMap h (tags indexObject))
         ∪ getMap h (tags defaultIndex))
  ∧ (∀ later k v,
       getMap h' (people defaultIndex) !! k = Some v →
       positiveEntries (getMap h' (people later)) !! k = None →
       getMap (objects (cleanZeroIndexes later r.2).2) (people defaultIndex) !! k
       = Some v)
  ∧ (∀ later k v,
       tags later ≠ people defaultIndex →
       getMap h' (tags defaultIndex) !! k = Some v →
       positiveEntries (getMap h' (tags later)) !! k = None →
       getMap (objects (cleanZeroIndexes later r.2).2) (tags defaultIndex) !! k
       = Some v)
  ∧ (∀ response name,
       Responses response = None
       ∨ (configured w name ∧ Responses response = Some [(name, [])]) →
       parseIndexesObject response r.2 = (Resolved defaultIndex, r.2))
  ∧ ((∀ input,
        tags input ≠ people defaultIndex →
        getMap h (people input) !! "__proto__" = None →
        getMap h (tags input) !! "__proto__" = None →
        let r' := cleanZeroIndexes input w in
        getMap (objects r'.2) (people defaultIndex)
        = positiveEntries (getMap h (people input))
        ∧ getMap (objects r'.2) (tags defaultIndex)
          = positiveEntries (getMap h (tags input)))
     ↔ getMap h (people defaultIndex) = ∅ ∧ getMap h (tags defaultIndex) = ∅).
Proof.
  cbv zeta. cbn [people tags defaultIndex].
  rewrite cleanZeroIndexes_objects.
  destruct (pruneLoops_spec indexObject (objects w)) as (_ & Hp & _ & Ht).
  split.
  { intros cleaned Hc. by rewrite (cleanZeroIndexes_result _ _ _ Hc). }
  split; [done|]. split; [intros Hcross; by destruct (Ht Hcross)|].
  split.
  { intros later k v Hk Hlater. rewrite cleanZeroIndexes_objects.
    destruct (pruneLoops_spec later (objects (cleanZeroIndexes indexObject w).2))
      as (_ & Hp' & _).
    rewrite Hp', cleanZeroIndexes_objects, lookup_union.
    rewrite (keptEntries_None _ _ _ Hlater).
    by rewrite (left_id_L None _). }
  split.
  { intros later k v Hcross Hk Hlater. rewrite cleanZeroIndexes_objects.
    destruct (pruneLoops_spec later (objects (cleanZeroIndexes indexObject w).2))
      as (_ & _ & _ & Ht').
    destruct (Ht' Hcross) as [Ht'' _].
    rewrite Ht'', cleanZeroIndexes_objects, lookup_union.
    rewrite (keptEntries_None _ _ _ Hlater).
    by rewrite (left_id_L None _). }
  split.
  { intros [responses] name [Hnone|[[Henv Hname] Hsome]]; simpl in *; subst.
    - done.
    - rewrite (parseIndexesObject_configured _ name _ []).
      + done.
      + split; [|done]. by rewrite cleanZeroIndexes_environment.
      + simpl. by rewrite decide_True. }
  split.
  - intros Hall.
    pose proof (getMap_freshLoc (objects w)) as Hempty.
    destruct (freshLoc_not_default (objects w)) as [Hfp _].
    specialize (Hall {| people := freshLoc (objects w);
                        tags := freshLoc (objects w) |} Hfp).
    cbn [people tags] in Hall. rewrite Hempty in Hall.
    specialize (Hall (lookup_empty _) (lookup_empty _)).
    cbv zeta in Hall. rewrite cleanZeroIndexes_objects in Hall.
    destruct (pruneLoops_spec {| people := freshLoc (objects w);
                                 tags := freshLoc (objects w) |} (objects w))
      as (_ & Hp' & _ & Ht').
    destruct (Ht' Hfp) as [Ht'' _]. cbn [people tags] in *.
    rewrite Hp', Ht'', Hempty in Hall.
    rewrite !keptEntries_positive, positiveEntries_empty,
      !(left_id_L ∅ (∪)) in Hall by apply lookup_empty.
    done.
  - intros [Hpe Hte] input Hcross Hnp Hnt. rewrite cleanZeroIndexes_objects.
    destruct (pruneLoops_spec input (objects w)) as (_ & Hp' & _ & Ht').
    destruct (Ht' Hcross) as [Ht'' _].
    rewrite Hp', Ht'', Hpe, Hte, !(right_id_L ∅ (∪)).
    by rewrite !keptEntries_positive.
Qed.

End SharedMaps.

(** ** Decoding a batch-read answer *)

Section Decode.
Context {S : Type} `{!DocumentClient S}.
Implicit Types (w : World S).

(** In a process that has retained nothing yet, [parseIndexesObject] does
    what the specification asks of decode: the map of the slot's record, or
    no entries. *)
Lemma parseIndexesObject_first_call w name responses items :
  configured w name →
  tableItems responses name = Some items →
  getMap (objects w) (people defaultIndex) = ∅ →
  getMap (objects w) (tags defaultIndex) = ∅ →
  ∃ indexes,
    parseIndexesObject {| Responses := Some responses |} w
    = (Resolved indexes, w)
    ∧ getMap (objects w) (people indexes)
      = match find (λ r, bool_decide (obj_id r = PEOPLE_ID)) items
              ≫= obj_indexKeys with
        | Some l => getMap (objects w) l
        | None => ∅
        end
    ∧ getMap (objects w) (tags indexes)
      = match find (λ r, bool_decide (obj_id r = TAGS_ID)) items
              ≫= obj_indexKeys with
        | Some l => getMap (objects w) l
        | None => ∅
        end.
Proof.
  intros Hname Hitems Hp Ht. eexists. split.
  - by apply (parseIndexesObject_configured w name responses items).
  - cbn [people tags]. unfold indexKeysOr. split.
    + destruct (find _ items) as [r|]; [|done]. simpl.
      by destruct (obj_indexKeys r).
    + destruct (find (λ r, bool_decide (obj_id r = TAGS_ID)) items) as [r|];
        [|done]. simpl. by destruct (obj_indexKeys r).
Qed.

(** The table name is read only when the answer has [Responses]; then a
    missing name makes the decoding fail. *)
Lemma parseIndexesObject_unset w responses :
  DYNAMODB_TABLE_INDEXES w = None →
  parseIndexesObject {| Responses := Some responses |} w
  = (Rejected noTableError, w).
Proof.
  intros Henv. unfold parseIndexesObject, findRecord; open_bind.
  cbn [Responses]. by rewrite getIndexTableName_unset.
Qed.

End Decode.

(** The decode scenario of the specification, in a process that has just
    loaded the module. *)
Example parseIndexesObject_scenario :
  let w := freshWorld tagsOnlyObjects emptyDb in
  ∃ indexes,
    parseIndexesObject tagsOnly w = (Resolved indexes, w)
    ∧ getMap (objects w) (people indexes) = ∅
    ∧ getMap (objects w) (tags indexes) = {[ "red" := 2%Z ]}.
Proof.
  exists {| people := people defaultIndex; tags := 3%positive |}.
  vm_compute. done.
Qed.

(** C5 (the code departs from the claim): a slot without a record is to
    decode to the empty mapping.  In the process that has pruned an index
    with bob counted 1 and red counted 2, an answer that holds no record at
    all decodes to [defaultIndex], whose maps still hold bob and red. *)
Theorem decode_returns_stale_entries :
  ∃ indexes,
    parseIndexesObject noRecords afterFirstRead
    = (Resolved indexes, afterFirstRead)
    ∧ getMap (objects afterFirstRead) (people indexes) = {[ "bob" := 1%Z ]}
    ∧ getMap (objects afterFirstRead) (tags indexes) = {[ "red" := 2%Z ]}.
Proof. exists defaultIndex. vm_compute. done. Qed.

(** ** Building and sending an increment *)

Lemma elem_of_validKeysOf indexData k :
  k ∈ validKeysOf indexData ↔ k ∈ indexData.*1 ∧ is_Some (getProp indexData k).
Proof. unfold validKeysOf. rewrite list_elem_of_filter. tauto. Qed.

Lemma getProp_Some_elem indexData k n :
  getProp indexData k = Some n → (k, Some n) ∈ indexData.
Proof.
  induction indexData as [|[k' v] rest IH]; simpl; [done|].
  case_decide as Hk.
  - intros ->. subst k'. apply elem_of_cons. by left.
  - intros Hrest. apply elem_of_cons. right. by apply IH.
Qed.

Lemma getProp_NoDup indexData k v :
  NoDup indexData.*1 → (k, v) ∈ indexData → getProp indexData k = v.
Proof.
  induction indexData as [|[k' v'] rest IH]; simpl.
  - intros _ Hin. by apply elem_of_nil in Hin.
  - intros [Hfresh Hnodup]%NoDup_cons Hin. apply elem_of_cons in Hin.
    destruct Hin as [[= -> ->]|Hin].
    + by rewrite decide_True.
    + rewrite decide_False; [by apply IH|]. intros ->. apply Hfresh.
      apply list_elem_of_fmap. by exists (k, v).
Qed.

Lemma validKeysOf_NoDup indexData :
  NoDup indexData.*1 → NoDup (validKeysOf indexData).
Proof. intros Hnodup. unfold validKeysOf. by apply NoDup_filter. Qed.

Lemma validKeysOf_undefined k : validKeysOf [(k, None)] = [].
Proof.
  unfold validKeysOf. cbn [fmap list_fmap fst].
  rewrite filter_cons_False; [done|].
  intros [n Hn]. simpl in Hn. by rewrite decide_True in Hn.
Qed.

Section Increment.
Context {S : Type} `{!DocumentClient S}.
Implicit Types (w : World S).

Lemma getDynamoDbUpdateItemParams_null indexId indexData w :
  validKeysOf indexData = [] →
  getDynamoDbUpdateItemParams indexId (Some indexData) w = (Resolved None, w).
Proof.
  intros Hkeys. unfold getDynamoDbUpdateItemParams; open_bind.
  cbn [Date_now]. by rewrite Hkeys.
Qed.

Lemma getDynamoDbUpdateItemParams_undefined indexId w :
  getDynamoDbUpdateItemParams indexId None w
  = (Rejected (typeError "Cannot convert undefined or null to object"), w).
Proof. done. Qed.

(** [updateAndHandleEmptyMap], case by case on the answers of the client. *)
Lemma updateAndHandleEmptyMap_unfold ddbParams w :
  let first := ddb_update ddbParams (table w) in
  let w1 := afterCall (CallUpdate ddbParams) first.2 w in
  let init := ddb_update (setMapParams ddbParams) (table w1) in
  let w2 := afterCall (CallUpdate (setMapParams ddbParams)) init.2 w1 in
  let retry := ddb_update ddbParams (table w2) in
  let w3 := afterCall (CallUpdate ddbParams) retry.2 w2 in
  updateAndHandleEmptyMap ddbParams w
  = match first.1 with
    | inr output => (Resolved output, w1)
    | inl e =>
        if isMissingPath e then
          match init.1 with
          | inr _ =>
              (match retry.1 with
               | inr output => Resolved output
               | inl e' => Rejected e'
               end, w3)
          | inl e' => (Rejected e', w2)
          end
        else (Rejected e, w1)
    end.
Proof.
  cbv zeta. unfold updateAndHandleEmptyMap, catch, dynamodb_update.
  rewrite send_unfold.
  destruct (ddb_update ddbParams (table w)) as [[e|output] s1]; [|done].
  cbn [fst snd]. destruct (isMissingPath e); [|done].
  unfold mbind, M_bind, andThen. rewrite send_unfold.
  destruct (ddb_update (setMapParams ddbParams) _) as [[e'|output'] s2];
    [done|].
  cbn [fst snd]. by rewrite send_unfold.
Qed.

(** C8: when the increment fails with anything but the missing-path error
    (code ValidationException with the exact invalid-document-path message),
    no further request is sent, neither the bootstrap write nor a retry, and
    the very same error is rejected to the caller. *)
Theorem other_failure_is_rejected_at_once ddbParams w e :
  (ddb_update ddbParams (table w)).1 = inl e →
  ¬ (err_code e = Some "ValidationException"
     ∧ err_message e
       = "The document path provided in the update expression is invalid for update") →
  let r := updateAndHandleEmptyMap ddbParams w in
  r.1 = Rejected e
  ∧ calls r.2 = calls w ++ [CallUpdate ddbParams]
  ∧ table r.2 = (ddb_update ddbParams (table w)).2
  ∧ objects r.2 = objects w.
Proof.
  intros Hfirst Hother. cbv zeta. rewrite updateAndHandleEmptyMap_unfold.
  cbv zeta. rewrite Hfirst.
  assert (isMissingPath e = false) as ->; [|done].
  unfold isMissingPath, MISSING_PATH_MESSAGE.
  apply not_true_iff_false. rewrite andb_true_iff, !bool_decide_eq_true.
  done.
Qed.

End Increment.

Lemma other_failure_is_rejected_at_once_witness :
  let w := freshWorld [] ([inl throttled] : Scripted.Script) in
  (ddb_update incrementRed (table w)).1 = inl throttled
  ∧ ¬ (err_code throttled = Some "ValidationException"
       ∧ err_message throttled
         = "The document path provided in the update expression is invalid for update")
  ∧ (updateAndHandleEmptyMap incrementRed w).1 = Rejected throttled
  ∧ calls (updateAndHandleEmptyMap incrementRed w).2 = [CallUpdate incrementRed].
Proof.
  set (w := freshWorld [] ([inl throttled] : Scripted.Script)).
  assert ((ddb_update incrementRed (table w)).1 = inl throttled) as Hfirst
    by reflexivity.
  assert (¬ (err_code throttled = Some "ValidationException"
             ∧ err_message throttled
               = "The document path provided in the update expression is invalid for update"))
    as Hother by (intros [Hcode _]; discriminate Hcode).
  destruct (other_failure_is_rejected_at_once incrementRed w throttled
              Hfirst Hother) as (Hr & Hcalls & _).
  split; [exact Hfirst|]. split; [exact Hother|].
  split; [exact Hr|exact Hcalls].
Defined.

(** The request of the examples is the one the code builds. *)
Example incrementRed_built :
  getDynamoDbUpdateItemParams "tags" (Some [("red", Some 1%Z)])
    (freshWorld [] emptyDb)
  = (Resolved (Some incrementRed), freshWorld [] emptyDb).
Proof. vm_compute. reflexivity. Qed.

(** C1 (the code departs from the claim): after the missing-path error the
    bootstrap write is sent, and the increment is to be retried once whether
    that write succeeds or finds the mapping already there.  When another
    process creates the mapping first, the bootstrap write of this one fails
    its [attribute_not_exists] condition; the code then rejects with that
    failure and never sends the increment again: two requests in all, and
    red is not counted. *)
Theorem bootstrap_loser_does_not_retry :
  let r := updateAndHandleEmptyMap incrementRed racing in
  (ddb_update incrementRed (table racing)).1
  = inl (DynamoDb.validation MISSING_PATH_MESSAGE)
  ∧ r.1 = Rejected DynamoDb.conditionalCheckFailed
  ∧ calls r.2 = [CallUpdate incrementRed; CallUpdate (setMapParams incrementRed)]
  ∧ DynamoDb.db_items (DynamoDb.shared_db (table r.2))
    = {[ "tags" := {| item_id := "tags"; item_indexKeys := Some ∅;
                      item_updatedAt := None |} ]}.
Proof. vm_compute. done. Qed.

(** When the bootstrap write succeeds, the increment is sent once more and
    its outcome is the outcome of [updateAndHandleEmptyMap]; when it fails,
    for whatever reason, its error is and nothing more is sent. *)
Lemma updateAndHandleEmptyMap_bootstrap {S} `{!DocumentClient S}
    ddbParams (w : World S) e :
  (ddb_update ddbParams (table w)).1 = inl e →
  isMissingPath e = true →
  let w1 := afterCall (CallUpdate ddbParams) (ddb_update ddbParams (table w)).2 w in
  let init := ddb_update (setMapParams ddbParams) (table w1) in
  let w2 := afterCall (CallUpdate (setMapParams ddbParams)) init.2 w1 in
  let r := updateAndHandleEmptyMap ddbParams w in
  (∀ output, init.1 = inr output →
     calls r.2
     = calls w ++ [CallUpdate ddbParams; CallUpdate (setMapParams ddbParams);
                   CallUpdate ddbParams]
     ∧ r.1 = match (ddb_update ddbParams (table w2)).1 with
             | inr output => Resolved output
             | inl e' => Rejected e'
             end)
  ∧ (∀ e', init.1 = inl e' →
       calls r.2
       = calls w ++ [CallUpdate ddbParams; CallUpdate (setMapParams ddbParams)]
       ∧ r.1 = Rejected e').
Proof.
  intros Hfirst Hmissing. cbv zeta. rewrite updateAndHandleEmptyMap_unfold.
  cbv zeta. rewrite Hfirst, Hmissing. split.
  - intros output ->. cbn [fst snd calls afterCall].
    by rewrite <- !app_assoc.
  - intros e' ->. cbn [fst snd calls afterCall]. by rewrite <- !app_assoc.
Qed.

(** The bootstrap scenario of the specification: the first increment of a
    slot that has no record fails once, the mapping is created, and the retry
    leaves exactly the requested delta. *)
Example bootstrap_scenario :
  let r := updateAndHandleEmptyMap incrementRed (freshWorld [] emptyDb) in
  calls r.2
  = [CallUpdate incrementRed; CallUpdate (setMapParams incrementRed);
     CallUpdate incrementRed]
  ∧ r.1 = Resolved
            {| Attributes :=
                 Some {| item_id := "tags";
                         item_indexKeys := Some {[ "red" := 1%Z ]};
                         item_updatedAt := Some 1000%Z |} |}.
Proof. vm_compute. done. Qed.

(** ** The write handler *)

Section PutItem.
Context {S : Type} `{!DocumentClient S}.
Implicit Types (w : World S).

(** [putItem] on a request that carries both delta mappings. *)
Lemma putItem_unfold event requestBody u w :
  body_json event = inr requestBody →
  indexUpdate requestBody = Some u →
  let tagsRun := updateIndexRecord TAGS_ID (update_tags u) w in
  let peopleRun := updateIndexRecord PEOPLE_ID (update_people u) tagsRun.2 in
  putItem event w
  = match tagsRun.1 with
    | Rejected e => (failure e, tagsRun.2)
    | Resolved tagsResponse =>
        match peopleRun.1 with
        | Rejected e => (failure e, peopleRun.2)
        | Resolved peopleResponse =>
            (success {| put_eventBody := body event;
                        put_requestBody := requestBody;
                        tagsUpdateResponse := tagsResponse;
                        peopleUpdateResponse := peopleResponse |},
             peopleRun.2)
        end
    end.
Proof.
  intros Hjson Hupdate. cbv zeta.
  unfold putItem, readIndexUpdate; open_bind.
  rewrite Hjson. cbn [mret M_ret resolve]. rewrite Hupdate.
  unfold mret, M_ret, resolve.
  destruct (updateIndexRecord TAGS_ID (update_tags u) w) as [[t|e] w1];
    [|done].
  cbn [fst snd].
  by destruct (updateIndexRecord PEOPLE_ID (update_people u) w1) as [[p|e] w2].
Qed.

(** C6, as the code has it: a slot whose delta mapping is given and holds
    no valid key is skipped, with no request sent for it, and the response is
    the success envelope with the skipped marker for that slot unless the
    update of the other slot fails.  A slot whose delta mapping is left out
    is not skipped: [Object.keys] throws and the response is the failure
    envelope. *)
Theorem slot_without_valid_keys_is_skipped event requestBody u w :
  body_json event = inr requestBody →
  indexUpdate requestBody = Some u →
  (∀ tagsData,
     update_tags u = Some tagsData → validKeysOf tagsData = [] →
     updateIndexRecord TAGS_ID (update_tags u) w = (Resolved None, w)
     ∧ putItem event w
       = let peopleRun := updateIndexRecord PEOPLE_ID (update_people u) w in
         match peopleRun.1 with
         | Rejected e => (failure e, peopleRun.2)
         | Resolved peopleResponse =>
             (success {| put_eventBody := body event;
                         put_requestBody := requestBody;
                         tagsUpdateResponse := None;
                         peopleUpdateResponse := peopleResponse |},
              peopleRun.2)
         end)
  ∧ (∀ peopleData,
       update_people u = Some peopleData → validKeysOf peopleData = [] →
       (∀ w', updateIndexRecord PEOPLE_ID (update_people u) w'
              = (Resolved None, w'))
       ∧ putItem event w
         = let tagsRun := updateIndexRecord TAGS_ID (update_tags u) w in
           match tagsRun.1 with
           | Rejected e => (failure e, tagsRun.2)
           | Resolved tagsResponse =>
               (success {| put_eventBody := body event;
                           put_requestBody := requestBody;
                           tagsUpdateResponse := tagsResponse;
                           peopleUpdateResponse := None |},
                tagsRun.2)
           end)
  ∧ (update_tags u = None →
       putItem event w
       = (failure (typeError "Cannot convert undefined or null to object"), w))
  ∧ (update_people u = None →
       putItem event w
       = let tagsRun := updateIndexRecord TAGS_ID (update_tags u) w in
         match tagsRun.1 with
         | Rejected e => (failure e, tagsRun.2)
         | Resolved _ =>
             (failure (typeError "Cannot convert undefined or null to object"),
              tagsRun.2)
         end).
Proof.
  intros Hjson Hupdate.
  pose proof (putItem_unfold event requestBody u w Hjson Hupdate) as Hput.
  cbv zeta in Hput.
  assert (∀ indexId indexData w',
            validKeysOf indexData = [] →
            updateIndexRecord indexId (Some indexData) w' = (Resolved None, w'))
    as Hskip.
  { intros indexId indexData w' Hkeys.
    unfold updateIndexRecord; open_bind.
    by rewrite getDynamoDbUpdateItemParams_null. }
  split; [|split; [|split]].
  - intros tagsData Htags Hkeys. rewrite Htags in *.
    split; [by apply Hskip|].
    rewrite Hput, (Hskip _ _ _ Hkeys). cbv zeta. cbn [fst snd].
    by destruct (updateIndexRecord PEOPLE_ID (update_people u) w) as [[p|e] w2].
  - intros peopleData Hpeople Hkeys. rewrite Hpeople in *.
    split; [intros w'; by apply Hskip|].
    rewrite Hput. cbv zeta.
    destruct (updateIndexRecord TAGS_ID (update_tags u) w) as [[t|e] w1];
      [|done].
    cbn [fst snd]. by rewrite (Hskip _ _ _ Hkeys).
  - intros Htags. by rewrite Hput, Htags.
  - intros Hpeople. rewrite Hput, Hpeople. cbv zeta.
    by destruct (updateIndexRecord TAGS_ID (update_tags u) w) as [[t|e] w1].
Qed.

(** A slot whose delta mapping is missing makes [Object.keys] throw, for
    every client and in every world. *)
Lemma updateIndexRecord_undefined indexId w :
  updateIndexRecord indexId None w
  = (Rejected (typeError "Cannot convert undefined or null to object"), w).
Proof. done. Qed.

End PutItem.

Lemma slot_without_valid_keys_is_skipped_witness :
  let w := freshWorld [] emptyDb in
  let requestBody :=
    {| indexUpdate :=
         Some {| update_tags := Some []; update_people := Some [] |} |} in
  body_json bothEmpty = inr requestBody
  ∧ updateIndexRecord TAGS_ID (Some []) w = (Resolved None, w)
  ∧ putItem bothEmpty w
    = (success {| put_eventBody := body bothEmpty;
                  put_requestBody := requestBody;
                  tagsUpdateResponse := None;
                  peopleUpdateResponse := None |}, w).
Proof.
  cbv zeta. split; [reflexivity|].
  destruct (slot_without_valid_keys_is_skipped (S := DynamoDb.Db) bothEmpty
              {| indexUpdate :=
                   Some {| update_tags := Some []; update_people := Some [] |} |}
              {| update_tags := Some []; update_people := Some [] |}
              (freshWorld [] emptyDb) eq_refl eq_refl) as (Htags & _).
  destruct (Htags [] eq_refl eq_refl) as [Hskip Hput].
  split; [exact Hskip|]. rewrite Hput. reflexivity.
Defined.

(** C6 as stated fails: with the deltas of "tags" left out of the request,
    and nothing to do for "people", the response is the failure envelope. *)
Lemma omitted_slot_is_a_failure :
  putItem tagsOmitted (freshWorld [] emptyDb)
  = (failure (typeError "Cannot convert undefined or null to object"),
     freshWorld [] emptyDb).
Proof. vm_compute. reflexivity. Qed.

(** ** Reading the update expression of an increment *)

Lemma app_String c (a b : string) : String c a +:+ b = String c (a +:+ b).
Proof. reflexivity. Qed.

Lemma app_empty (b : string) : "" +:+ b = b.
Proof. reflexivity. Qed.

Lemma string_app_assoc (a b c : string) : (a +:+ b) +:+ c = a +:+ (b +:+ c).
Proof.
  induction a as [|x a IH]; [done|]. rewrite !app_String. by f_equal.
Qed.

Lemma string_app_empty_r (a : string) : a +:+ "" = a.
Proof. induction a as [|x a IH]; [done|]. rewrite app_String. by f_equal. Qed.

Lemma allDigits_uint d : allDigits (NilEmpty.string_of_uint d) = true.
Proof. induction d; simpl; done. Qed.

Lemma allDigits_decimal idx : allDigits (decimal idx) = true.
Proof. apply allDigits_uint. Qed.

Lemma allDigits_allWord s : allDigits s = true → allWord s = true.
Proof.
  induction s as [|c s IH]; simpl; [done|].
  intros [Hc Hs]%andb_true_iff. rewrite (IH Hs), andb_true_r.
  unfold DynamoDb.isWordChar. by rewrite Hc.
Qed.

Lemma allWord_decimal idx : allWord (decimal idx) = true.
Proof. apply allDigits_allWord, allDigits_decimal. Qed.

Lemma decimal_inj i j : decimal i = decimal j → i = j.
Proof.
  unfold decimal. intros Heq.
  assert (Some (Nat.to_uint i) = Some (Nat.to_uint j)) as [= Hu].
  { by rewrite <- !NilEmpty.usu, Heq. }
  by rewrite <- (Unsigned.of_to i), <- (Unsigned.of_to j), Hu.
Qed.

Lemma flush_app word ts ts' :
  DynamoDb.flush word (ts ++ ts') = DynamoDb.flush word ts ++ ts'.
Proof. by destruct word. Qed.

Lemma flush_started c word ts :
  DynamoDb.flush (String c EmptyString +:+ word) ts
  = DynamoDb.TWord (String c EmptyString +:+ word) :: ts.
Proof. reflexivity. Qed.

(** Reading a text in two parts: the first part leaves the tokens it
    completes and the word it has begun. *)
Lemma lexFrom_app s word rest :
  DynamoDb.lexFrom word (s +:+ rest)
  = (scan word s).1 ++ DynamoDb.lexFrom (scan word s).2 rest.
Proof.
  revert word. induction s as [|c s IH]; intros word; [done|].
  rewrite app_String. cbn [DynamoDb.lexFrom scan].
  destruct (DynamoDb.isWordChar c); [apply IH|].
  destruct (DynamoDb.isSpace c); cbn [fst snd].
  - by rewrite IH, flush_app.
  - by rewrite IH, <- flush_app.
Qed.

(** A word that goes on is read on. *)
Lemma lexFrom_word s word rest :
  allWord s = true →
  DynamoDb.lexFrom word (s +:+ rest) = DynamoDb.lexFrom (word +:+ s) rest.
Proof.
  revert word. induction s as [|c s IH]; intros word.
  - intros _. by rewrite app_empty, string_app_empty_r.
  - cbn [allWord]. intros [Hc Hs]%andb_true_iff.
    rewrite app_String. cbn [DynamoDb.lexFrom]. rewrite Hc, (IH _ Hs).
    by rewrite string_app_assoc.
Qed.

(** A word ends where the text breaks it. *)
Lemma lexFrom_break word rest :
  breaksWord rest = true →
  DynamoDb.lexFrom word rest
  = DynamoDb.flush word (DynamoDb.lexFrom EmptyString rest).
Proof.
  destruct rest as [|c rest]; cbn [breaksWord DynamoDb.lexFrom]; [done|].
  intros Hc%negb_true_iff. rewrite Hc.
  by destruct (DynamoDb.isSpace c).
Qed.

Lemma lexFrom_literal lit word rest :
  lit ≠ "" →
  breaksWord lit = true →
  DynamoDb.lexFrom word (lit +:+ rest)
  = DynamoDb.flush word
      ((scan EmptyString lit).1
       ++ DynamoDb.lexFrom (scan EmptyString lit).2 rest).
Proof.
  destruct lit as [|c lit]; [done|]. intros _ Hc%negb_true_iff.
  rewrite lexFrom_break.
  - by rewrite lexFrom_app.
  - rewrite app_String. cbn [breaksWord]. by rewrite Hc.
Qed.

Lemma scan_key_start :
  scan EmptyString "#indexKeysProp.#"
  = ([DynamoDb.TWord "#indexKeysProp"; DynamoDb.TDot], "#").
Proof. vm_compute. reflexivity. Qed.

Lemma scan_key_middle :
  scan EmptyString " = if_not_exists(#indexKeysProp.#"
  = ([DynamoDb.TEq; DynamoDb.TWord "if_not_exists"; DynamoDb.TOpen;
      DynamoDb.TWord "#indexKeysProp"; DynamoDb.TDot], "#").
Proof. vm_compute. reflexivity. Qed.

Lemma scan_key_end :
  scan EmptyString ",:zero) + :"
  = ([DynamoDb.TComma; DynamoDb.TWord ":zero"; DynamoDb.TClose;
      DynamoDb.TPlus], ":").
Proof. vm_compute. reflexivity. Qed.

(** The text of one key reads as its tokens. *)
Lemma lex_updateKeyValue idx rest :
  breaksWord rest = true →
  DynamoDb.lexFrom EmptyString (updateKeyValue idx +:+ rest)
  = keyTokens idx ++ DynamoDb.lexFrom EmptyString rest.
Proof.
  intros Hrest. unfold updateKeyValue, keyTokens.
  pose proof (allWord_decimal idx) as Hd. set (d := decimal idx) in *.
  rewrite !string_app_assoc.
  rewrite lexFrom_app, scan_key_start. cbn [fst snd].
  rewrite (lexFrom_word d) by done.
  rewrite (lexFrom_literal " = if_not_exists(#indexKeysProp.#") by done.
  rewrite scan_key_middle. cbn [fst snd].
  rewrite (lexFrom_word d) by done.
  rewrite (lexFrom_literal ",:zero) + :") by done.
  rewrite scan_key_end. cbn [fst snd].
  rewrite (lexFrom_word d) by done.
  rewrite (lexFrom_break _ rest) by done.
  reflexivity.
Qed.

(** The tokens of the keys [idxs], one comma between two keys. *)
Lemma lex_updateKeyValues idxs rest :
  idxs ≠ [] →
  breaksWord rest = true →
  DynamoDb.lexFrom EmptyString
    (String.concat ", " (updateKeyValue <$> idxs) +:+ rest)
  = clauseTokens idxs ++ DynamoDb.lexFrom EmptyString rest.
Proof.
  intros Hne Hrest. induction idxs as [|idx idxs IH]; [done|].
  destruct idxs as [|idx' idxs].
  - cbn [fmap list_fmap String.concat clauseTokens].
    by apply lex_updateKeyValue.
  - change (String.concat ", " (updateKeyValue <$> idx :: idx' :: idxs))
      with (updateKeyValue idx
            +:+ ", " +:+ String.concat ", " (updateKeyValue <$> idx' :: idxs)).
    rewrite !string_app_assoc.
    rewrite lex_updateKeyValue by done.
    rewrite (lexFrom_literal ", ") by done.
    change (scan EmptyString ", ") with ([DynamoDb.TComma], EmptyString).
    cbn [fst snd DynamoDb.flush]. rewrite IH by done.
    cbn [clauseTokens]. by rewrite <- app_assoc.
Qed.

Lemma lex_UpdateExpression idxs :
  idxs ≠ [] →
  DynamoDb.lex ("SET " +:+ String.concat ", " (updateKeyValue <$> idxs)
                +:+ ", updatedAt = :updatedAt")
  = DynamoDb.TWord "SET"
    :: clauseTokens idxs ++ DynamoDb.TComma :: updatedAtTokens.
Proof.
  intros Hne. unfold DynamoDb.lex. rewrite lexFrom_app.
  change (scan EmptyString "SET ") with ([DynamoDb.TWord "SET"], EmptyString).
  cbn [fst snd]. by rewrite lex_updateKeyValues.
Qed.

Lemma parseAction_key idx rest :
  DynamoDb.parseAction (keyTokens idx ++ DynamoDb.TComma :: rest)
  = Some (keyAction idx, DynamoDb.TComma :: rest).
Proof. reflexivity. Qed.

Lemma parseActions_keys idxs fuel :
  idxs ≠ [] →
  length idxs < fuel →
  DynamoDb.parseActions fuel
    (clauseTokens idxs ++ DynamoDb.TComma :: updatedAtTokens)
  = Some ((keyAction <$> idxs) ++ [updatedAtAction]).
Proof.
  intros Hne. revert fuel. induction idxs as [|idx idxs IH]; [done|].
  intros fuel Hfuel. destruct fuel as [|fuel]; [simpl in Hfuel; lia|].
  destruct idxs as [|idx' idxs].
  - cbn [clauseTokens DynamoDb.parseActions]. rewrite parseAction_key.
    destruct fuel as [|fuel]; [simpl in Hfuel; lia|]. reflexivity.
  - change (clauseTokens (idx :: idx' :: idxs))
      with (keyTokens idx ++ DynamoDb.TComma :: clauseTokens (idx' :: idxs)).
    rewrite <- app_assoc. cbn [DynamoDb.parseActions].
    rewrite <- app_comm_cons, parseAction_key.
    rewrite IH; [done|done|]. simpl in *. lia.
Qed.

Lemma clauseTokens_length idxs : length idxs ≤ length (clauseTokens idxs).
Proof.
  induction idxs as [|idx idxs IH]; [done|].
  destruct idxs as [|idx' idxs]; [simpl; lia|].
  change (clauseTokens (idx :: idx' :: idxs))
    with (keyTokens idx ++ DynamoDb.TComma :: clauseTokens (idx' :: idxs)).
  rewrite length_app. simpl in *. lia.
Qed.

(** The update expression of an increment of [n] keys reads as one [SET]
    action per key, then the action on [updatedAt]. *)
Lemma parseUpdateExpression_increment idxs :
  idxs ≠ [] →
  DynamoDb.parseUpdateExpression
    ("SET " +:+ String.concat ", " (updateKeyValue <$> idxs)
     +:+ ", updatedAt = :updatedAt")
  = Some ((keyAction <$> idxs) ++ [updatedAtAction]).
Proof.
  intros Hne. unfold DynamoDb.parseUpdateExpression.
  rewrite lex_UpdateExpression by done.
  change (String.eqb "SET" "SET") with true. cbv iota.
  apply parseActions_keys; [done|].
  rewrite length_app. pose proof (clauseTokens_length idxs). simpl. lia.
Qed.

Lemma imap_index {A B} (g : nat → B) (l : list A) :
  imap (λ idx _, g idx) l = g <$> seq 0 (length l).
Proof.
  revert g. induction l as [|x l IH]; intros g; [done|].
  cbn [imap length seq fmap list_fmap]. f_equal.
  change ((λ (idx : nat) (_ : A), g idx) ∘ S)
    with (λ (idx : nat) (_ : A), (g ∘ S) idx).
  rewrite IH, <- fmap_S_seq. by rewrite <- list_fmap_compose.
Qed.

(** ** The placeholders of an increment *)

Lemma name_placeholder_inj i j :
  "#" +:+ decimal i = "#" +:+ decimal j → i = j.
Proof. intros [= Heq]. rewrite !app_empty in Heq. by apply decimal_inj. Qed.

Lemma value_placeholder_inj i j :
  ":" +:+ decimal i = ":" +:+ decimal j → i = j.
Proof. intros [= Heq]. rewrite !app_empty in Heq. by apply decimal_inj. Qed.

Lemma placeholder_not_word c idx word :
  allDigits word = false → String c EmptyString +:+ decimal idx ≠ String c word.
Proof.
  intros Hword [= Heq]. rewrite app_empty in Heq.
  pose proof (allDigits_decimal idx) as Hd. rewrite Heq in Hd. congruence.
Qed.

Lemma namesStep_other ks o accum name :
  (∀ j, o ≤ j → name ≠ "#" +:+ decimal j) →
  name ≠ "#indexKeysProp" →
  reduceFrom namesStep o ks accum !! name = accum !! name.
Proof.
  revert o accum. induction ks as [|k ks IH]; intros o accum Hidx Hprop; [done|].
  cbn [reduceFrom]. rewrite IH; [|intros j Hj; apply Hidx; lia|done].
  unfold namesStep. rewrite lookup_insert_ne by done.
  rewrite lookup_insert_ne; [done|]. intros Heq. by apply (Hidx o).
Qed.

Lemma namesStep_key ks o accum j k :
  ks !! j = Some k →
  reduceFrom namesStep o ks accum !! ("#" +:+ decimal (o + j)) = Some k.
Proof.
  revert o accum j. induction ks as [|k' ks IH]; intros o accum j Hj; [done|].
  cbn [reduceFrom]. destruct j as [|j].
  - injection Hj as ->. rewrite Nat.add_0_r. rewrite namesStep_other.
    + unfold namesStep. rewrite lookup_insert_ne.
      * by rewrite lookup_insert_eq.
      * intros Heq. symmetry in Heq. revert Heq.
        by apply (placeholder_not_word "#" o "indexKeysProp").
    + intros j Hj Heq. apply name_placeholder_inj in Heq. lia.
    + by apply (placeholder_not_word "#" o "indexKeysProp").
  - replace (o + S j) with (S o + j) by lia. by apply IH.
Qed.

Lemma namesStep_prop ks o accum :
  ks ≠ [] →
  reduceFrom namesStep o ks accum !! "#indexKeysProp" = Some INDEX_KEYS_PROP.
Proof.
  revert o accum. induction ks as [|k ks IH]; intros o accum Hne; [done|].
  cbn [reduceFrom]. destruct ks as [|k' ks].
  - cbn [reduceFrom]. unfold namesStep. by rewrite lookup_insert_eq.
  - by apply IH.
Qed.

Lemma valuesStep_other indexData ks o accum name :
  (∀ j, o ≤ j → name ≠ ":" +:+ decimal j) →
  reduceFrom (valuesStep indexData) o ks accum !! name = accum !! name.
Proof.
  revert o accum. induction ks as [|k ks IH]; intros o accum Hidx; [done|].
  cbn [reduceFrom]. rewrite IH; [|intros j Hj; apply Hidx; lia].
  unfold valuesStep. rewrite lookup_insert_ne; [done|].
  intros Heq. by apply (Hidx o).
Qed.

Lemma valuesStep_key indexData ks o accum j k :
  ks !! j = Some k →
  reduceFrom (valuesStep indexData) o ks accum !! (":" +:+ decimal (o + j))
  = Some (toAttribute (getProp indexData k)).
Proof.
  revert o accum j. induction ks as [|k' ks IH]; intros o accum j Hj; [done|].
  cbn [reduceFrom]. destruct j as [|j].
  - injection Hj as ->. rewrite Nat.add_0_r. rewrite valuesStep_other.
    + unfold valuesStep. by rewrite lookup_insert_eq.
    + intros j Hj Heq. apply value_placeholder_inj in Heq. lia.
  - replace (o + S j) with (S o + j) by lia. by apply IH.
Qed.

(** What the placeholders of the request stand for: [#idx] is the key at
    position [idx], [:idx] its delta, [#indexKeysProp] the attribute
    [indexKeys], [:zero] is 0 and [:updatedAt] the timestamp. *)
Lemma attributeNames_key ks j k :
  ks !! j = Some k → attributeNames ks !! ("#" +:+ decimal j) = Some k.
Proof. intros Hj. by apply (namesStep_key ks 0 ∅ j k). Qed.

Lemma attributeNames_prop ks :
  ks ≠ [] → attributeNames ks !! "#indexKeysProp" = Some INDEX_KEYS_PROP.
Proof. apply namesStep_prop. Qed.

Lemma attributeValues_key indexData timestamp ks j k :
  ks !! j = Some k →
  attributeValues indexData timestamp ks !! (":" +:+ decimal j)
  = Some (toAttribute (getProp indexData k)).
Proof. intros Hj. by apply (valuesStep_key indexData ks 0 _ j k). Qed.

Lemma attributeValues_zero indexData timestamp ks :
  attributeValues indexData timestamp ks !! ":zero" = Some (AttrNumber 0).
Proof.
  unfold attributeValues, reduce. rewrite valuesStep_other.
  - by rewrite lookup_insert_eq.
  - intros j _ Heq. symmetry in Heq. revert Heq.
    by apply (placeholder_not_word ":" j "zero").
Qed.

Lemma attributeValues_updatedAt indexData timestamp ks :
  attributeValues indexData timestamp ks !! ":updatedAt"
  = Some (AttrNumber timestamp).
Proof.
  unfold attributeValues, reduce. rewrite valuesStep_other.
  - rewrite lookup_insert_ne by done. by rewrite lookup_insert_eq.
  - intros j _ Heq. symmetry in Heq. revert Heq.
    by apply (placeholder_not_word ":" j "updatedAt").
Qed.

(** ** Evaluating the actions of an increment *)

Section Evaluate.
Variables (names : gmap string string) (values : gmap string AttributeValue).
Variables (ks : list string) (indexData : IIndexDictionary) (timestamp : Z).
Variables (old : Item) (prior : gmap string Z).
Hypothesis Hkey :
  ∀ j k, ks !! j = Some k → names !! ("#" +:+ decimal j) = Some k.
Hypothesis Hprop : names !! "#indexKeysProp" = Some INDEX_KEYS_PROP.
Hypothesis Hdelta :
  ∀ j k, ks !! j = Some k →
         values !! (":" +:+ decimal j) = Some (toAttribute (getProp indexData k)).
Hypothesis Hzero : values !! ":zero" = Some (AttrNumber 0).
Hypothesis Hupdated : values !! ":updatedAt" = Some (AttrNumber timestamp).
Hypothesis Hvalid : ∀ k, k ∈ ks → is_Some (getProp indexData k).
Hypothesis Hold : item_indexKeys old = Some prior.

Lemma resolvePath_key j k :
  ks !! j = Some k →
  DynamoDb.resolvePath names ["#indexKeysProp"; "#" +:+ decimal j]
  = Some [INDEX_KEYS_PROP; k].
Proof.
  intros Hj. unfold DynamoDb.resolvePath. cbn [mapM].
  change (DynamoDb.resolveName names "#indexKeysProp")
    with (names !! "#indexKeysProp").
  change (DynamoDb.resolveName names ("#" +:+ decimal j))
    with (names !! ("#" +:+ decimal j)).
  by rewrite Hprop, (Hkey j k Hj).
Qed.

Lemma resolveTarget_key j k :
  ks !! j = Some k →
  DynamoDb.resolveTarget names (keyAction j) = inr (DynamoDb.PathCounter k).
Proof.
  intros Hj. unfold DynamoDb.resolveTarget, keyAction. cbn [DynamoDb.target].
  by rewrite (resolvePath_key j k Hj).
Qed.

Lemma resolveTarget_updatedAt :
  DynamoDb.resolveTarget names updatedAtAction = inr DynamoDb.PathUpdatedAt.
Proof. reflexivity. Qed.

Lemma evalValue_key j k :
  ks !! j = Some k →
  DynamoDb.evalValue names values old (DynamoDb.assigned (keyAction j))
  = inr (AttrNumber (default 0 (prior !! k)
                     + default 0 (getProp indexData k))%Z).
Proof.
  intros Hj. unfold keyAction. cbn [DynamoDb.assigned DynamoDb.evalValue].
  cbn [DynamoDb.evalOperand]. rewrite (resolvePath_key j k Hj).
  cbn [DynamoDb.orError DynamoDb.bindR].
  change (DynamoDb.classify [INDEX_KEYS_PROP; k])
    with (Some (DynamoDb.PathCounter k)).
  cbn [mbind option_bind DynamoDb.readPath]. rewrite Hold.
  cbn [mbind option_bind]. rewrite (Hdelta j k Hj), Hzero.
  destruct (Hvalid k) as [d Hd]; [by eapply list_elem_of_lookup_2|].
  rewrite Hd. by destruct (prior !! k).
Qed.

Lemma evalValue_updatedAt :
  DynamoDb.evalValue names values old (DynamoDb.assigned updatedAtAction)
  = inr (AttrNumber timestamp).
Proof.
  unfold updatedAtAction.
  cbn [DynamoDb.assigned DynamoDb.evalValue DynamoDb.evalOperand].
  by rewrite Hupdated.
Qed.

(** The targets of the actions, for the keys from position [o] on. *)
Lemma mapR_resolveTarget o l :
  (∀ j k, l !! j = Some k → ks !! (o + j) = Some k) →
  DynamoDb.mapR (DynamoDb.resolveTarget names)
    ((keyAction <$> seq o (length l)) ++ [updatedAtAction])
  = inr ((DynamoDb.PathCounter <$> l) ++ [DynamoDb.PathUpdatedAt]).
Proof.
  revert o. induction l as [|k l IH]; intros o Hl; [done|].
  cbn [length seq fmap list_fmap app DynamoDb.mapR].
  rewrite (resolveTarget_key o k).
  - cbn [DynamoDb.bindR]. rewrite IH; [done|].
    intros j k' Hj. replace (S o + j) with (o + S j) by lia. by apply Hl.
  - rewrite <- (Nat.add_0_r o). by apply Hl.
Qed.

Lemma applyActions_increment o l m :
  (∀ j k, l !! j = Some k → ks !! (o + j) = Some k) →
  DynamoDb.applyActions names values old
    (zip ((DynamoDb.PathCounter <$> l) ++ [DynamoDb.PathUpdatedAt])
         (DynamoDb.assigned
            <$> (keyAction <$> seq o (length l)) ++ [updatedAtAction]))
    {| item_id := item_id old; item_indexKeys := Some m;
       item_updatedAt := item_updatedAt old |}
  = inr {| item_id := item_id old;
           item_indexKeys :=
             Some (foldl (λ m k, <[k := (default 0 (prior !! k)
                                         + default 0 (getProp indexData k))%Z]> m)
                     m l);
           item_updatedAt := Some timestamp |}.
Proof.
  revert o m. induction l as [|k l IH]; intros o m Hl.
  - cbn [length seq fmap list_fmap app zip zip_with DynamoDb.applyActions].
    rewrite evalValue_updatedAt. reflexivity.
  - cbn [length seq fmap list_fmap app zip zip_with DynamoDb.applyActions].
    rewrite (evalValue_key o k).
    + cbn [DynamoDb.bindR DynamoDb.writePath item_indexKeys].
      rewrite Hold. cbn [DynamoDb.bindR item_id item_updatedAt foldl].
      apply (IH (S o)).
      intros j k' Hj. replace (S o + j) with (o + S j) by lia. by apply Hl.
    + rewrite <- (Nat.add_0_r o). by apply Hl.
Qed.

End Evaluate.

Lemma overlapping_counters ks :
  NoDup ks →
  DynamoDb.overlapping ((DynamoDb.PathCounter <$> ks) ++ [DynamoDb.PathUpdatedAt])
  = false.
Proof.
  induction 1 as [|k ks Hk Hnodup IH]; [done|].
  cbn [fmap list_fmap app DynamoDb.overlapping]. rewrite IH, orb_false_r.
  apply not_true_iff_false. rewrite existsb_exists.
  intros (q & Hin & Hq). apply in_app_or in Hin as [Hin|[<-|[]]]; [|done].
  apply list_elem_of_In, list_elem_of_fmap in Hin as (k' & -> & Hk').
  cbn [DynamoDb.overlap] in Hq. apply String.eqb_eq in Hq. by subst k'.
Qed.

Lemma incremented_from (indexData : IIndexDictionary) (prior : gmap string Z)
    (ks : list string) (m : gmap string Z) (k : string) :
  foldl (λ m k, <[k := (default 0 (prior !! k)
                        + default 0 (getProp indexData k))%Z]> m) m ks !! k
  = if decide (k ∈ ks) then
      Some (default 0 (prior !! k) + default 0 (getProp indexData k))%Z
    else m !! k.
Proof.
  revert m. induction ks as [|k' ks IH]; intros m.
  - cbn [foldl]. rewrite decide_False; [done|]. apply not_elem_of_nil.
  - cbn [foldl]. rewrite IH. destruct (decide (k ∈ ks)) as [Hin|Hout].
    + rewrite decide_True; [done|]. apply elem_of_cons. by right.
    + destruct (decide (k' = k)) as [->|Hne].
      * rewrite lookup_insert_eq, decide_True; [done|]. apply elem_of_cons.
        by left.
      * rewrite lookup_insert_ne by done. rewrite decide_False; [done|].
        intros [?|?]%elem_of_cons; congruence.
Qed.

Lemma incremented_lookup indexData prior ks k :
  incremented indexData prior ks !! k
  = if decide (k ∈ ks) then
      Some (default 0 (prior !! k) + default 0 (getProp indexData k))%Z
    else prior !! k.
Proof. apply incremented_from. Qed.

(** What DynamoDB makes of the request of [getDynamoDbUpdateItemParams], on a
    record that has an [indexKeys] map. *)
Lemma updateItem_increment indexId indexData timestamp name db old prior :
  NoDup indexData.*1 →
  validKeysOf indexData ≠ [] →
  DynamoDb.db_name db = name →
  DynamoDb.db_items db !! indexId = Some old →
  item_id old = indexId →
  item_indexKeys old = Some prior →
  let validKeys := validKeysOf indexData in
  let ddbParams :=
    {| ConditionExpression := None;
       ExpressionAttributeNames := attributeNames validKeys;
       ExpressionAttributeValues :=
         attributeValues indexData timestamp validKeys;
       Key := {| key_id := indexId |};
       ReturnValues := Some "ALL_NEW";
       TableName := name;
       UpdateExpression :=
         "SET "
         +:+ String.concat ", " (imap (λ idx key, updateKeyValue idx) validKeys)
         +:+ ", updatedAt = :updatedAt" |} in
  let new :=
    {| item_id := indexId;
       item_indexKeys := Some (incremented indexData prior validKeys);
       item_updatedAt := Some timestamp |} in
  DynamoDb.updateItem ddbParams db
  = inr ({| Attributes := Some new |},
         {| DynamoDb.db_name := DynamoDb.db_name db;
            DynamoDb.db_items := <[indexId := new]> (DynamoDb.db_items db) |}).
Proof.
  intros Hnodup Hne Hname Hitem Hid Hold. cbv zeta.
  set (ks := validKeysOf indexData) in *.
  assert (seq 0 (length ks) ≠ []) as Hseq.
  { destruct ks; [done|]. simpl. done. }
  unfold DynamoDb.updateItem.
  cbn [TableName ExpressionAttributeNames ExpressionAttributeValues
       UpdateExpression Key key_id ReturnValues].
  rewrite Hname, String.eqb_refl. cbn [negb].
  rewrite imap_index, parseUpdateExpression_increment by done.
  cbn [DynamoDb.orError DynamoDb.bindR].
  pose proof (attributeNames_key ks) as Hkey.
  pose proof (attributeNames_prop ks Hne) as Hprop.
  rewrite (mapR_resolveTarget _ ks Hkey Hprop 0 ks (λ j k H, H)).
  cbn [DynamoDb.bindR]. rewrite overlapping_counters
    by (by apply validKeysOf_NoDup).
  rewrite Hitem. cbn [default from_option id].
  unfold DynamoDb.checkCondition. cbn [ConditionExpression DynamoDb.bindR].
  destruct old as [oid okeys oupdated]. cbn [item_id item_indexKeys] in *.
  subst oid okeys.
  assert (∀ k, k ∈ ks → is_Some (getProp indexData k)) as Hvalid.
  { intros k Hk. by apply elem_of_validKeysOf in Hk as [_ ?]. }
  pose proof (applyActions_increment (attributeNames ks)
                (attributeValues indexData timestamp ks) ks indexData timestamp
                {| item_id := indexId; item_indexKeys := Some prior;
                   item_updatedAt := oupdated |} prior
                Hkey Hprop (attributeValues_key indexData timestamp ks)
                (attributeValues_zero indexData timestamp ks)
                (attributeValues_updatedAt indexData timestamp ks)
                Hvalid eq_refl 0 ks prior (λ j k H, H)) as Happly.
  cbn [item_id item_updatedAt] in Happly. rewrite Happly.
  cbn [DynamoDb.bindR item_id]. reflexivity.
Qed.

(** The counters after an increment, key by key. *)
Lemma incremented_validKeys indexData prior k :
  incremented indexData prior (validKeysOf indexData) !! k
  = match getProp indexData k with
    | Some d => Some (default 0 (prior !! k) + d)%Z
    | None => prior !! k
    end.
Proof.
  rewrite incremented_lookup.
  destruct (getProp indexData k) as [d|] eqn:Hk.
  - rewrite decide_True; [done|]. apply elem_of_validKeysOf. split.
    + apply list_elem_of_fmap. exists (k, Some d). split; [done|].
      by apply getProp_Some_elem.
    + by exists d.
  - rewrite decide_False; [done|]. intros [_ [d Hd]]%elem_of_validKeysOf.
    congruence.
Qed.

(** ** What an increment request holds *)

(** Every name the request holds is the name of the counter map or a valid
    key, under the placeholder of its position. *)
Lemma namesStep_inv ks o accum name k :
  reduceFrom namesStep o ks accum !! name = Some k →
  accum !! name = Some k
  ∨ (name = "#indexKeysProp" ∧ k = INDEX_KEYS_PROP)
  ∨ ∃ j, ks !! j = Some k ∧ name = "#" +:+ decimal (o + j).
Proof.
  revert o accum. induction ks as [|k' ks IH]; intros o accum; [by left|].
  cbn [reduceFrom]. intros [Hk|[Hk|(j & Hj & ->)]]%IH.
  - unfold namesStep in Hk.
    apply lookup_insert_Some in Hk as [[<- <-]|[_ Hk]]; [right; by left|].
    apply lookup_insert_Some in Hk as [[<- <-]|[_ Hk]]; [|by left].
    right. right. exists 0. by rewrite Nat.add_0_r.
  - right. by left.
  - right. right. exists (S j). split; [done|]. f_equal. f_equal. lia.
Qed.

Lemma valuesStep_inv indexData ks o accum name v :
  reduceFrom (valuesStep indexData) o ks accum !! name = Some v →
  accum !! name = Some v
  ∨ ∃ j k, ks !! j = Some k ∧ name = ":" +:+ decimal (o + j)
           ∧ v = toAttribute (getProp indexData k).
Proof.
  revert o accum. induction ks as [|k' ks IH]; intros o accum; [by left|].
  cbn [reduceFrom]. intros [Hk|(j & k & Hj & -> & ->)]%IH.
  - unfold valuesStep in Hk.
    apply lookup_insert_Some in Hk as [[<- <-]|[_ Hk]]; [|by left].
    right. exists 0, k'. by rewrite Nat.add_0_r.
  - right. exists (S j), k. split; [done|]. split; [|done].
    f_equal. f_equal. lia.
Qed.

(** The valid keys are as many as the entries with a defined delta. *)
Lemma validKeysOf_length (indexData : IIndexDictionary) :
  NoDup indexData.*1 →
  length (validKeysOf indexData)
  = length (filter (λ kv, is_Some kv.2) indexData).
Proof.
  intros Hnodup. unfold validKeysOf.
  assert (∀ l : IIndexDictionary,
            (∀ kv, kv ∈ l → getProp indexData kv.1 = kv.2) →
            length (filter (λ k, is_Some (getProp indexData k)) l.*1)
            = length (filter (λ kv : string * option Z, is_Some kv.2) l))
    as Hlen.
  { induction l as [|[k v] l IH]; intros Hl; [done|].
    cbn [fmap list_fmap fst].
    assert (getProp indexData k = v) as Hk
      by (apply (Hl (k, v)), elem_of_cons; by left).
    assert (∀ kv, kv ∈ l → getProp indexData kv.1 = kv.2) as Hrest.
    { intros kv Hkv. apply Hl, elem_of_cons. by right. }
    specialize (IH Hrest).
    destruct (decide (is_Some v)) as [Hv|Hv].
    - rewrite filter_cons_True by (by rewrite Hk).
      rewrite (filter_cons_True (λ kv : string * option Z, is_Some kv.2))
        by done.
      cbn [length]. by rewrite IH.
    - rewrite filter_cons_False by (by rewrite Hk).
      by rewrite (filter_cons_False (λ kv : string * option Z, is_Some kv.2))
        by done. }
  apply Hlen. intros [k v] Hin. by apply getProp_NoDup.
Qed.

(** C7: the request is built from the entries whose delta is not
    [undefined], and from nothing else: the valid keys are exactly their
    keys; each of them is in the request under a placeholder of its own,
    with its delta; no other key and no [undefined] value is in the request,
    and the update expression has one clause for each of them.  When none is
    left [getDynamoDbUpdateItemParams] returns null, and only then; this is
    so for [{}] and for [{k: undefined}]; and [updateIndexRecord] then
    returns the skipped marker and sends nothing. *)
Theorem undefined_deltas_are_filtered {S} `{!DocumentClient S}
    indexId (indexData : IIndexDictionary) (w : World S) :
  NoDup indexData.*1 →
  (∀ k, k ∈ validKeysOf indexData ↔ ∃ n, (k, Some n) ∈ indexData)
  ∧ (validKeysOf indexData = [] →
       getDynamoDbUpdateItemParams indexId (Some indexData) w
       = (Resolved None, w)
       ∧ updateIndexRecord indexId (Some indexData) w = (Resolved None, w))
  ∧ (validKeysOf indexData ≠ [] →
       ∀ name, configured w name →
       ∃ ddbParams,
         getDynamoDbUpdateItemParams indexId (Some indexData) w
         = (Resolved (Some ddbParams), w)
         ∧ updateIndexRecord indexId (Some indexData) w
           = andThen (updateAndHandleEmptyMap ddbParams)
               (λ response, resolve (Some response)) w
         ∧ (∀ k n,
              (k, Some n) ∈ indexData →
              ∃ j, ExpressionAttributeNames ddbParams !! ("#" +:+ decimal j)
                   = Some k
                   ∧ ExpressionAttributeValues ddbParams
                     !! (":" +:+ decimal j) = Some (AttrNumber n))
         ∧ (∀ placeholder k,
              ExpressionAttributeNames ddbParams !! placeholder = Some k →
              (placeholder = "#indexKeysProp" ∧ k = "indexKeys")
              ∨ ∃ n, (k, Some n) ∈ indexData)
         ∧ (∀ placeholder v,
              ExpressionAttributeValues ddbParams !! placeholder = Some v →
              v ≠ AttrUndefined)
         ∧ UpdateExpression ddbParams
           = "SET "
             +:+ String.concat ", "
                   (updateKeyValue
                    <$> seq 0 (length (filter (λ kv, is_Some kv.2) indexData)))
             +:+ ", updatedAt = :updatedAt")
  ∧ getDynamoDbUpdateItemParams indexId (Some []) w = (Resolved None, w)
  ∧ updateIndexRecord indexId (Some []) w = (Resolved None, w)
  ∧ (∀ k,
       getDynamoDbUpdateItemParams indexId (Some [(k, None)]) w
       = (Resolved None, w)
       ∧ updateIndexRecord indexId (Some [(k, None)]) w = (Resolved None, w)).
Proof.
  intros Hnodup.
  assert (∀ k, k ∈ validKeysOf indexData ↔ ∃ n, (k, Some n) ∈ indexData)
    as Hvalid.
  { intros k. rewrite elem_of_validKeysOf. split.
    - intros [_ [n Hn]]. exists n. by apply getProp_Some_elem.
    - intros [n Hin]. split.
      + apply list_elem_of_fmap. by exists (k, Some n).
      + exists n. by apply getProp_NoDup. }
  split; [done|]. split; [|split; [|split; [|split]]].
  - intros Hkeys. unfold updateIndexRecord; open_bind.
    by rewrite getDynamoDbUpdateItemParams_null.
  - intros Hkeys name Hname. eexists.
    unfold updateIndexRecord, getDynamoDbUpdateItemParams; open_bind.
    cbn [Date_now].
    rewrite bool_decide_eq_true_2
      by (destruct (validKeysOf indexData); [done|simpl; lia]).
    rewrite (getIndexTableName_configured w name) by done.
    cbn [mret M_ret resolve]. split; [reflexivity|]. split; [reflexivity|].
    cbn [ExpressionAttributeNames ExpressionAttributeValues UpdateExpression].
    split; [|split; [|split]].
    + intros k n Hin.
      assert (k ∈ validKeysOf indexData) as Hk by (apply Hvalid; by exists n).
      apply list_elem_of_lookup_1 in Hk as [j Hj]. exists j. split.
      * by apply attributeNames_key.
      * rewrite (attributeValues_key indexData (clock w) _ j k Hj).
        by rewrite (getProp_NoDup indexData k (Some n)).
    + intros placeholder k Hk. unfold attributeNames, reduce in Hk.
      apply namesStep_inv in Hk as [Hk|[Hk|(j & Hj & _)]].
      * by rewrite lookup_empty in Hk.
      * by left.
      * right. apply Hvalid. by eapply list_elem_of_lookup_2.
    + intros placeholder v Hv. unfold attributeValues, reduce in Hv.
      apply valuesStep_inv in Hv as [Hv|(j & k & Hj & _ & ->)].
      * apply lookup_insert_Some in Hv as [[_ <-]|[_ Hv]]; [done|].
        apply lookup_insert_Some in Hv as [[_ <-]|[_ Hv]]; [done|].
        by rewrite lookup_empty in Hv.
      * assert (k ∈ validKeysOf indexData) as Hk
          by (by eapply list_elem_of_lookup_2).
        apply elem_of_validKeysOf in Hk as [_ [n ->]]. done.
    + by rewrite imap_index, validKeysOf_length.
  - done.
  - done.
  - intros k. pose proof (validKeysOf_undefined k) as Hkeys. split.
    + by apply getDynamoDbUpdateItemParams_null.
    + unfold updateIndexRecord; open_bind.
      by rewrite getDynamoDbUpdateItemParams_null.
Qed.

Lemma undefined_deltas_are_filtered_witness :
  let w := freshWorld [] emptyDb in
  let indexData : IIndexDictionary := [("gone", None); ("red", Some 2%Z)] in
  NoDup indexData.*1
  ∧ updateIndexRecord "tags" (Some [("k", None)]) w = (Resolved None, w)
  ∧ ∃ ddbParams,
      getDynamoDbUpdateItemParams "tags" (Some indexData) w
      = (Resolved (Some ddbParams), w)
      ∧ ExpressionAttributeNames ddbParams
        = {[ "#0" := "red"; "#indexKeysProp" := "indexKeys" ]}
      ∧ (∀ placeholder,
           ExpressionAttributeNames ddbParams !! placeholder ≠ Some "gone").
Proof.
  assert (NoDup ([("gone", None); ("red", Some 2%Z)] : IIndexDictionary).*1)
    as Hnodup.
  { apply (NoDup_cons_2 "gone" ["red"]); [|apply NoDup_singleton].
    intros [Heq|Hin]%elem_of_cons; [discriminate|].
    by apply elem_of_nil in Hin. }
  assert (configured (freshWorld [] emptyDb) "indexes") as Hname.
  { split; [reflexivity|discriminate]. }
  destruct (undefined_deltas_are_filtered (S := DynamoDb.Db) "tags"
              [("gone", None); ("red", Some 2%Z)] (freshWorld [] emptyDb)
              Hnodup)
    as (_ & _ & Hbuilt & _ & _ & Hundefined).
  destruct (Hbuilt ltac:(discriminate) "indexes" Hname)
    as (ddbParams & Hparams & _ & _ & Hnames & _).
  cbv zeta. split; [exact Hnodup|].
  split; [exact (proj2 (Hundefined "k"))|].
  exists ddbParams. split; [exact Hparams|]. split.
  - vm_compute in Hparams. injection Hparams as <-. vm_compute. reflexivity.
  - intros placeholder Hk. apply Hnames in Hk as [[_ Hk]|[n Hin]];
      [discriminate|].
    apply elem_of_cons in Hin as [Hin|Hin]; [discriminate|].
    apply elem_of_cons in Hin as [Hin|Hin]; [discriminate|].
    by apply elem_of_nil in Hin.
Defined.

(** ** The increment request and its meaning *)

Lemma validKeysOf_not_empty (indexData : IIndexDictionary) k d :
  NoDup indexData.*1 → (k, Some d) ∈ indexData → validKeysOf indexData ≠ [].
Proof.
  intros Hnodup Hin Hempty.
  assert (k ∈ validKeysOf indexData) as Hk.
  { apply elem_of_validKeysOf. split.
    - apply list_elem_of_fmap. by exists (k, Some d).
    - exists d. by apply getProp_NoDup. }
  rewrite Hempty in Hk. by apply elem_of_nil in Hk.
Qed.

(** The request built for a delta mapping with a valid key, and DynamoDB's
    answer to it on a record that has a counter map. *)
Lemma getDynamoDbUpdateItemParams_increment {S} `{!DocumentClient S}
    indexId (indexData : IIndexDictionary) (w : World S) name :
  configured w name →
  NoDup indexData.*1 →
  validKeysOf indexData ≠ [] →
  ∃ ddbParams,
    getDynamoDbUpdateItemParams indexId (Some indexData) w
    = (Resolved (Some ddbParams), w)
    ∧ ∀ db old prior,
        DynamoDb.db_name db = name →
        DynamoDb.db_items db !! indexId = Some old →
        item_id old = indexId →
        item_indexKeys old = Some prior →
        let new :=
          {| item_id := indexId;
             item_indexKeys :=
               Some (incremented indexData prior (validKeysOf indexData));
             item_updatedAt := Some (clock w) |} in
        DynamoDb.updateItem ddbParams db
        = inr ({| Attributes := Some new |},
               {| DynamoDb.db_name := DynamoDb.db_name db;
                  DynamoDb.db_items :=
                    <[indexId := new]> (DynamoDb.db_items db) |}).
Proof.
  intros Hname Hnodup Hne. eexists. split.
  - unfold getDynamoDbUpdateItemParams; open_bind.
    cbn [Date_now]. rewrite bool_decide_eq_true_2.
    + rewrite (getIndexTableName_configured w name) by done. reflexivity.
    + destruct (validKeysOf indexData); [done|]. simpl. lia.
  - intros db old prior Hdb Hitem Hid Hold.
    by apply (updateItem_increment indexId indexData (clock w) name db old).
Qed.

(** C4: for every slot and every delta mapping with at least one entry that
    is not [undefined], [getDynamoDbUpdateItemParams] builds a request that
    DynamoDB, on a record with any prior counter map, answers by setting
    every key that has a delta to its prior count (0 when it has none) plus
    the delta, leaving the other counters as they are, and by setting
    [updatedAt] to the timestamp.  For the deltas [{a: 3, b: -1}] against
    [{a: 5}] the counters become [{a: 8, b: -1}]. *)
Theorem increment_request_adds_deltas {S} `{!DocumentClient S}
    indexId (indexData : IIndexDictionary) (w : World S) name :
  configured w name →
  NoDup indexData.*1 →
  (∃ k d, (k, Some d) ∈ indexData) →
  (∃ ddbParams,
     getDynamoDbUpdateItemParams indexId (Some indexData) w
     = (Resolved (Some ddbParams), w)
     ∧ ∀ db old prior,
         DynamoDb.db_name db = name →
         DynamoDb.db_items db !! indexId = Some old →
         item_id old = indexId →
         item_indexKeys old = Some prior →
         ∃ newKeys,
           let new := {| item_id := indexId; item_indexKeys := Some newKeys;
                         item_updatedAt := Some (clock w) |} in
           DynamoDb.updateItem ddbParams db
           = inr ({| Attributes := Some new |},
                  {| DynamoDb.db_name := DynamoDb.db_name db;
                     DynamoDb.db_items :=
                       <[indexId := new]> (DynamoDb.db_items db) |})
           ∧ ∀ k, newKeys !! k
                  = match getProp indexData k with
                    | Some d => Some (default 0 (prior !! k) + d)%Z
                    | None => prior !! k
                    end)
  ∧ (∃ ddbParams,
       getDynamoDbUpdateItemParams "tags" (Some exampleDeltas)
         (freshWorld [] emptyDb)
       = (Resolved (Some ddbParams), freshWorld [] emptyDb)
       ∧ DynamoDb.updateItem ddbParams exampleDb
         = inr ({| Attributes := Some exampleResult |},
                {| DynamoDb.db_name := "indexes";
                   DynamoDb.db_items := {[ "tags" := exampleResult ]} |})).
Proof.
  intros Hname Hnodup (k0 & d0 & Hin). split.
  - pose proof (validKeysOf_not_empty indexData k0 d0 Hnodup Hin) as Hne.
    destruct (getDynamoDbUpdateItemParams_increment indexId indexData w name
                Hname Hnodup Hne) as (ddbParams & Hbuilt & Heval).
    exists ddbParams. split; [done|].
    intros db old prior Hdb Hitem Hid Hold.
    exists (incremented indexData prior (validKeysOf indexData)). split.
    + by apply (Heval db old prior).
    + apply incremented_validKeys.
  - eexists. split; vm_compute; reflexivity.
Qed.

Lemma increment_request_adds_deltas_witness :
  let w := freshWorld [] emptyDb in
  configured w "indexes"
  ∧ NoDup exampleDeltas.*1
  ∧ ∃ ddbParams newKeys,
      getDynamoDbUpdateItemParams "tags" (Some exampleDeltas) w
      = (Resolved (Some ddbParams), w)
      ∧ (∃ db, DynamoDb.updateItem ddbParams exampleDb
               = inr ({| Attributes :=
                           Some {| item_id := "tags";
                                   item_indexKeys := Some newKeys;
                                   item_updatedAt := Some 1000%Z |} |}, db))
      ∧ newKeys !! "a" = Some 8%Z
      ∧ newKeys !! "b" = Some (-1)%Z
      ∧ newKeys !! "c" = None.
Proof.
  assert (configured (freshWorld [] emptyDb) "indexes") as Hname.
  { split; [reflexivity|discriminate]. }
  assert (NoDup exampleDeltas.*1) as Hnodup.
  { apply (NoDup_cons_2 "a" ["b"]); [|apply NoDup_singleton].
    intros [Heq|Hin]%elem_of_cons; [discriminate|].
    by apply elem_of_nil in Hin. }
  cbv zeta. split; [exact Hname|]. split; [exact Hnodup|].
  destruct (increment_request_adds_deltas (S := DynamoDb.Db) "tags"
              exampleDeltas (freshWorld [] emptyDb) "indexes" Hname Hnodup)
    as [(ddbParams & Hbuilt & Heval) _].
  { exists "a", 3%Z. apply elem_of_cons. by left. }
  destruct (Heval exampleDb exampleRecord {[ "a" := 5%Z ]})
    as (newKeys & Hupdate & Hkeys); [reflexivity..|].
  exists ddbParams, newKeys. split; [exact Hbuilt|]. cbv zeta in Hupdate.
  split; [eexists; exact Hupdate|].
  rewrite !Hkeys. repeat split; reflexivity.
Defined.

(** C10: a delta is kept whenever it is not [undefined], also when it is zero
    or negative.  The request built for [{k: 0}] is not null, and on a record
    whose counters do not have [k] DynamoDB answers it by creating the entry
    [k = 0].  The next pruning of an index that holds that entry raises the
    flag, so the index is written back, and the cleaned map does not have
    [k] unless an entry retained earlier does. *)
Theorem zero_delta_creates_zero_counter {S} `{!DocumentClient S}
    indexId k (w : World S) name :
  configured w name →
  (∀ (indexData : IIndexDictionary) key d,
     NoDup indexData.*1 → (key, Some d) ∈ indexData →
     key ∈ validKeysOf indexData)
  ∧ (∃ ddbParams,
       getDynamoDbUpdateItemParams indexId (Some [(k, Some 0%Z)]) w
       = (Resolved (Some ddbParams), w)
       ∧ ∀ db old prior,
           DynamoDb.db_name db = name →
           DynamoDb.db_items db !! indexId = Some old →
           item_id old = indexId →
           item_indexKeys old = Some prior →
           prior !! k = None →
           let new := {| item_id := indexId;
                         item_indexKeys := Some (<[k := 0%Z]> prior);
                         item_updatedAt := Some (clock w) |} in
           DynamoDb.updateItem ddbParams db
           = inr ({| Attributes := Some new |},
                  {| DynamoDb.db_name := DynamoDb.db_name db;
                     DynamoDb.db_items :=
                       <[indexId := new]> (DynamoDb.db_items db) |}))
  ∧ (∀ h indexObject,
       getMap h (tags indexObject) !! k = Some 0%Z →
       tags indexObject ≠ people defaultIndex →
       let r := pruneLoops indexObject h in
       r.1.2 = true
       ∧ (getMap h (tags defaultIndex) !! k = None →
          getMap r.2 (tags r.1.1) !! k = None))
  ∧ (∀ h indexObject,
       getMap h (people indexObject) !! k = Some 0%Z →
       let r := pruneLoops indexObject h in
       (tags indexObject ≠ people defaultIndex → r.1.2 = true)
       ∧ (getMap h (people defaultIndex) !! k = None →
          getMap r.2 (people r.1.1) !! k = None)).
Proof.
  intros Hname. split; [|split; [|split]].
  - intros indexData key d Hnodup Hin. apply elem_of_validKeysOf. split.
    + apply list_elem_of_fmap. by exists (key, Some d).
    + exists d. by apply getProp_NoDup.
  - assert (NoDup ([(k, Some 0%Z)] : IIndexDictionary).*1) as Hnodup
      by apply NoDup_singleton.
    assert ((k, Some 0%Z) ∈ ([(k, Some 0%Z)] : IIndexDictionary)) as Hin
      by (apply elem_of_cons; by left).
    destruct (getDynamoDbUpdateItemParams_increment indexId [(k, Some 0%Z)]
                w name Hname Hnodup) as (ddbParams & Hbuilt & Heval).
    { by apply (validKeysOf_not_empty _ k 0%Z). }
    exists ddbParams. split; [done|].
    intros db old prior Hdb Hitem Hid Hold Hk.
    rewrite (Heval db old prior Hdb Hitem Hid Hold).
    assert (incremented [(k, Some 0%Z)] prior (validKeysOf [(k, Some 0%Z)])
            = <[k := 0%Z]> prior) as ->; [|done].
    apply map_eq. intros key. rewrite incremented_validKeys. cbn [getProp].
    destruct (decide (k = key)) as [->|Hne].
    + by rewrite lookup_insert_eq, Hk.
    + by rewrite lookup_insert_ne.
  - intros h indexObject Hk Hcross. cbv zeta.
    destruct (pruneLoops_spec indexObject h) as (Hc & _ & _ & Ht).
    destruct (Ht Hcross) as [Htags Hflag]. rewrite Hc. cbn [tags defaultIndex].
    split.
    + rewrite Hflag. apply orb_true_iff. right. apply hasDropped_true.
      by exists k, 0%Z.
    + intros Hdefault.
      rewrite Htags, lookup_union, Hdefault, keptEntries_None; [done|].
      by rewrite lookup_positiveEntries, Hk.
  - intros h indexObject Hk. cbv zeta.
    destruct (pruneLoops_spec indexObject h) as (Hc & Hpeople & _ & Ht).
    rewrite Hc. cbn [people defaultIndex]. split.
    + intros Hcross. destruct (Ht Hcross) as [_ ->].
      apply orb_true_iff. left. apply hasDropped_true. by exists k, 0%Z.
    + intros Hdefault.
      rewrite Hpeople, lookup_union, Hdefault, keptEntries_None; [done|].
      by rewrite lookup_positiveEntries, Hk.
Qed.

Lemma zero_delta_creates_zero_counter_witness :
  let w := freshWorld [] emptyDb in
  configured w "indexes"
  ∧ ∃ ddbParams,
      getDynamoDbUpdateItemParams "tags" (Some [("b", Some 0%Z)]) w
      = (Resolved (Some ddbParams), w)
      ∧ ∃ db, DynamoDb.updateItem ddbParams exampleDb
              = inr ({| Attributes :=
                          Some {| item_id := "tags";
                                  item_indexKeys :=
                                    Some (<["b" := 0%Z]> {[ "a" := 5%Z ]});
                                  item_updatedAt := Some 1000%Z |} |}, db).
Proof.
  assert (configured (freshWorld [] emptyDb) "indexes") as Hname.
  { split; [reflexivity|discriminate]. }
  cbv zeta. split; [exact Hname|].
  destruct (zero_delta_creates_zero_counter (S := DynamoDb.Db) "tags" "b"
              (freshWorld [] emptyDb) "indexes" Hname)
    as (_ & (ddbParams & Hbuilt & Heval) & _).
  exists ddbParams. split; [exact Hbuilt|]. eexists.
  apply (Heval exampleDb exampleRecord {[ "a" := 5%Z ]}); reflexivity.
Defined.

(** A write with the delta [{red: 0}] for a tag never counted, then a read,
    in a process that has just loaded the module: the write leaves
    [red = 0] in the record of "tags"; the read returns no tag and leaves
    the record without [red]. *)
Example zero_delta_then_read :
  let written := putItem zeroDelta (freshWorld [] emptyDb) in
  let read := getItem written.2 in
  storedTags written.2 = Some {[ "red" := 0%Z ]}
  ∧ storedTags read.2 = Some ∅
  ∧ ∃ payload,
      read.1 = success payload
      ∧ getMap (objects read.2) (tags (get_cleanZeroIndexesObject payload)) = ∅.
Proof.
  cbv zeta. split; [vm_compute; reflexivity|].
  split; [vm_compute; reflexivity|].
  eexists. split; vm_compute; reflexivity.
Qed.

(** ** The stale entries, through the handlers

    One process serves a read of a table where bob is counted once and red
    twice.  Then bob's count is taken down to zero, and the same process
    serves a second read: the record of "people" it decodes has [bob = 0],
    yet the cleaned index it answers with, and writes back to the table, has
    bob counted once again. *)
Example read_brings_back_dropped_entry :
  let read1 := getItem (freshWorld [] countedDb) in
  let decrement := putItem decrementBob read1.2 in
  let read2 := getItem decrement.2 in
  storedPeople decrement.2 = Some {[ "bob" := 0%Z ]}
  ∧ storedPeople read2.2 = Some {[ "bob" := 1%Z ]}
  ∧ ∃ payload,
      read2.1 = success payload
      ∧ getMap (objects read2.2) (people (get_indexesObject payload))
        = {[ "bob" := 0%Z ]}
      ∧ getMap (objects read2.2) (people (get_cleanZeroIndexesObject payload))
        = {[ "bob" := 1%Z ]}.
Proof.
  cbv zeta. split; [vm_compute; reflexivity|].
  split; [vm_compute; reflexivity|].
  eexists. split; [vm_compute; reflexivity|]. split; vm_compute; reflexivity.
Qed.

(** The same process, after the two items were deleted from the table
    instead: the read finds no record and still answers with bob and red. *)
Example read_after_reset_is_not_empty :
  let read1 := getItem (freshWorld [] countedDb) in
  let read2 := getItem (resetTable read1.2) in
  ∃ payload,
    read2.1 = success payload
    ∧ Responses (get_ddbResponse payload) = Some [("indexes", [])]
    ∧ getMap (objects read2.2) (people (get_indexesObject payload))
      = {[ "bob" := 1%Z ]}
    ∧ getMap (objects read2.2) (tags (get_indexesObject payload))
      = {[ "red" := 2%Z ]}.
Proof.
  cbv zeta. eexists. split; [vm_compute; reflexivity|].
  split; [vm_compute; reflexivity|]. split; vm_compute; reflexivity.
Qed.

(** * Further properties of the handlers *)

(** ** What pruning keeps *)

Lemma allPositive_positiveEntries m : allPositive (positiveEntries m).
Proof.
  intros k v. rewrite lookup_positiveEntries.
  destruct (m !! k) as [x|]; [|done]. case_decide; [|done]. by intros [= <-].
Qed.

Lemma allPositive_union m1 m2 :
  allPositive m1 → allPositive m2 → allPositive (m1 ∪ m2).
Proof.
  intros H1 H2 k v [Hk|[_ Hk]]%lookup_union_Some_raw; [by eapply H1|by eapply H2].
Qed.

Lemma allPositive_empty : allPositive ∅.
Proof. intros k v Hk. by rewrite lookup_empty in Hk. Qed.

Lemma allPositive_hasDropped m : allPositive m ↔ hasDropped m = false.
Proof. by rewrite hasDropped_false. Qed.

Lemma positiveEntries_union_self m : positiveEntries m ∪ m = m.
Proof.
  apply map_eq. intros k. rewrite lookup_union, lookup_positiveEntries.
  destruct (m !! k) as [v|]; [|done]. by case_decide.
Qed.

Lemma keptEntries_union_self old m : keptEntries old m ∪ m = m.
Proof.
  apply map_eq. intros k. rewrite lookup_union, lookup_keptEntries.
  destruct (m !! k) as [v|]; [|done]. by case_decide.
Qed.

Lemma defaultsPositive_at_load : defaultsPositive heap_at_load.
Proof.
  assert (getMap heap_at_load (people defaultIndex) = ∅) as Hp
    by (vm_compute; reflexivity).
  assert (getMap heap_at_load (tags defaultIndex) = ∅) as Ht
    by (vm_compute; reflexivity).
  unfold defaultsPositive. rewrite Hp, Ht. split; apply allPositive_empty.
Qed.

Lemma allPositive_keptEntries old m : allPositive (keptEntries old m).
Proof.
  intros k v. rewrite lookup_keptEntries.
  destruct (m !! k) as [x|]; [|done]. case_decide as Hx; [|done].
  intros [= <-]. tauto.
Qed.

Lemma pruneLoops_positive indexObject h :
  defaultsPositive h → defaultsPositive (pruneLoops indexObject h).2.
Proof.
  intros [Hp Ht]. unfold pruneLoops, defaultsPositive.
  cbn [fst snd people tags defaultIndex] in *.
  set (st0 := (false, h)).
  destruct (cleanLoop_spec (people indexObject) loc_defaultPeople st0)
    as (_ & Ho1 & _ & Hc1).
  set (st1 := cleanLoop (people indexObject) loc_defaultPeople st0) in *.
  destruct (cleanLoop_spec (tags indexObject) loc_defaultTags st1)
    as (_ & Ho2 & _ & Hc2).
  set (st2 := cleanLoop (tags indexObject) loc_defaultTags st1) in *.
  cbn [fst snd] in *. split.
  - rewrite Ho2 by done. rewrite Hc1.
    apply allPositive_union; [apply allPositive_keptEntries|done].
  - rewrite Hc2. apply allPositive_union; [apply allPositive_keptEntries|].
    by rewrite Ho1.
Qed.

(** A write into a map of the value it already has leaves the heap as it
    is. *)
Lemma setProp_same l k v h : getMap h l !! k = Some v → setProp l k v h = h.
Proof.
  unfold setProp. case_decide; [|done]. unfold getMap.
  rewrite lookup_total_alt.
  destruct (h !! l) as [m|] eqn:Hl; simpl.
  - intros Hk. rewrite (insert_id m k v Hk). by apply insert_id.
  - intros Hk. by rewrite lookup_empty in Hk.
Qed.

Lemma cleanRounds_self l ks b h :
  allPositive (getMap h l) → foldl (cleanStep l l) (b, h) ks = (b, h).
Proof.
  intros Hpos. induction ks as [|p ks IH]; [done|]. cbn [foldl].
  assert (cleanStep l l (b, h) p = (b, h)) as ->; [|done].
  unfold cleanStep. cbn [fst snd].
  destruct (getMap h l !! p) as [v|] eqn:Hp; [|done].
  destruct (Z.leb_spec v 0) as [Hv|Hv].
  - specialize (Hpos p v Hp). lia.
  - by rewrite setProp_same.
Qed.

Lemma pruneLoops_defaultIndex h :
  defaultsPositive h → pruneLoops defaultIndex h = (defaultIndex, false, h).
Proof.
  intros [Hp Ht]. unfold pruneLoops, cleanLoop.
  cbn [fst snd people tags defaultIndex] in *.
  rewrite cleanRounds_self by done. cbn [fst snd].
  by rewrite cleanRounds_self.
Qed.

Lemma withObjects_same {S} (w : World S) : withObjects (objects w) w = w.
Proof. by destruct w. Qed.

Section Pruning.
Context {S : Type} `{!DocumentClient S}.
Implicit Types (w : World S) (indexObject : IIndex).

(** The requests of [cleanZeroIndexes]: none, or the one batch write of the
    cleaned index. *)
Lemma cleanZeroIndexes_calls indexObject w :
  let r := cleanZeroIndexes indexObject w in
  calls r.2 = calls w
  ∨ ∃ name,
      calls r.2
      = calls w ++ [CallBatchWrite (cleanIndexesParams name (objects r.2)
                                      defaultIndex)].
Proof.
  cbv zeta. rewrite cleanZeroIndexes_unfold. cbv zeta.
  destruct (pruneLoops_spec indexObject (objects w)) as (Hc & _).
  destruct (pruneLoops indexObject (objects w)) as [[c u] h']. simpl in *.
  subst c. destruct u; [|by left].
  unfold andThen, updateCleanIndexes; open_bind. unfold getIndexTableName.
  simpl. destruct (DYNAMODB_TABLE_INDEXES w) as [name|]; [|by left].
  case_decide; [by left|]. right. exists name.
  unfold resolve, getHeap, dynamodb_batchWrite. rewrite send_unfold. simpl.
  by destruct (ddb_batchWrite _ (table w)).1.
Qed.

(** X1: when the two maps of [defaultIndex] hold positive counts only, as
    they do when the module is loaded, they still do after
    [cleanZeroIndexes], whatever the input and whatever becomes of the write;
    the index it resolves with holds positive counts only, and so do the two
    maps of the batch write, when one is sent. *)
Theorem cleaned_counts_are_positive indexObject w :
  defaultsPositive (objects w) →
  let r := cleanZeroIndexes indexObject w in
  defaultsPositive (objects r.2)
  ∧ (∀ cleaned,
       r.1 = Resolved cleaned →
       allPositive (getMap (objects r.2) (people cleaned))
       ∧ allPositive (getMap (objects r.2) (tags cleaned)))
  ∧ (∀ p,
       CallBatchWrite p ∈ calls r.2 → CallBatchWrite p ∉ calls w →
       ∀ name requests it m,
         (name, requests) ∈ bw_RequestItems p →
         PutRequest it ∈ requests →
         item_indexKeys it = Some m → allPositive m).
Proof.
  intros Hpos. cbv zeta.
  assert (defaultsPositive (objects (cleanZeroIndexes indexObject w).2))
    as Hafter.
  { rewrite cleanZeroIndexes_objects. by apply pruneLoops_positive. }
  split; [done|]. split.
  - intros cleaned Hc. by rewrite (cleanZeroIndexes_result _ _ _ Hc).
  - intros p Hin Hnew name requests it m Hreq Hit Hm.
    destruct (cleanZeroIndexes_calls indexObject w) as [Hcalls|[n Hcalls]];
      cbv zeta in Hcalls; rewrite Hcalls in Hin; [done|].
    apply elem_of_app in Hin as [Hin|Hin]; [done|].
    apply elem_of_cons in Hin as [[= ->]|Hin];
      [|by apply elem_of_nil in Hin].
    cbn [cleanIndexesParams bw_RequestItems] in Hreq.
    apply elem_of_cons in Hreq as [[= -> ->]|Hreq];
      [|by apply elem_of_nil in Hreq].
    destruct Hafter as [Hp Ht].
    apply elem_of_cons in Hit as [[= ->]|Hit].
    { cbn [item_indexKeys] in Hm. by injection Hm as <-. }
    apply elem_of_cons in Hit as [[= ->]|Hit];
      [|by apply elem_of_nil in Hit].
    cbn [item_indexKeys] in Hm. by injection Hm as <-.
Qed.

(** X2: [cleanZeroIndexes] writes to no object but the two maps of
    [defaultIndex]; the maps of the index it is given hold after the call
    what they held before, unless the caller passes a map of [defaultIndex]
    in the other slot. *)
Theorem input_index_is_not_modified indexObject w :
  let r := cleanZeroIndexes indexObject w in
  (∀ l, l ≠ people defaultIndex → l ≠ tags defaultIndex →
        getMap (objects r.2) l = getMap (objects w) l)
  ∧ (people indexObject ≠ tags defaultIndex →
     tags indexObject ≠ people defaultIndex →
     getMap (objects r.2) (people indexObject)
     = getMap (objects w) (people indexObject)
     ∧ getMap (objects r.2) (tags indexObject)
       = getMap (objects w) (tags indexObject)).
Proof.
  cbv zeta. rewrite cleanZeroIndexes_objects.
  destruct (pruneLoops_spec indexObject (objects w)) as (_ & Hp & Ho & Ht).
  cbn [people tags defaultIndex]. split; [done|].
  intros Hpt Htp. destruct (Ht Htp) as [Ht' _]. split.
  - destruct (decide (people indexObject = loc_defaultPeople)) as [Heq|Hne].
    + rewrite Heq in *. by rewrite Hp, keptEntries_union_self.
    + by apply Ho.
  - destruct (decide (tags indexObject = loc_defaultTags)) as [Heq|Hne].
    + rewrite Heq in *. by rewrite Ht', keptEntries_union_self.
    + by apply Ho.
Qed.

(** X3: pruning the index a pruning returned changes nothing: with
    positive counts only in the maps of [defaultIndex], [cleanZeroIndexes] of
    [defaultIndex] resolves with it, sends no request and leaves the world as
    it is. *)
Theorem pruning_the_cleaned_index_is_idle w :
  defaultsPositive (objects w) →
  cleanZeroIndexes defaultIndex w = (Resolved defaultIndex, w).
Proof.
  intros Hpos. rewrite cleanZeroIndexes_unfold. cbv zeta.
  rewrite pruneLoops_defaultIndex by done. cbn [fst snd].
  by rewrite withObjects_same.
Qed.

(** The table name is there, or the configuration error is thrown; the
    world stays as it is. *)
Lemma getIndexTableName_cases w :
  (∃ name, configured w name ∧ getIndexTableName w = (Resolved name, w))
  ∨ ((¬ ∃ name, configured w name)
     ∧ getIndexTableName w = (Rejected noTableError, w)).
Proof.
  unfold getIndexTableName, configured.
  destruct (DYNAMODB_TABLE_INDEXES w) as [name|] eqn:Henv.
  - case_decide as Hname.
    + right. split; [|done]. intros (n & [= <-] & Hne). done.
    + left. by exists name.
  - right. split; [|done]. intros (n & Hn & _). done.
Qed.

(** X4: [parseIndexesObject] only reads: it leaves the world as it is and
    sends no request.  It resolves unless the answer has [Responses] and the
    table name is missing (the configuration error) or the table is not
    listed there (the TypeError of [.find]); without [Responses] it resolves
    with [defaultIndex] itself. *)
Theorem decoding_only_reads ddbResponse w :
  let r := parseIndexesObject ddbResponse w in
  r.2 = w
  ∧ (∀ e, r.1 = Rejected e →
       ∃ responses,
         Responses ddbResponse = Some responses
         ∧ ((e = noTableError
             ∧ ¬ ∃ name, configured w name)
            ∨ (e = typeError "Cannot read property 'find' of undefined"
               ∧ ∃ name, configured w name
                         ∧ tableItems responses name = None)))
  ∧ (Responses ddbResponse = None → r.1 = Resolved defaultIndex).
Proof.
  cbv zeta. destruct ddbResponse as [[responses|]]; [|by repeat split].
  destruct (getIndexTableName_cases w) as [(name & Hname & Hget)|[Hno Hget]].
  - destruct (tableItems responses name) as [items|] eqn:Hitems.
    + rewrite (parseIndexesObject_configured w name responses items) by done.
      by repeat split.
    + assert (parseIndexesObject {| Responses := Some responses |} w
              = (Rejected
                   (typeError "Cannot read property 'find' of undefined"), w))
        as ->.
      { unfold parseIndexesObject, findRecord; open_bind. cbn [Responses].
        by rewrite Hget, Hitems. }
      split; [done|]. split; [|done]. intros e [= <-]. exists responses.
      split; [done|]. right. split; [done|]. by exists name.
  - assert (parseIndexesObject {| Responses := Some responses |} w
            = (Rejected noTableError, w)) as ->.
    { unfold parseIndexesObject, findRecord; open_bind. cbn [Responses].
      by rewrite Hget. }
    split; [done|]. split; [|done]. intros e [= <-]. exists responses.
    split; [done|]. by left.
Qed.

End Pruning.

Lemma defaultsPositive_empty h :
  getMap h (people defaultIndex) = ∅ → getMap h (tags defaultIndex) = ∅ →
  defaultsPositive h.
Proof.
  intros Hp Ht. unfold defaultsPositive. rewrite Hp, Ht.
  split; apply allPositive_empty.
Qed.

Lemma cleaned_counts_are_positive_witness :
  let w := freshWorld testObjects emptyDb in
  defaultsPositive (objects w)
  ∧ defaultsPositive (objects (cleanZeroIndexes testIndex w).2).
Proof.
  assert (defaultsPositive (objects (freshWorld testObjects emptyDb))) as Hpos.
  { apply defaultsPositive_empty; vm_compute; reflexivity. }
  cbv zeta. split; [exact Hpos|].
  destruct (cleaned_counts_are_positive testIndex
              (freshWorld testObjects emptyDb) Hpos) as [Hafter _].
  exact Hafter.
Defined.

Lemma pruning_the_cleaned_index_is_idle_witness :
  let w := (cleanZeroIndexes testIndex (freshWorld testObjects emptyDb)).2 in
  defaultsPositive (objects w)
  ∧ cleanZeroIndexes defaultIndex w = (Resolved defaultIndex, w).
Proof.
  assert (defaultsPositive
            (objects (cleanZeroIndexes testIndex
                        (freshWorld testObjects emptyDb)).2)) as Hpos.
  { rewrite cleanZeroIndexes_objects. apply pruneLoops_positive.
    apply defaultsPositive_empty; vm_compute; reflexivity. }
  cbv zeta. split; [exact Hpos|].
  apply (pruning_the_cleaned_index_is_idle _ Hpos).
Defined.

(** ** The requests of a write *)

Section UpdateRequests.
Context {S : Type} `{!DocumentClient S}.
Implicit Types (w : World S).

(** The requests [updateAndHandleEmptyMap] sends: the increment, then
    perhaps the bootstrap write, then perhaps the increment again. *)
Lemma updateAndHandleEmptyMap_sent ddbParams w :
  let r := updateAndHandleEmptyMap ddbParams w in
  (∃ sent,
     calls r.2 = calls w ++ sent
     ∧ (sent = [CallUpdate ddbParams]
        ∨ sent = [CallUpdate ddbParams; CallUpdate (setMapParams ddbParams)]
        ∨ sent = [CallUpdate ddbParams; CallUpdate (setMapParams ddbParams);
                  CallUpdate ddbParams]))
  ∧ objects r.2 = objects w
  ∧ DYNAMODB_TABLE_INDEXES r.2 = DYNAMODB_TABLE_INDEXES w
  ∧ clock r.2 = clock w.
Proof.
  cbv zeta. rewrite updateAndHandleEmptyMap_unfold. cbv zeta.
  destruct (ddb_update ddbParams (table w)).1 as [e|output].
  - destruct (isMissingPath e).
    + destruct (ddb_update (setMapParams ddbParams) _).1 as [e'|output'].
      * split; [|done]. eexists. split; [|right; left; reflexivity].
        cbn [snd calls afterCall]. by rewrite <- app_assoc.
      * split; [|done]. eexists. split; [|right; right; reflexivity].
        cbn [snd calls afterCall]. by rewrite <- !app_assoc.
    + split; [|done]. eexists. split; [|left; reflexivity]. done.
  - split; [|done]. eexists. split; [|left; reflexivity]. done.
Qed.

(** X5: [updateAndHandleEmptyMap] sends one, two or three requests and no
    more: the increment, then at most once the bootstrap write, then at most
    once the increment again; it touches no object of the heap.  When the
    first increment succeeds nothing else is sent and its output is the
    result. *)
Theorem increment_sends_at_most_three_requests ddbParams w :
  let r := updateAndHandleEmptyMap ddbParams w in
  let first := ddb_update ddbParams (table w) in
  (∃ sent,
     calls r.2 = calls w ++ sent
     ∧ (sent = [CallUpdate ddbParams]
        ∨ sent = [CallUpdate ddbParams; CallUpdate (setMapParams ddbParams)]
        ∨ sent = [CallUpdate ddbParams; CallUpdate (setMapParams ddbParams);
                  CallUpdate ddbParams]))
  ∧ objects r.2 = objects w
  ∧ (∀ output,
       first.1 = inr output →
       r = (Resolved output, afterCall (CallUpdate ddbParams) first.2 w))
  ∧ (∀ output,
       r.1 = Resolved output →
       ∃ s, (ddb_update ddbParams s).1 = inr output).
Proof.
  cbv zeta. destruct (updateAndHandleEmptyMap_sent ddbParams w)
    as (Hsent & Hobjects & _).
  split; [done|]. split; [done|].
  rewrite updateAndHandleEmptyMap_unfold. cbv zeta. split.
  - by intros output ->.
  - intros output.
    destruct (ddb_update ddbParams (table w)).1 as [e|output'] eqn:Hfirst.
    + destruct (isMissingPath e); [|done].
      destruct (ddb_update (setMapParams ddbParams) _).1 as [e'|o]; [done|].
      cbn [fst].
      match goal with
      | |- match ?answer with inl _ => _ | inr _ => _ end = _ → _ =>
          destruct answer as [e'|output'] eqn:Hretry; [done|]
      end.
      intros [= <-]. eexists. exact Hretry.
    + intros [= <-]. eexists. exact Hfirst.
Qed.

(** [getDynamoDbUpdateItemParams] never changes the world; a request it
    builds is keyed by the slot and addressed to the configured table. *)
Lemma getDynamoDbUpdateItemParams_cases indexId indexData w :
  (∃ e, getDynamoDbUpdateItemParams indexId indexData w = (Rejected e, w))
  ∨ getDynamoDbUpdateItemParams indexId indexData w = (Resolved None, w)
  ∨ ∃ ddbParams,
      getDynamoDbUpdateItemParams indexId indexData w
      = (Resolved (Some ddbParams), w)
      ∧ Key ddbParams = {| key_id := indexId |}
      ∧ ConditionExpression ddbParams = None
      ∧ configured w (TableName ddbParams).
Proof.
  unfold getDynamoDbUpdateItemParams; open_bind. cbn [Date_now].
  destruct indexData as [indexData|]; [|left; by eexists].
  case_bool_decide; [|right; by left].
  destruct (getIndexTableName_cases w) as [(name & Hname & ->)|[_ ->]].
  - right. right. eexists. split; [reflexivity|]. done.
  - left. by eexists.
Qed.

(** X6: every request [updateIndexRecord] sends for a slot is an update
    keyed by that slot and addressed to the configured table, the bootstrap
    write being the only one with a condition; there are at most three, and
    none when the table name is missing.  The heap is not touched. *)
Theorem update_requests_target_the_slot indexId indexData w :
  let r := updateIndexRecord indexId indexData w in
  objects r.2 = objects w
  ∧ ∃ sent,
      calls r.2 = calls w ++ sent
      ∧ length sent ≤ 3
      ∧ ((¬ ∃ name, configured w name) → sent = [])
      ∧ ∀ c, c ∈ sent →
             ∃ p, c = CallUpdate p
                  ∧ Key p = {| key_id := indexId |}
                  ∧ configured w (TableName p).
Proof.
  cbv zeta. unfold updateIndexRecord; open_bind.
  destruct (getDynamoDbUpdateItemParams_cases indexId indexData w)
    as [[e ->] | [-> | (p & -> & Hkey & _ & Hname)]].
  - split; [done|]. exists []. rewrite app_nil_r. repeat split; [simpl; lia|].
    intros c Hc. by apply elem_of_nil in Hc.
  - split; [done|]. exists []. rewrite app_nil_r. repeat split; [simpl; lia|].
    intros c Hc. by apply elem_of_nil in Hc.
  - destruct (updateAndHandleEmptyMap_sent p w)
      as ((sent & Hcalls & Hshape) & Hobjects & _). cbv zeta in *.
    destruct (updateAndHandleEmptyMap p w) as [[output|e] w'];
      cbn [fst snd mret M_ret resolve] in *.
    all: split; [done|]; exists sent; split; [done|].
    all: split; [destruct Hshape as [-> | [-> | ->]]; simpl; lia|].
    all: split; [intros Hno; exfalso; apply Hno; by eexists|].
    all: intros c Hc; destruct Hshape as [-> | [-> | ->]].
    all: repeat (apply elem_of_cons in Hc as [->|Hc]);
      try (by apply elem_of_nil in Hc); by eexists.
Qed.

End UpdateRequests.

(** ** The two handlers, for any client *)

Section HandlerRequests.
Context {S : Type} `{!DocumentClient S}.
Implicit Types (w : World S).

Lemma parseIndexesObject_world ddbResponse w :
  (parseIndexesObject ddbResponse w).2 = w.
Proof.
  destruct ddbResponse as [[responses|]]; [|done].
  unfold parseIndexesObject, findRecord; open_bind. cbn [Responses].
  destruct (getIndexTableName_cases w) as [(name & Hname & ->)|[_ ->]];
    [|done].
  destruct (tableItems responses name) as [items|]; [|done].
  cbn [mret M_ret resolve]. destruct (getIndexTableName_cases w)
    as [(name' & Hname' & ->)|[_ ->]]; [|done].
  by destruct (tableItems responses name').
Qed.

Lemma updateIndexRecord_unset indexId indexData w :
  (¬ ∃ name, configured w name) →
  validKeysOf indexData ≠ [] →
  updateIndexRecord indexId (Some indexData) w = (Rejected noTableError, w).
Proof.
  intros Hno Hkeys.
  unfold updateIndexRecord, getDynamoDbUpdateItemParams; open_bind.
  cbn [Date_now]. rewrite bool_decide_eq_true_2.
  - by destruct (getIndexTableName_cases w) as [(name & Hname & _)|[_ ->]];
      [exfalso; apply Hno; eexists|].
  - destruct (validKeysOf indexData); [done|]. simpl. lia.
Qed.

Lemma updateIndexRecord_skip indexId indexData w :
  validKeysOf indexData = [] →
  updateIndexRecord indexId (Some indexData) w = (Resolved None, w).
Proof.
  intros Hkeys. unfold updateIndexRecord; open_bind.
  by rewrite getDynamoDbUpdateItemParams_null.
Qed.

(** [getItem], step by step, once the table name is there. *)
Lemma getItem_unfold w name :
  configured w name →
  let ddbParams :=
    {| bg_RequestItems :=
         [(name, [{| key_id := TAGS_ID |}; {| key_id := PEOPLE_ID |}])] |} in
  let answer := ddb_batchGet ddbParams (table w) in
  let w1 := afterCall (CallBatchGet ddbParams) answer.2 w in
  getItem w
  = match answer.1 with
    | inl e => (failure e, w1)
    | inr data =>
        let decoded := unmarshall data (objects w1) in
        let w2 := withObjects decoded.2 w1 in
        match (parseIndexesObject decoded.1 w2).1 with
        | Rejected e => (failure e, w2)
        | Resolved indexesObject =>
            let cleaned := cleanZeroIndexes indexesObject w2 in
            match cleaned.1 with
            | Rejected e => (failure e, cleaned.2)
            | Resolved cleanZeroIndexesObject =>
                (success
                   {| get_ddbParams := ddbParams;
                      get_ddbResponse := decoded.1;
                      get_indexesObject := indexesObject;
                      get_cleanZeroIndexesObject := cleanZeroIndexesObject |},
                 cleaned.2)
            end
        end
    end.
Proof.
  intros Hname. cbv zeta.
  unfold getItem, getDynamoDbBatchGetItemParams, getIndexRecords,
    dynamodb_batchGet; open_bind.
  rewrite (getIndexTableName_configured w name) by done.
  cbn [mret M_ret resolve]. rewrite send_unfold.
  destruct (ddb_batchGet _ (table w)) as [[e|data] s1]; [done|].
  cbn [fst snd onHeap].
  match goal with
  | |- context [parseIndexesObject ?r ?w2] =>
      pose proof (parseIndexesObject_world r w2) as Hworld;
      destruct (parseIndexesObject r w2) as [[indexes|e] w2']
  end; cbn [fst snd] in *; subst; [|done].
  match goal with
  | |- context [cleanZeroIndexes ?i ?w2] =>
      by destruct (cleanZeroIndexes i w2) as [[c|e] w3]
  end.
Qed.

(** X7: with the table name set, [getItem] first sends one batch read of
    the two slots, "tags" then "people", and after it at most one batch
    write of the cleaned index; it never sends an update.  When the batch
    read fails, its error is the failure response and nothing else is sent
    and no object is touched. *)
Theorem read_sends_one_read_and_at_most_one_write w name :
  configured w name →
  let ddbParams :=
    {| bg_RequestItems :=
         [(name, [{| key_id := "tags" |}; {| key_id := "people" |}])] |} in
  let answer := ddb_batchGet ddbParams (table w) in
  (∃ rest,
     calls (getItem w).2 = calls w ++ CallBatchGet ddbParams :: rest
     ∧ (rest = []
        ∨ ∃ table h,
            rest = [CallBatchWrite (cleanIndexesParams table h defaultIndex)]))
  ∧ (∀ e, answer.1 = inl e →
          getItem w = (failure e, afterCall (CallBatchGet ddbParams) answer.2 w)).
Proof.
  intros Hname. cbv zeta. rewrite (getItem_unfold w name Hname). cbv zeta.
  unfold TAGS_ID, PEOPLE_ID.
  destruct (ddb_batchGet _ (table w)) as [[e|data] s1]; cbn [fst snd].
  { split; [|by intros ? [= <-]]. exists []. split; [done|by left]. }
  split; [|done].
  match goal with
  | |- context [parseIndexesObject ?r ?w2] =>
      destruct (parseIndexesObject r w2).1 as [indexes|e]
  end.
  2:{ exists []. split; [done|by left]. }
  match goal with
  | |- context [cleanZeroIndexes ?i ?w2] =>
      pose proof (cleanZeroIndexes_calls i w2) as Hcalls;
      destruct (cleanZeroIndexes i w2) as [[c|e] w3]
  end; cbv zeta in Hcalls; cbn [fst snd calls withObjects afterCall] in *.
  all: destruct Hcalls as [->|[table ->]];
    [exists []; split; [done|by left]|].
  all: eexists; rewrite <- app_assoc; split; [reflexivity|].
  all: right; by eexists _, _.
Qed.

(** X8: a request that cannot be read touches nothing: when [JSON.parse]
    throws, the thrown error is the failure response; when the parsed body
    has no [indexUpdate], the response is the failure of a TypeError; in both
    cases no request is sent and the world is as before. *)
Theorem malformed_request_touches_nothing event w :
  (∀ e, body_json event = inl e → putItem event w = (failure e, w))
  ∧ (∀ requestBody,
       body_json event = inr requestBody →
       indexUpdate requestBody = None →
       ∃ e, putItem event w = (failure e, w) ∧ err_name e = "TypeError").
Proof.
  split.
  - intros e He. unfold putItem; open_bind. by rewrite He.
  - intros requestBody Hbody Hnone. eexists.
    unfold putItem, readIndexUpdate; open_bind. rewrite Hbody.
    cbn [mret M_ret resolve]. rewrite Hnone. split; reflexivity.
Qed.

(** X9: without a table name (unset or empty) no handler reaches the
    table: [getItem] answers the failure of the configuration error, and so
    does [putItem] as soon as a slot has a valid delta, both leaving the
    world as it is. *)
Theorem handlers_need_the_table_name w :
  (¬ ∃ name, configured w name) →
  getItem w = (failure noTableError, w)
  ∧ ∀ event requestBody u tagsData,
      body_json event = inr requestBody →
      indexUpdate requestBody = Some u →
      update_tags u = Some tagsData →
      (validKeysOf tagsData ≠ [] →
       putItem event w = (failure noTableError, w))
      ∧ (∀ peopleData,
           validKeysOf tagsData = [] →
           update_people u = Some peopleData →
           validKeysOf peopleData ≠ [] →
           putItem event w = (failure noTableError, w)).
Proof.
  intros Hno. split.
  - unfold getItem, getDynamoDbBatchGetItemParams; open_bind.
    by destruct (getIndexTableName_cases w) as [(name & Hname & _)|[_ ->]];
      [exfalso; apply Hno; eexists|].
  - intros event requestBody u tagsData Hbody Hupdate Htags.
    pose proof (putItem_unfold event requestBody u w Hbody Hupdate) as Hput.
    cbv zeta in Hput. rewrite Htags in Hput. split.
    + intros Hkeys. by rewrite Hput, updateIndexRecord_unset.
    + intros peopleData Hkeys Hpeople Hvalid.
      rewrite Hput, updateIndexRecord_skip by done. cbn [fst snd].
      by rewrite Hpeople, updateIndexRecord_unset.
Qed.

End HandlerRequests.

Lemma read_sends_one_read_and_at_most_one_write_witness :
  let w := freshWorld [] countedDb in
  configured w "indexes"
  ∧ ∃ rest,
      calls (getItem w).2
      = CallBatchGet
          {| bg_RequestItems :=
               [("indexes", [{| key_id := "tags" |}; {| key_id := "people" |}])] |}
        :: rest.
Proof.
  assert (configured (freshWorld [] countedDb) "indexes") as Hname.
  { split; [reflexivity|discriminate]. }
  cbv zeta. split; [exact Hname|].
  destruct (read_sends_one_read_and_at_most_one_write
              (freshWorld [] countedDb) "indexes" Hname)
    as ((rest & Hcalls & _) & _).
  exists rest. exact Hcalls.
Defined.

Lemma handlers_need_the_table_name_witness :
  (¬ ∃ name, configured unconfigured name)
  ∧ getItem unconfigured = (failure noTableError, unconfigured).
Proof.
  assert (¬ ∃ name, configured unconfigured name) as Hno.
  { intros (name & Henv & _). discriminate Henv. }
  split; [exact Hno|].
  destruct (handlers_need_the_table_name unconfigured Hno) as [Hget _].
  exact Hget.
Defined.

(** ** The requests of a write, as DynamoDB answers them *)

Lemma getDynamoDbUpdateItemParams_built {S} `{!DocumentClient S}
    indexId (indexData : IIndexDictionary) (w : World S) name :
  configured w name →
  validKeysOf indexData ≠ [] →
  getDynamoDbUpdateItemParams indexId (Some indexData) w
  = (Resolved (Some (incrementParams indexId indexData (clock w) name)), w).
Proof.
  intros Hname Hne. unfold getDynamoDbUpdateItemParams; open_bind.
  cbn [Date_now]. rewrite bool_decide_eq_true_2.
  - by rewrite (getIndexTableName_configured w name).
  - destruct (validKeysOf indexData); [done|]. simpl. lia.
Qed.



(** The bootstrap write, as DynamoDB answers it. *)
Lemma updateItem_setMapParams ddbParams db :
  TableName ddbParams = DynamoDb.db_name db →
  let id := key_id (Key ddbParams) in
  let old := recordOf db id in
  DynamoDb.updateItem (setMapParams ddbParams) db
  = match item_indexKeys old with
    | Some _ => inl DynamoDb.conditionalCheckFailed
    | None =>
        inr ({| Attributes := None |},
             {| DynamoDb.db_name := DynamoDb.db_name db;
                DynamoDb.db_items :=
                  <[id := {| item_id := item_id old;
                             item_indexKeys := Some ∅;
                             item_updatedAt := item_updatedAt old |}]>
                    (DynamoDb.db_items db) |})
    end.
Proof.
  intros Hname. cbv zeta. unfold DynamoDb.updateItem, setMapParams.
  cbn [TableName ExpressionAttributeNames ExpressionAttributeValues
       UpdateExpression Key ReturnValues].
  rewrite Hname, String.eqb_refl. cbn [negb].
  assert (DynamoDb.parseUpdateExpression "SET #indexKeysProp = :emptyMap"
          = Some [{| DynamoDb.target := ["#indexKeysProp"];
                     DynamoDb.assigned :=
                       DynamoDb.Single (DynamoDb.ValueRef ":emptyMap") |}])
    as -> by (vm_compute; reflexivity).
  cbn [DynamoDb.orError DynamoDb.bindR].
  assert (DynamoDb.resolvePath {[ "#indexKeysProp" := INDEX_KEYS_PROP ]}
            ["#indexKeysProp"] = Some ["indexKeys"]) as Hpath
    by (vm_compute; reflexivity).
  unfold DynamoDb.mapR, DynamoDb.resolveTarget. cbn [DynamoDb.target].
  rewrite Hpath. cbn [DynamoDb.orError DynamoDb.bindR].
  change (DynamoDb.classify ["indexKeys"]) with (Some DynamoDb.PathIndexKeys).
  cbn [DynamoDb.orError DynamoDb.bindR DynamoDb.overlapping existsb orb].
  fold (recordOf db (key_id (Key ddbParams))).
  unfold DynamoDb.checkCondition. cbn [ConditionExpression].
  assert (DynamoDb.parseCondition "attribute_not_exists(#indexKeysProp)"
          = Some ["#indexKeysProp"]) as -> by (vm_compute; reflexivity).
  cbn [DynamoDb.orError DynamoDb.bindR ExpressionAttributeNames].
  rewrite Hpath. cbn [DynamoDb.orError DynamoDb.bindR].
  change (DynamoDb.classify ["indexKeys"]) with (Some DynamoDb.PathIndexKeys).
  cbn [mbind option_bind DynamoDb.readPath].
  destruct (item_indexKeys (recordOf db (key_id (Key ddbParams)))) as [m|];
    [done|].
  cbn [fmap list_fmap option_fmap option_map DynamoDb.bindR zip zip_with
       DynamoDb.assigned DynamoDb.applyActions DynamoDb.evalValue
       DynamoDb.evalOperand].
  rewrite lookup_singleton_eq.
  cbn [DynamoDb.orError DynamoDb.bindR DynamoDb.writePath].
  rewrite bool_decide_eq_false_2 by done. reflexivity.
Qed.

(** X10: the bootstrap write of [updateAndHandleEmptyMap] never replaces
    counters: on a record that has an [indexKeys] map DynamoDB rejects it
    with ConditionalCheckFailedException and the table stays as it is; on a
    record without one, or on no record, it stores the empty map and keeps
    the record's [updatedAt]; no other record is touched. *)
Theorem bootstrap_write_never_replaces_counters ddbParams db :
  TableName ddbParams = DynamoDb.db_name db →
  let id := key_id (Key ddbParams) in
  let answer := ddb_update (setMapParams ddbParams) db in
  (∀ counters,
     storedCounters db id = Some counters →
     answer = (inl DynamoDb.conditionalCheckFailed, db))
  ∧ (storedCounters db id = None →
     ∃ output,
       answer.1 = inr output
       ∧ storedCounters answer.2 id = Some ∅
       ∧ (DynamoDb.db_items answer.2 !! id ≫= item_updatedAt)
         = (DynamoDb.db_items db !! id ≫= item_updatedAt)
       ∧ ∀ other, other ≠ id →
           DynamoDb.db_items answer.2 !! other = DynamoDb.db_items db !! other).
Proof.
  intros Hname. cbv zeta. cbn [ddb_update DynamoDb.client].
  rewrite (updateItem_setMapParams ddbParams db Hname). cbv zeta.
  unfold storedCounters, recordOf.
  destruct (DynamoDb.db_items db !! key_id (Key ddbParams)) as [old|] eqn:Hold;
    cbn [default from_option id mbind option_bind].
  - split.
    + by intros counters ->.
    + intros ->. eexists. cbn [DynamoDb.answerUpdate fst snd DynamoDb.db_items].
      split; [reflexivity|]. rewrite lookup_insert_eq.
      cbn [mbind option_bind item_indexKeys item_updatedAt].
      repeat split. intros other Hother. by rewrite lookup_insert_ne.
  - split; [done|]. intros _. eexists.
    cbn [DynamoDb.answerUpdate fst snd DynamoDb.db_items DynamoDb.emptyItem
         item_indexKeys item_updatedAt item_id].
    split; [reflexivity|]. rewrite lookup_insert_eq.
    cbn [mbind option_bind item_indexKeys item_updatedAt].
    repeat split. intros other Hother. by rewrite lookup_insert_ne.
Qed.

Lemma bootstrap_write_never_replaces_counters_witness :
  TableName incrementRed = DynamoDb.db_name countedDb
  ∧ ddb_update (setMapParams incrementRed) countedDb
    = (inl DynamoDb.conditionalCheckFailed, countedDb).
Proof.
  assert (TableName incrementRed = DynamoDb.db_name countedDb) as Hname
    by reflexivity.
  split; [exact Hname|].
  destruct (bootstrap_write_never_replaces_counters incrementRed countedDb
              Hname) as [Hkept _].
  apply (Hkept {[ "red" := 2%Z ]}). vm_compute. reflexivity.
Defined.







(** ** A write, on the table *)


Lemma keyedById_insert db id it :
  keyedById db →
  item_id it = id →
  keyedById {| DynamoDb.db_name := DynamoDb.db_name db;
               DynamoDb.db_items := <[id := it]> (DynamoDb.db_items db) |}.
Proof.
  intros Hkeyed Hid k it' Hit. cbn [DynamoDb.db_items] in Hit.
  destruct (decide (k = id)) as [Heq|Hdiff].
  - rewrite Heq in *. rewrite lookup_insert_eq in Hit. congruence.
  - rewrite lookup_insert_ne in Hit by done. by apply Hkeyed.
Qed.

Lemma configured_atTime {S} (w : World S) t name :
  configured (atTime t w) name ↔ configured w name.
Proof. done. Qed.









(** ** A read, on the table *)

Lemma getMap_insert_eq (h : heap) l m : getMap (<[l := m]> h) l = m.
Proof. unfold getMap. by rewrite lookup_total_insert_eq. Qed.

Lemma getMap_insert_ne (h : heap) l l' m :
  l ≠ l' → getMap (<[l := m]> h) l' = getMap h l'.
Proof. intros Hne. unfold getMap. by rewrite lookup_total_insert_ne. Qed.

Lemma freshLoc_insert_ne (h : heap) l m : freshLoc (<[l := m]> h) ≠ l.
Proof.
  unfold freshLoc.
  set (X := {[loc_defaultPeople; loc_defaultTags]} ∪ dom (<[l := m]> h)).
  pose proof (is_fresh X) as Hfresh. intros Heq. apply Hfresh.
  rewrite Heq. subst X. set_solver.
Qed.

(** The batch read of the two slots, as the table answers it: the records
    it has, "tags" first. *)
Lemma batchGet_on_table (db : DynamoDb.Db) :
  ddb_batchGet
    {| bg_RequestItems :=
         [(DynamoDb.db_name db,
           [{| key_id := TAGS_ID |}; {| key_id := PEOPLE_ID |}])] |} db
  = (inr {| data_Responses :=
              Some [(DynamoDb.db_name db,
                     omap (λ k, DynamoDb.db_items db !! key_id k)
                       [{| key_id := TAGS_ID |}; {| key_id := PEOPLE_ID |}])] |},
     db).
Proof.
  cbn [ddb_batchGet DynamoDb.client]. unfold DynamoDb.batchGetItem.
  cbn [bg_RequestItems forallb fst snd map]. by rewrite String.eqb_refl.
Qed.

(** *** Numbers as the client reads them *)

Section Numbers.
Local Open Scope Z_scope.

(** A count below 2^53 in magnitude is read as it is. *)
Lemma convertNumber_small n : Z.abs n < 2 ^ 53 → convertNumber n = n.
Proof.
  intros Hn. unfold convertNumber. cbv zeta.
  destruct (Z.leb_spec (Z.log2 (Z.abs n) - 52) 0) as [|He]; [reflexivity|].
  exfalso.
  assert (0 < Z.abs n) as Hpos.
  { destruct (Z.eq_dec (Z.abs n) 0) as [H0|H0];
      [rewrite H0 in He; simpl in He; lia|lia]. }
  pose proof (Z.log2_lt_pow2 (Z.abs n) 53 Hpos) as [Hlt _].
  specialize (Hlt Hn). lia.
Qed.

Lemma log2_small a : 0 ≤ a → Z.log2 a - 52 ≤ 0 → a < 2 ^ 53.
Proof.
  intros Ha He. destruct (Z.eq_dec a 0) as [->|H0]; [reflexivity|].
  apply (Z.log2_lt_pow2 a 53); lia.
Qed.

(** Above that, it is read with 53 bits: the bits below are rounded away. *)
Lemma convertNumber_large n :
  0 < Z.log2 (Z.abs n) - 52 →
  ∃ q', 2 ^ 52 ≤ q' ≤ 2 ^ 53
        ∧ convertNumber n = Z.sgn n * (q' * 2 ^ (Z.log2 (Z.abs n) - 52)).
Proof.
  intros He. unfold convertNumber. cbv zeta.
  destruct (Z.leb_spec (Z.log2 (Z.abs n) - 52) 0) as [|_]; [lia|].
  set (a := Z.abs n) in *. set (e := Z.log2 a - 52) in *.
  assert (0 < a) as Hpos.
  { destruct (Z.eq_dec a 0) as [H0|H0];
      [subst e; rewrite H0 in He; simpl in He; lia|subst a; lia]. }
  destruct (Z.log2_spec a Hpos) as [Hlo Hhi].
  assert (Z.log2 a = 52 + e) as HL by (subst e; lia).
  rewrite HL in Hlo. replace (Z.succ (Z.log2 a)) with (53 + e) in Hhi by lia.
  rewrite Z.pow_add_r in Hlo, Hhi by lia.
  assert (0 < 2 ^ e) as Hpow by (apply Z.pow_pos_nonneg; lia).
  assert (2 ^ 52 ≤ a / 2 ^ e) as Hq1.
  { apply Z.div_le_lower_bound; [lia|]. rewrite Z.mul_comm. exact Hlo. }
  assert (a / 2 ^ e < 2 ^ 53) as Hq2.
  { apply Z.div_lt_upper_bound; [lia|]. rewrite Z.mul_comm. exact Hhi. }
  eexists. split; [|reflexivity].
  destruct (_ || _); lia.
Qed.

(** The numbers reading leaves as they are, are the integers with no more
    than 53 significant bits. *)
Lemma isDouble_spec n :
  isDouble n ↔ ∃ m e, 0 ≤ e ∧ Z.abs m < 2 ^ 53 ∧ n = m * 2 ^ e.
Proof.
  unfold isDouble. split.
  - intros <-. destruct (Z.leb_spec (Z.log2 (Z.abs n) - 52) 0) as [He|He].
    + assert (Z.abs n < 2 ^ 53) as Hn by (apply log2_small; lia).
      rewrite convertNumber_small by done.
      exists n, 0. split; [lia|]. split; [done|]. rewrite Z.pow_0_r. lia.
    + destruct (convertNumber_large n He) as (q' & [Hlo Hhi] & ->).
      set (e := Z.log2 (Z.abs n) - 52) in *.
      destruct (Z.eq_dec q' (2 ^ 53)) as [->|Hne].
      * exists (Z.sgn n * 2 ^ 52), (e + 1). split; [lia|]. split.
        -- rewrite Z.abs_mul. destruct n; simpl; lia.
        -- rewrite Z.pow_add_r by lia. change (2 ^ 53) with (2 ^ 52 * 2).
           rewrite Z.pow_1_r. ring.
      * exists (Z.sgn n * q'), e. split; [lia|]. split.
        -- rewrite Z.abs_mul. destruct n; simpl; lia.
        -- ring.
  - intros (m & e & He & Hm & ->).
    destruct (Z.eq_dec m 0) as [->|Hm0]; [reflexivity|].
    assert (0 < 2 ^ e) as Hpow by (apply Z.pow_pos_nonneg; lia).
    assert (0 < Z.abs m) as Hpos by lia.
    assert (Z.abs (m * 2 ^ e) = Z.abs m * 2 ^ e) as Habs.
    { rewrite Z.abs_mul. f_equal. lia. }
    assert (Z.log2 (Z.abs m * 2 ^ e) = e + Z.log2 (Z.abs m)) as Hlog.
    { rewrite Z.log2_mul_pow2 by lia. lia. }
    assert (Z.log2 (Z.abs m) < 53) as Hlm.
    { apply (Z.log2_lt_pow2 (Z.abs m) 53 Hpos). exact Hm. }
    unfold convertNumber. cbv zeta. rewrite Habs, Hlog.
    destruct (Z.leb_spec (e + Z.log2 (Z.abs m) - 52) 0) as [|HE];
      [reflexivity|].
    set (E := e + Z.log2 (Z.abs m) - 52) in *.
    assert (2 ^ e = 2 ^ (e - E) * 2 ^ E) as Hsplit.
    { rewrite <- Z.pow_add_r by lia. f_equal. lia. }
    assert (0 < 2 ^ E) as HpowE by (apply Z.pow_pos_nonneg; lia).
    assert (Z.abs m * 2 ^ e = (Z.abs m * 2 ^ (e - E)) * 2 ^ E) as Hfac.
    { rewrite Hsplit. ring. }
    rewrite Hfac, Z.mod_mul, Z.div_mul by lia.
    assert (0 < 2 ^ (E - 1)) as Hhalf by (apply Z.pow_pos_nonneg; lia).
    destruct (Z.ltb_spec (2 ^ (E - 1)) 0) as [|_]; [lia|].
    destruct (Z.eqb_spec 0 (2 ^ (E - 1))) as [|_]; [lia|].
    cbn [orb andb]. rewrite <- Hfac.
    rewrite Z.sgn_mul. rewrite (Z.sgn_pos (2 ^ e)) by lia.
    rewrite Z.mul_1_r, Z.mul_assoc. f_equal. destruct m; reflexivity.
Qed.

(** What has been read is a double: reading it again changes nothing. *)
Lemma isDouble_convertNumber n : isDouble (convertNumber n).
Proof.
  apply isDouble_spec. destruct (isDouble_spec (convertNumber n)) as [_ Hback].
  destruct (Z.leb_spec (Z.log2 (Z.abs n) - 52) 0) as [He|He].
  - assert (Z.abs n < 2 ^ 53) as Hn by (apply log2_small; lia).
    rewrite convertNumber_small by done.
    exists n, 0. split; [lia|]. split; [done|]. rewrite Z.pow_0_r. lia.
  - destruct (convertNumber_large n He) as (q' & [Hlo Hhi] & ->).
    set (e := Z.log2 (Z.abs n) - 52) in *.
    destruct (Z.eq_dec q' (2 ^ 53)) as [->|Hne].
    + exists (Z.sgn n * 2 ^ 52), (e + 1). split; [lia|]. split.
      * rewrite Z.abs_mul. destruct n; simpl; lia.
      * rewrite Z.pow_add_r by lia. change (2 ^ 53) with (2 ^ 52 * 2).
        rewrite Z.pow_1_r. ring.
    + exists (Z.sgn n * q'), e. split; [lia|]. split.
      * rewrite Z.abs_mul. destruct n; simpl; lia.
      * ring.
Qed.

(** Reading keeps the sign of a count. *)
Lemma convertNumber_sgn n : Z.sgn (convertNumber n) = Z.sgn n.
Proof.
  destruct (Z.leb_spec (Z.log2 (Z.abs n) - 52) 0) as [He|He].
  - unfold convertNumber. cbv zeta.
    destruct (Z.leb_spec (Z.log2 (Z.abs n) - 52) 0); [reflexivity|lia].
  - destruct (convertNumber_large n He) as (q' & [Hlo Hhi] & ->).
    assert (0 < 2 ^ (Z.log2 (Z.abs n) - 52)) as Hpow
      by (apply Z.pow_pos_nonneg; lia).
    rewrite !Z.sgn_mul, (Z.sgn_pos q'), (Z.sgn_pos (2 ^ _)) by lia.
    destruct n; reflexivity.
Qed.

Lemma convertNumber_pos n : 0 < convertNumber n ↔ 0 < n.
Proof. pose proof (convertNumber_sgn n). lia. Qed.

(** One above 2^53 is read as 2^53, three above as four above. *)
Example convertNumber_rounds :
  convertNumber 9007199254740993 = 9007199254740992
  ∧ convertNumber 9007199254740995 = 9007199254740996
  ∧ convertNumber (-9007199254740993) = -9007199254740992.
Proof. vm_compute. done. Qed.

End Numbers.

Lemma lookup_convertOutputMap m k :
  convertOutputMap m !! k
  = if decide (k = "__proto__") then None else convertNumber <$> m !! k.
Proof.
  unfold convertOutputMap. rewrite lookup_fmap. case_decide as Hk.
  - subst k. by rewrite lookup_delete_eq.
  - by rewrite lookup_delete_ne.
Qed.

Lemma convertOutputMap_empty : convertOutputMap ∅ = ∅.
Proof. apply map_eq. intros k. rewrite lookup_convertOutputMap. by case_decide. Qed.

Lemma holdsDoubles_convertOutputMap m : holdsDoubles (convertOutputMap m).
Proof.
  intros k v. rewrite lookup_convertOutputMap. case_decide; [done|].
  destruct (m !! k) as [x|]; [|done]. intros [= <-].
  apply isDouble_convertNumber.
Qed.

Lemma holdsDoubles_union m1 m2 :
  holdsDoubles m1 → holdsDoubles m2 → holdsDoubles (m1 ∪ m2).
Proof.
  intros H1 H2 k v [Hk|[_ Hk]]%lookup_union_Some_raw;
    [by eapply H1|by eapply H2].
Qed.

Lemma holdsDoubles_positiveEntries m :
  holdsDoubles m → holdsDoubles (positiveEntries m).
Proof.
  intros Hm k v. rewrite lookup_positiveEntries.
  destruct (m !! k) as [x|] eqn:Hk; [|done]. case_decide; [|done].
  intros [= <-]. by eapply Hm.
Qed.

(** What has been read and pruned is read again as it is. *)
Lemma positiveEntries_convertOutputMap_self m :
  holdsDoubles m → allPositive m →
  positiveEntries (convertOutputMap m) ∪ m = m
  ∧ hasDropped (convertOutputMap m) = false.
Proof.
  intros Hd Hpos. split.
  - apply map_eq. intros k.
    rewrite lookup_union, lookup_positiveEntries, lookup_convertOutputMap.
    case_decide; [by destruct (m !! k)|].
    destruct (m !! k) as [v|] eqn:Hk; [|done]. cbn [fmap option_fmap option_map].
    rewrite (Hd k v Hk). rewrite decide_True by (by eapply Hpos). done.
  - apply hasDropped_false. intros k v. rewrite lookup_convertOutputMap.
    case_decide; [done|]. destruct (m !! k) as [x|] eqn:Hk; [|done].
    intros [= <-]. apply convertNumber_pos. by eapply Hpos.
Qed.

(** The records of the two slots, turned into objects and decoded: each slot
    is the counter map its record holds, as the client reads it, in an object
    of its own, or the map of [defaultIndex] when the table has no counters
    for the slot; the maps of [defaultIndex] are as before. *)
Lemma decode_on_table {S} `{!DocumentClient S} (db : DynamoDb.Db) (h : heap)
    (w : World S) :
  configured w (DynamoDb.db_name db) →
  keyedById db →
  let data :=
    {| data_Responses :=
         Some [(DynamoDb.db_name db,
                omap (λ k, DynamoDb.db_items db !! key_id k)
                  [{| key_id := TAGS_ID |}; {| key_id := PEOPLE_ID |}])] |} in
  let decoded := unmarshall data h in
  ∃ indexes,
    parseIndexesObject decoded.1 w = (Resolved indexes, w)
    ∧ getMap decoded.2 (tags indexes)
      = default (getMap h loc_defaultTags)
          (convertOutputMap <$> storedCounters db TAGS_ID)
    ∧ getMap decoded.2 (people indexes)
      = default (getMap h loc_defaultPeople)
          (convertOutputMap <$> storedCounters db PEOPLE_ID)
    ∧ getMap decoded.2 loc_defaultTags = getMap h loc_defaultTags
    ∧ getMap decoded.2 loc_defaultPeople = getMap h loc_defaultPeople
    ∧ tags indexes ≠ loc_defaultPeople.
Proof.
  intros Hname Hkeyed. cbv zeta. unfold storedCounters.
  unfold unmarshall, unmarshallTable. cbn [data_Responses foldl fst snd app].
  cbn [omap list_omap key_id].
  pose proof (Hkeyed TAGS_ID) as Htid. pose proof (Hkeyed PEOPLE_ID) as Hpid.
  destruct (DynamoDb.db_items db !! TAGS_ID) as [[tid tkeys tat]|];
    destruct (DynamoDb.db_items db !! PEOPLE_ID) as [[pid pkeys pat]|].
  all: try (specialize (Htid _ eq_refl); cbn [item_id] in Htid; subst tid).
  all: try (specialize (Hpid _ eq_refl); cbn [item_id] in Hpid; subst pid).
  all: try destruct tkeys as [tm|]; try destruct pkeys as [pm|].
  all: cbn [foldl unmarshallItem item_indexKeys item_id fst snd app
            mbind option_bind default fmap option_fmap option_map].
  all: eexists; split;
    [eapply parseIndexesObject_configured; [exact Hname|];
     cbn [tableItems]; rewrite decide_True by done; reflexivity|].
  all: cbn [find obj_id obj_indexKeys people tags indexKeysOr defaultIndex].
  all: repeat (rewrite ?bool_decide_eq_true_2 by done;
               rewrite ?bool_decide_eq_false_2 by done;
               cbn [find obj_id obj_indexKeys people tags indexKeysOr
                    defaultIndex]).
  all: repeat match goal with
       | |- context [freshLoc (<[?l := ?m]> ?h')] =>
           lazymatch goal with
           | _ : freshLoc (<[l := m]> h') ≠ l |- _ => fail
           | _ =>
               pose proof (freshLoc_insert_ne h' l m);
               pose proof (freshLoc_not_default (<[l := m]> h')) as [? ?]
           end
       end.
  all: pose proof (freshLoc_not_default h) as [? ?].
  all: repeat split.
  all: rewrite ?getMap_insert_eq; try done.
  all: repeat (rewrite getMap_insert_ne by done); rewrite ?getMap_insert_eq;
    try done.
Qed.

(** The write-back of the cleaned index, as the table answers it: both
    records are replaced, "tags" first. *)
Lemma batchWrite_on_table (db : DynamoDb.Db) (h : heap) indexObject :
  ddb_batchWrite (cleanIndexesParams (DynamoDb.db_name db) h indexObject) db
  = (inr {| UnprocessedItems := [] |},
     {| DynamoDb.db_name := DynamoDb.db_name db;
        DynamoDb.db_items :=
          <[PEOPLE_ID := {| item_id := PEOPLE_ID;
                            item_indexKeys :=
                              Some (getMap h (people indexObject));
                            item_updatedAt := None |}]>
            (<[TAGS_ID := {| item_id := TAGS_ID;
                             item_indexKeys :=
                               Some (getMap h (tags indexObject));
                             item_updatedAt := None |}]>
               (DynamoDb.db_items db)) |}).
Proof.
  cbn [ddb_batchWrite DynamoDb.client]. unfold DynamoDb.batchWriteItem.
  cbn [cleanIndexesParams bw_RequestItems forallb fst snd].
  by rewrite String.eqb_refl.
Qed.

(** A slot without counters in the table is decoded to the map of
    [defaultIndex]; with positive counts only in that map, pruning it is
    pruning no entries.  What the client has read has no entry under
    ["__proto__"], so a loop keeps its positive entries. *)
Lemma keptEntries_default_slot (dm : gmap string Z) stored :
  allPositive dm →
  keptEntries dm (default dm (convertOutputMap <$> stored)) ∪ dm
  = positiveEntries (convertOutputMap (default ∅ stored)) ∪ dm
  ∧ hasDropped (default dm (convertOutputMap <$> stored))
    = hasDropped (convertOutputMap (default ∅ stored)).
Proof.
  intros Hpos. destruct stored as [m|];
    cbn [default fmap option_fmap option_map from_option id].
  - split; [|done]. rewrite keptEntries_positive; [done|].
    rewrite lookup_convertOutputMap. by rewrite decide_True.
  - rewrite convertOutputMap_empty. split.
    + by rewrite keptEntries_union_self, positiveEntries_empty,
        (left_id_L ∅ (∪)).
    + apply allPositive_hasDropped in Hpos. rewrite Hpos. symmetry.
      apply allPositive_hasDropped, allPositive_empty.
Qed.

(** [getItem] on the table, in a process whose maps of [defaultIndex] hold
    positive counts only. *)
Lemma getItem_on_table (w : World DynamoDb.Db) :
  configured w (DynamoDb.db_name (table w)) →
  keyedById (table w) →
  defaultsPositive (objects w) →
  let name := DynamoDb.db_name (table w) in
  let tagsCleaned :=
    positiveEntries (countersRead (table w) "tags")
    ∪ getMap (objects w) (tags defaultIndex) in
  let peopleCleaned :=
    positiveEntries (countersRead (table w) "people")
    ∪ getMap (objects w) (people defaultIndex) in
  let tagsRecord :=
    {| item_id := "tags"; item_indexKeys := Some tagsCleaned;
       item_updatedAt := None |} in
  let peopleRecord :=
    {| item_id := "people"; item_indexKeys := Some peopleCleaned;
       item_updatedAt := None |} in
  let read :=
    CallBatchGet
      {| bg_RequestItems :=
           [(name, [{| key_id := "tags" |}; {| key_id := "people" |}])] |} in
  let write :=
    CallBatchWrite
      {| bw_RequestItems :=
           [(name, [PutRequest tagsRecord; PutRequest peopleRecord])] |} in
  let r := getItem w in
  (∃ payload,
     r.1 = success payload
     ∧ get_cleanZeroIndexesObject payload = defaultIndex)
  ∧ getMap (objects r.2) (tags defaultIndex) = tagsCleaned
  ∧ getMap (objects r.2) (people defaultIndex) = peopleCleaned
  ∧ defaultsPositive (objects r.2)
  ∧ DYNAMODB_TABLE_INDEXES r.2 = DYNAMODB_TABLE_INDEXES w
  ∧ if hasDropped (countersRead (table w) "people")
       || hasDropped (countersRead (table w) "tags")
    then
      calls r.2 = calls w ++ [read; write]
      ∧ table r.2
        = {| DynamoDb.db_name := name;
             DynamoDb.db_items :=
               <["people" := peopleRecord]>
                 (<["tags" := tagsRecord]> (DynamoDb.db_items (table w))) |}
    else calls r.2 = calls w ++ [read] ∧ table r.2 = table w.
Proof.
  intros Hname Hkeyed [Hdp Hdt]. cbv zeta.
  rewrite (getItem_unfold w _ Hname). cbv zeta.
  rewrite batchGet_on_table. cbn [fst snd].
  set (ddbParams := {| bg_RequestItems := _ |}).
  set (data := {| data_Responses := _ |}).
  set (w1 := afterCall (CallBatchGet ddbParams) (table w) w).
  change (objects w1) with (objects w).
  set (decoded := unmarshall data (objects w)).
  set (w2 := withObjects decoded.2 w1).
  assert (configured w2 (DynamoDb.db_name (table w))) as Hname2 by exact Hname.
  destruct (decode_on_table (table w) (objects w) w2 Hname2 Hkeyed)
    as (indexes & Hparse & Htags & Hpeople & Hkt & Hkp & Hcross).
  cbv zeta in Hparse, Htags, Hpeople, Hkt, Hkp. fold data in Hparse, Htags,
    Hpeople, Hkt, Hkp. fold decoded in Hparse, Htags, Hpeople, Hkt, Hkp.
  rewrite Hparse. cbn [fst snd].
  rewrite cleanZeroIndexes_unfold. cbv zeta.
  destruct (pruneLoops_spec indexes (objects w2))
    as (Hc & Hp & _ & Ht).
  destruct (Ht Hcross) as [Ht' Hflag]. clear Ht.
  assert (defaultsPositive (pruneLoops indexes (objects w2)).2) as Hafter.
  { apply pruneLoops_positive. split; cbn [people tags defaultIndex objects w2
      withObjects]; by rewrite ?Hkt, ?Hkp. }
  change (objects w2) with decoded.2 in *.
  rewrite Hpeople, Hkp in Hp. rewrite Htags, Hkt in Ht'.
  rewrite Hpeople, Htags in Hflag.
  destruct (keptEntries_default_slot _ (storedCounters (table w) PEOPLE_ID)
              Hdp) as [Hpu Hpf].
  destruct (keptEntries_default_slot _ (storedCounters (table w) TAGS_ID)
              Hdt) as [Htu Htf].
  cbn [people tags defaultIndex] in *.
  rewrite Hpu in Hp. rewrite Htu in Ht'. rewrite Hpf, Htf in Hflag.
  fold (countersOf (table w) PEOPLE_ID) in Hp, Hflag.
  fold (countersOf (table w) TAGS_ID) in Ht', Hflag.
  fold (countersRead (table w) PEOPLE_ID) in Hp, Hflag.
  fold (countersRead (table w) TAGS_ID) in Ht', Hflag.
  unfold TAGS_ID, PEOPLE_ID in *.
  destruct (pruneLoops indexes decoded.2) as [[cleaned flag] h'].
  cbn [fst snd] in *. subst cleaned. rewrite <- Hflag.
  destruct flag.
  - unfold andThen.
    rewrite (updateCleanIndexes_configured _ (DynamoDb.db_name (table w)))
      by exact Hname.
    unfold dynamodb_batchWrite. rewrite send_unfold.
    cbn [objects withObjects table w2 w1 afterCall].
    rewrite batchWrite_on_table. cbn [fst snd resolve].
    cbn [objects withObjects table afterCall calls people tags defaultIndex].
    unfold TAGS_ID, PEOPLE_ID. rewrite Hp, Ht'.
    split; [by eexists|]. do 4 (split; [done|]).
    split; [|done]. unfold w2, w1, withObjects, afterCall. cbn [calls].
    rewrite <- app_assoc. unfold cleanIndexesParams.
    cbn [people tags defaultIndex app]. unfold TAGS_ID, PEOPLE_ID.
    by rewrite Hp, Ht'.
  - unfold w2, w1, withObjects, afterCall.
    cbn [fst snd objects table calls].
    split; [by eexists|]. by do 4 (split; [done|]).
Qed.



Lemma freshWorld_positive {S} (s : S) :
  defaultsPositive (objects (freshWorld [] s)).
Proof. exact defaultsPositive_at_load. Qed.


Lemma union_absorb (m d : gmap string Z) : m ∪ (m ∪ d) = m ∪ d.
Proof.
  apply map_eq. intros k. rewrite !lookup_union.
  by destruct (m !! k), (d !! k).
Qed.

Lemma countersOf_insert_eq name (items : gmap string Item) id it :
  countersOf {| DynamoDb.db_name := name;
                DynamoDb.db_items := <[id := it]> items |} id
  = default ∅ (item_indexKeys it).
Proof.
  unfold countersOf, storedCounters. cbn [DynamoDb.db_items].
  by rewrite lookup_insert_eq.
Qed.

Lemma countersOf_insert_ne name (items : gmap string Item) id id' it :
  id ≠ id' →
  countersOf {| DynamoDb.db_name := name;
                DynamoDb.db_items := <[id := it]> items |} id'
  = countersOf {| DynamoDb.db_name := name; DynamoDb.db_items := items |} id'.
Proof.
  intros Hne. unfold countersOf, storedCounters. cbn [DynamoDb.db_items].
  by rewrite lookup_insert_ne.
Qed.

(** X15: a read right after a read only reads: whatever the table held,
    once a read has pruned it the next one resolves with the same maps,
    sends the batch read alone and leaves the table as it is.  The counts
    the process holds are JavaScript numbers. *)
Theorem second_read_only_reads (w : World DynamoDb.Db) :
  configured w (DynamoDb.db_name (table w)) →
  keyedById (table w) →
  defaultsPositive (objects w) →
  holdsDoubles (getMap (objects w) (people defaultIndex)) →
  holdsDoubles (getMap (objects w) (tags defaultIndex)) →
  let w1 := (getItem w).2 in
  let r := getItem w1 in
  (∃ payload, r.1 = success payload)
  ∧ calls r.2
    = calls w1
      ++ [CallBatchGet
            {| bg_RequestItems :=
                 [(DynamoDb.db_name (table w),
                   [{| key_id := "tags" |}; {| key_id := "people" |}])] |}]
  ∧ table r.2 = table w1
  ∧ getMap (objects r.2) (tags defaultIndex)
    = getMap (objects w1) (tags defaultIndex)
  ∧ getMap (objects r.2) (people defaultIndex)
    = getMap (objects w1) (people defaultIndex).
Proof.
  intros Hname Hkeyed Hpos Hdp Hdt. cbv zeta.
  destruct (getItem_on_table w Hname Hkeyed Hpos)
    as (_ & Ht & Hp & Hpos1 & Henv & Hrest). cbv zeta in Ht, Hp, Hrest.
  set (w1 := (getItem w).2) in *.
  assert (holdsDoubles (getMap (objects w1) (people defaultIndex))
          ∧ holdsDoubles (getMap (objects w1) (tags defaultIndex)))
    as [Hdp1 Hdt1].
  { rewrite Ht, Hp. split; (apply holdsDoubles_union; [|done]);
      apply holdsDoubles_positiveEntries, holdsDoubles_convertOutputMap. }
  assert (DynamoDb.db_name (table w1) = DynamoDb.db_name (table w)
          ∧ keyedById (table w1)
          ∧ hasDropped (countersRead (table w1) "people")
            || hasDropped (countersRead (table w1) "tags") = false
          ∧ positiveEntries (countersRead (table w1) "tags")
            ∪ getMap (objects w1) (tags defaultIndex)
            = getMap (objects w1) (tags defaultIndex)
          ∧ positiveEntries (countersRead (table w1) "people")
            ∪ getMap (objects w1) (people defaultIndex)
            = getMap (objects w1) (people defaultIndex))
    as (Hn1 & Hkeyed1 & Hclean & Htags & Hpeople).
  { destruct Hpos1 as [Hpp Hpt].
    destruct (hasDropped (countersRead (table w) "people")
              || hasDropped (countersRead (table w) "tags")) eqn:Hdropped.
    - destruct Hrest as [_ Htable]. rewrite Htable.
      split; [done|]. split.
      { apply (keyedById_insert
                 {| DynamoDb.db_name := DynamoDb.db_name (table w);
                    DynamoDb.db_items := _ |}); [|done].
        by apply keyedById_insert. }
      unfold countersRead in *.
      rewrite countersOf_insert_eq, countersOf_insert_ne,
        countersOf_insert_eq by done.
      cbn [item_indexKeys default from_option id].
      rewrite <- Ht, <- Hp.
      destruct (positiveEntries_convertOutputMap_self _ Hdp1 Hpp)
        as [Hps Hpf].
      destruct (positiveEntries_convertOutputMap_self _ Hdt1 Hpt)
        as [Hts Htf].
      by rewrite Hpf, Htf, Hps, Hts.
    - destruct Hrest as [_ Htable]. rewrite Htable.
      split; [done|]. split; [done|]. split; [done|].
      apply orb_false_iff in Hdropped as [Hfp Hft].
      rewrite Ht, Hp, !positiveEntries_id by done.
      by rewrite !union_absorb. }
  assert (configured w1 (DynamoDb.db_name (table w1))) as Hname1.
  { rewrite Hn1. unfold configured. by rewrite Henv. }
  destruct (getItem_on_table w1 Hname1 Hkeyed1 Hpos1)
    as ([payload [Hok _]] & Ht2 & Hp2 & _ & _ & Hrest2).
  cbv zeta in Ht2, Hp2, Hrest2. rewrite Hclean, Hn1 in Hrest2.
  destruct Hrest2 as [Hcalls Htable].
  rewrite Ht2, Hp2, Htags, Hpeople.
  split; [by eexists|]. by do 2 (split; [done|]).
Qed.

Lemma holdsDoubles_empty : holdsDoubles ∅.
Proof. intros k v Hk. by rewrite lookup_empty in Hk. Qed.

Lemma second_read_only_reads_witness :
  let w := freshWorld [] oddDb in
  let w1 := (getItem w).2 in
  configured w (DynamoDb.db_name (table w))
  ∧ keyedById (table w)
  ∧ defaultsPositive (objects w)
  ∧ holdsDoubles (getMap (objects w) (people defaultIndex))
  ∧ holdsDoubles (getMap (objects w) (tags defaultIndex))
  ∧ length (calls w1) = 2
  ∧ length (calls (getItem w1).2) = 3
  ∧ table (getItem w1).2 = table w1.
Proof.
  assert (configured (freshWorld [] oddDb)
            (DynamoDb.db_name (table (freshWorld [] oddDb)))) as Hname.
  { split; [reflexivity|discriminate]. }
  assert (keyedById (table (freshWorld [] oddDb))) as Hkeyed.
  { intros k it Hit. cbn in Hit.
    by apply lookup_singleton_Some in Hit as [<- <-]. }
  pose proof (freshWorld_positive oddDb) as Hpos.
  assert (getMap (objects (freshWorld [] oddDb)) (people defaultIndex) = ∅)
    as Hpe by (vm_compute; reflexivity).
  assert (getMap (objects (freshWorld [] oddDb)) (tags defaultIndex) = ∅)
    as Hte by (vm_compute; reflexivity).
  assert (holdsDoubles
            (getMap (objects (freshWorld [] oddDb)) (people defaultIndex)))
    as Hdp by (rewrite Hpe; apply holdsDoubles_empty).
  assert (holdsDoubles
            (getMap (objects (freshWorld [] oddDb)) (tags defaultIndex)))
    as Hdt by (rewrite Hte; apply holdsDoubles_empty).
  destruct (second_read_only_reads (freshWorld [] oddDb)
              Hname Hkeyed Hpos Hdp Hdt) as (_ & Hcalls & Htable & _).
  cbv zeta in *. split; [exact Hname|]. split; [exact Hkeyed|].
  split; [exact Hpos|]. split; [exact Hdp|]. split; [exact Hdt|].
  assert (length (calls (getItem (freshWorld [] oddDb)).2) = 2) as Hfirst
    by (vm_compute; reflexivity).
  split; [exact Hfirst|]. split; [|exact Htable].
  rewrite Hcalls, length_app, Hfirst. reflexivity.
Defined.

(** ** A write, then a read *)




(** ** The text of an increment *)

(** A request [getDynamoDbUpdateItemParams] resolves with is the increment
    of the valid keys, at the time read and for the table named. *)
Lemma getDynamoDbUpdateItemParams_shape {S} `{!DocumentClient S}
    indexId (indexData : IIndexDictionary) (w : World S) ddbParams :
  (getDynamoDbUpdateItemParams indexId (Some indexData) w).1
  = Resolved (Some ddbParams) →
  validKeysOf indexData ≠ []
  ∧ ∃ name, configured w name
            ∧ ddbParams = incrementParams indexId indexData (clock w) name.
Proof.
  unfold getDynamoDbUpdateItemParams; open_bind. cbn [Date_now].
  case_bool_decide as Hlen; [|done].
  destruct (getIndexTableName_cases w) as [(name & Hname & ->)|[_ ->]];
    [|done].
  cbn [fst mret M_ret resolve]. intros [= <-]. split.
  - intros Hnil. rewrite Hnil in Hlen. simpl in Hlen. lia.
  - by exists name.
Qed.

(** X17: the keys of the deltas never enter the text of the update
    expression: two requests for as many valid keys have the same
    expression, whatever the keys, the deltas and the slots.  The j-th valid
    key travels in [ExpressionAttributeNames] under the placeholder made of
    "#" and j, and its delta in [ExpressionAttributeValues] under the one
    made of ":" and j. *)
Theorem key_text_stays_out_of_the_expression {S} `{!DocumentClient S}
    indexId indexId' (indexData indexData' : IIndexDictionary)
    (w w' : World S) ddbParams ddbParams' :
  (getDynamoDbUpdateItemParams indexId (Some indexData) w).1
  = Resolved (Some ddbParams) →
  (getDynamoDbUpdateItemParams indexId' (Some indexData') w').1
  = Resolved (Some ddbParams') →
  length (validKeysOf indexData) = length (validKeysOf indexData') →
  UpdateExpression ddbParams = UpdateExpression ddbParams'
  ∧ ∀ j k,
      validKeysOf indexData !! j = Some k →
      ExpressionAttributeNames ddbParams !! ("#" +:+ decimal j) = Some k
      ∧ ExpressionAttributeValues ddbParams !! (":" +:+ decimal j)
        = Some (toAttribute (getProp indexData k)).
Proof.
  intros (_ & name & _ & ->)%getDynamoDbUpdateItemParams_shape
         (_ & name' & _ & ->)%getDynamoDbUpdateItemParams_shape Hlen.
  cbn [incrementParams UpdateExpression ExpressionAttributeNames
       ExpressionAttributeValues]. split.
  - by rewrite !imap_index, Hlen.
  - intros j k Hj. split.
    + by apply attributeNames_key.
    + by apply attributeValues_key.
Qed.

Lemma key_text_stays_out_of_the_expression_witness :
  let w := freshWorld [] emptyDb in
  let p := incrementParams "tags" exampleDeltas 1000 "indexes" in
  let p' := incrementParams "people" awkwardDeltas 1000 "indexes" in
  (getDynamoDbUpdateItemParams "tags" (Some exampleDeltas) w).1
  = Resolved (Some p)
  ∧ (getDynamoDbUpdateItemParams "people" (Some awkwardDeltas) w).1
    = Resolved (Some p')
  ∧ UpdateExpression p = UpdateExpression p'
  ∧ ExpressionAttributeNames p' !! "#0" = Some "new york"
  ∧ ExpressionAttributeNames p' !! "#1" = Some "#0".
Proof.
  assert (configured (freshWorld [] emptyDb) "indexes") as Hname.
  { split; [reflexivity|discriminate]. }
  assert ((getDynamoDbUpdateItemParams "tags" (Some exampleDeltas)
             (freshWorld [] emptyDb)).1
          = Resolved (Some (incrementParams "tags" exampleDeltas 1000
                              "indexes"))) as Hp.
  { by rewrite (getDynamoDbUpdateItemParams_built "tags" exampleDeltas _
                  "indexes" Hname). }
  assert ((getDynamoDbUpdateItemParams "people" (Some awkwardDeltas)
             (freshWorld [] emptyDb)).1
          = Resolved (Some (incrementParams "people" awkwardDeltas 1000
                              "indexes"))) as Hp'.
  { by rewrite (getDynamoDbUpdateItemParams_built "people" awkwardDeltas _
                  "indexes" Hname). }
  destruct (key_text_stays_out_of_the_expression "tags" "people"
              exampleDeltas awkwardDeltas _ _ _ _ Hp Hp' eq_refl)
    as [Hexpr _].
  destruct (key_text_stays_out_of_the_expression "people" "tags"
              awkwardDeltas exampleDeltas _ _ _ _ Hp' Hp eq_refl)
    as [_ Hkeys].
  cbv zeta. split; [exact Hp|]. split; [exact Hp'|]. split; [exact Hexpr|].
  split.
  - exact (proj1 (Hkeys 0 "new york" eq_refl)).
  - exact (proj1 (Hkeys 1 "#0" eq_refl)).
Defined.
